(** * NPR proof assistant kernel: diagrams, rewrites and the categorical engine

    A shallow embedding of the TypeScript kernel:
    - [types/diagram.ts], [types/rewrite.ts]: the zigzag data model and its
      structural validators;
    - [engine/normalization.ts], [engine/composition.ts],
      [engine/contraction.ts]: the categorical operations;
    - [engine/validation.ts]: the comprehensive validation of diagrams,
      rewrites and compositions;
    - [types/npr.ts], [axioms/npr-rules.ts], [axioms/cartesian.ts],
      [axioms/cocartesian.ts], [axioms/index.ts]: the built-in axioms and
      the complete axiom system;
    - [axioms/validation.ts]: the axiom registry and the validation report.

    Values that TypeScript builds as plain objects are inductive trees here.
    A [throw] is a [Throw] in the [result] monad.  The [number] held by a
    [dimension] or an [index] field is an integer [Z]; the code compares it
    with [===], [<] and [>] only, and builds new ones with [Math.max] and
    [Math.abs].  Self-referential objects, which trees cannot express, are
    modelled separately on an explicit object heap (module [Heap]). *)

From stdpp Require Import base tactics option list strings gmap pretty.

Open Scope string_scope.
Open Scope list_scope.
Open Scope Z_scope.

(** ** Exceptions *)

(** What a [throw] carries.  [Error m] is [new Error(m)]; [TypeError m] is what
    the runtime raises on reading a property of [undefined]; [NonError] is any
    thrown value that is not an [Error] instance. *)
Inductive thrown : Type :=
| Error (message : string)
| TypeError (message : string)
| NonError.

Inductive result (A : Type) : Type :=
| Ok (a : A)
| Throw (e : thrown).
Arguments Ok {A} a.
Arguments Throw {A} e.

(** Sequencing: an exception in [m] skips the continuation. *)
Definition bindR {A B} (m : result A) (k : A -> result B) : result B :=
  match m with
  | Ok a => k a
  | Throw e => Throw e
  end.

Notation "'do' x <- m ; k" := (bindR m (fun x => k))
  (at level 10, x name, m at level 100, k at level 200, only parsing).

(** [array.map(f)] for a callback that may throw: left to right, the first
    exception aborts the traversal. *)
Definition mapR {A B} (f : A -> result B) : list A -> result (list B) :=
  fix go l :=
    match l with
    | [] => Ok []
    | x :: l' =>
        match f x with
        | Throw e => Throw e
        | Ok y => match go l' with
                  | Throw e => Throw e
                  | Ok ys => Ok (y :: ys)
                  end
        end
    end.

(** [error instanceof Error ? error.message : 'Unknown error'] *)
Definition messageOf (e : thrown) : string :=
  match e with
  | Error m => m
  | TypeError m => m
  | NonError => "Unknown error"
  end.

(** The runtime's complaint on [undefined.prop]. *)
Definition undefinedRead (prop : string) : thrown :=
  TypeError ("Cannot read properties of undefined (reading '" +:+ prop +:+ "')").

(** ** types/diagram.ts *)

Inductive Color : Type := cartesian | cocartesian.

#[global] Instance Color_eq_dec : EqDecision Color.
Proof. solve_decision. Defined.

Record Generator : Type := mkGenerator {
  g_id : string;
  g_label : option string;
  g_color : option Color
}.

#[global] Instance Generator_eq_dec : EqDecision Generator.
Proof. solve_decision. Defined.

(** ** types/rewrite.ts *)

(** [Rewrite = Rewrite0 | RewriteI | RewriteN].  [RewriteI] is the object
    [{dimension: 1, identity: true}]; a [RewriteN] carries any [dimension]
    number, so the ill-formed shapes [{dimension: 0, cones}] and
    [{dimension: 1, cones}] are values of the type, as in TypeScript. *)
Inductive Rewrite : Type :=
| Rewrite0 (source target : Generator)
| RewriteI
| RewriteN (dimension : Z) (cones : list Cone)
with Cone : Type :=
| mkCone (index : Z) (source : list Cospan) (target : Cospan) (slices : list Rewrite)
with Cospan : Type :=
| mkCospan (forward backward : Rewrite).

Definition r_dimension (r : Rewrite) : Z :=
  match r with
  | Rewrite0 _ _ => 0
  | RewriteI => 1
  | RewriteN n _ => n
  end.

(** ['identity' in r && r.identity] *)
Definition r_identity (r : Rewrite) : bool :=
  match r with
  | RewriteI => true
  | _ => false
  end.

Definition forward (c : Cospan) : Rewrite := match c with mkCospan f _ => f end.
Definition backward (c : Cospan) : Rewrite := match c with mkCospan _ b => b end.

(** [rewrite.source.id] and [rewrite.target.id]: only a [Rewrite0] has the
    fields; on a [RewriteN] the read of [.id] on [undefined] throws. *)
Definition r_source_id (r : Rewrite) : result string :=
  match r with
  | Rewrite0 s _ => Ok (g_id s)
  | _ => Throw (undefinedRead "id")
  end.

Definition r_target_id (r : Rewrite) : result string :=
  match r with
  | Rewrite0 _ t => Ok (g_id t)
  | _ => Throw (undefinedRead "id")
  end.

(** [DiagramN.cospans] is declared [any[]]; the entries are cospans whose legs
    may be ill-formed, which is all that the engine ever asks of an entry
    (through [isValidCospan]). *)
Inductive Diagram : Type :=
| Diagram0 (generator : Generator)
| DiagramN (dimension : Z) (source : Diagram) (cospans : list Cospan).

Definition d_dimension (d : Diagram) : Z :=
  match d with
  | Diagram0 _ => 0
  | DiagramN n _ _ => n
  end.

Definition isValidGenerator (generator : Generator) : bool :=
  if bool_decide (g_id generator = "") then false
  else
    (* label: undefined or a string, by its type *)
    match g_color generator with
    | None => true
    | Some c =>
        if negb (bool_decide (c = cartesian)) && negb (bool_decide (c = cocartesian))
        then false else true
    end.

Fixpoint isValidDiagram (diagram : Diagram) : bool :=
  match diagram with
  | Diagram0 generator => isValidGenerator generator
  | DiagramN dimension source cospans =>
      if dimension =? 0 then false (* isValidGenerator(undefined) *)
      else if dimension <? 0 then false
      else if negb (isValidDiagram source) then false
      else true (* Array.isArray(cospans) *)
  end.

Definition createEmptyDiagram : Diagram :=
  Diagram0 {| g_id := "empty"; g_label := Some "ε"; g_color := None |}.

Definition createGeneratorDiagram (generator : Generator) : Diagram :=
  Diagram0 generator.

Fixpoint isValidRewrite (rewrite : Rewrite) : bool :=
  match rewrite with
  | Rewrite0 source target => isValidGenerator source && isValidGenerator target
  | RewriteI => true
  | RewriteN dimension cones =>
      if dimension =? 0 then false (* isValidGenerator(undefined) *)
      else if dimension =? 1 then false (* identity === true fails *)
      else if dimension <? 0 then false
      else forallb isValidCone cones
  end
with isValidCone (cone : Cone) : bool :=
  match cone with
  | mkCone index source target slices =>
      if index <? 0 then false
      else if negb (isValidCospan target) then false
      else if negb (forallb isValidCospan source) then false
      else forallb isValidRewrite slices
  end
with isValidCospan (cospan : Cospan) : bool :=
  match cospan with
  | mkCospan forward backward => isValidRewrite forward && isValidRewrite backward
  end.

Definition createGeneratorRewrite (source target : Generator) : Rewrite :=
  Rewrite0 source target.

Definition createIdentityRewrite : Rewrite := RewriteI.

Definition createCospanRewrite (forward backward : Rewrite) : Cospan :=
  mkCospan forward backward.

(** ** engine/normalization.ts *)

Module Normalization.

Definition MAX_DEPTH : Z := 100.

(** The cycle guard of [normalizeDiagram].  The [visited] set holds object
    identities along one [source] chain; on a tree the nodes of a chain are
    pairwise distinct objects, so [visited.has(d)] never fires and the guard
    is the depth bound alone. *)
Fixpoint checkCycles (d : Diagram) (depth : Z) : result unit :=
  if depth >? MAX_DEPTH
  then Throw (Error "Maximum normalization depth exceeded - possible cycle detected")
  else
    match d with
    | Diagram0 _ => Ok tt
    | DiagramN dimension source _ =>
        if dimension >? 0 then checkCycles source (depth + 1) else Ok tt
    end.

Fixpoint normalizeRewrite (rewrite : Rewrite) : result Rewrite :=
  if negb (isValidRewrite rewrite)
  then Throw (Error "Cannot normalize invalid rewrite structure")
  else
    match rewrite with
    | RewriteI => Ok rewrite
    | Rewrite0 source target =>
        if bool_decide (g_id source = g_id target) then Ok rewrite else Ok rewrite
    | RewriteN dimension cones =>
        if dimension =? 0 then Throw (undefinedRead "id")
        else if dimension >? 1 then
          do normalizedCones <- mapR normalizeCone cones;
          Ok (RewriteN dimension normalizedCones)
        else Ok rewrite
    end
with normalizeCone (cone : Cone) : result Cone :=
  match cone with
  | mkCone index source target slices =>
      do source' <- mapR normalizeCospan source;
      do target' <- normalizeCospan target;
      do slices' <- mapR normalizeRewrite slices;
      Ok (mkCone index source' target' slices')
  end
with normalizeCospan (cospan : Cospan) : result Cospan :=
  match cospan with
  | mkCospan forward backward =>
      do forward' <- normalizeRewrite forward;
      do backward' <- normalizeRewrite backward;
      Ok (mkCospan forward' backward')
  end.

Definition isRedundantCospan (cospan : Cospan) : bool :=
  if (r_dimension (forward cospan) =? 1) && r_identity (forward cospan) &&
     (r_dimension (backward cospan) =? 1) && r_identity (backward cospan)
  then true else false.

Fixpoint reduceRedundantCospans (cospans : list Cospan) : list Cospan :=
  match cospans with
  | [] => []
  | cospan :: rest =>
      if isValidCospan cospan then
        if isRedundantCospan cospan then reduceRedundantCospans rest
        else cospan :: reduceRedundantCospans rest
      else reduceRedundantCospans rest
  end.

Fixpoint normalizeDiagram (diagram : Diagram) : result Diagram :=
  if negb (isValidDiagram diagram)
  then Throw (Error "Cannot normalize invalid diagram structure")
  else
    do _ <- checkCycles diagram 0;
    match diagram with
    | Diagram0 _ => Ok diagram
    | DiagramN dimension source cospans =>
        if dimension =? 0 then Ok diagram
        else
          do normalizedSource <- normalizeDiagram source;
          do normalizedCospans <-
            mapR (fun cospan =>
                    if isValidCospan cospan then normalizeCospan cospan
                    else Ok cospan) cospans;
          let reducedCospans := reduceRedundantCospans normalizedCospans in
          Ok (DiagramN dimension normalizedSource reducedCospans)
    end.

Definition areInverses (rewrite1 rewrite2 : Rewrite) : result bool :=
  if negb (r_dimension rewrite1 =? r_dimension rewrite2) || negb (r_dimension rewrite1 =? 0)
  then Ok false
  else
    do s1 <- r_source_id rewrite1;
    do t2 <- r_target_id rewrite2;
    if bool_decide (s1 = t2) then
      do t1 <- r_target_id rewrite1;
      do s2 <- r_source_id rewrite2;
      Ok (bool_decide (t1 = s2))
    else Ok false.

Definition areComposable (rewrite1 rewrite2 : Rewrite) : result bool :=
  if negb (r_dimension rewrite1 =? 0) || negb (r_dimension rewrite2 =? 0)
  then Ok false
  else
    do t1 <- r_target_id rewrite1;
    do s2 <- r_source_id rewrite2;
    Ok (bool_decide (t1 = s2)).

Definition composeForReduction (rewrite1 rewrite2 : Rewrite) : result Rewrite :=
  do composable <- areComposable rewrite1 rewrite2;
  if negb composable
  then Throw (Error "Rewrites are not composable for reduction")
  else
    match rewrite1, rewrite2 with
    | Rewrite0 source1 _, Rewrite0 _ target2 => Ok (Rewrite0 source1 target2)
    | _, _ => Throw (undefinedRead "id")
    end.

(** The [for] loop of [reduceTerms]: [rest] is [normalized] from index [i]
    on, [reduced] the accumulator; [i++] inside the body drops one more
    element of [rest]. *)
Fixpoint reduceLoop (rest reduced : list Rewrite) : result (list Rewrite) :=
  match rest with
  | [] => Ok reduced
  | current :: rest1 =>
      if (r_dimension current =? 1) && r_identity current then reduceLoop rest1 reduced
      else
        match rest1 with
        | [] => Ok (reduced ++ [current])
        | next :: rest2 =>
            do inverses <- areInverses current next;
            if inverses then reduceLoop rest2 reduced
            else
              do composable <- areComposable current next;
              if composable then
                do composed <- composeForReduction current next;
                reduceLoop rest2 (reduced ++ [composed])
              else reduceLoop rest1 (reduced ++ [current])
        end
  end.

Definition reduceTerms (terms : list Rewrite) : result (list Rewrite) :=
  match terms with
  | [] => Ok []
  | [term] => do r <- normalizeRewrite term; Ok [r]
  | _ =>
      do normalized <- mapR normalizeRewrite terms;
      reduceLoop normalized []
  end.

Fixpoint performBetaReduction (rewrite : Rewrite) : result Rewrite :=
  if negb (isValidRewrite rewrite)
  then Throw (Error "Cannot perform beta reduction on invalid rewrite")
  else
    match rewrite with
    | Rewrite0 _ _ => Ok rewrite
    | RewriteI => Ok rewrite
    | RewriteN dimension cones =>
        if dimension =? 0 then Ok rewrite
        else if dimension >? 1 then
          do reducedCones <- mapR betaCone cones;
          Ok (RewriteN dimension reducedCones)
        else Ok rewrite
    end
with betaCone (cone : Cone) : result Cone :=
  match cone with
  | mkCone index source target slices =>
      do source' <- mapR betaCospan source;
      do target' <- betaCospan target;
      do slices' <- mapR performBetaReduction slices;
      Ok (mkCone index source' target' slices')
  end
with betaCospan (cospan : Cospan) : result Cospan :=
  match cospan with
  | mkCospan forward backward =>
      do forward' <- performBetaReduction forward;
      do backward' <- performBetaReduction backward;
      Ok (mkCospan forward' backward')
  end.

Definition rewritesEqual (rewrite1 rewrite2 : Rewrite) : result bool :=
  if negb (r_dimension rewrite1 =? r_dimension rewrite2) then Ok false
  else if (r_dimension rewrite1 =? 0) && (r_dimension rewrite2 =? 0) then
    do s1 <- r_source_id rewrite1;
    do s2 <- r_source_id rewrite2;
    if bool_decide (s1 = s2) then
      do t1 <- r_target_id rewrite1;
      do t2 <- r_target_id rewrite2;
      Ok (bool_decide (t1 = t2))
    else Ok false
  else if (r_dimension rewrite1 =? 1) && (r_dimension rewrite2 =? 1) then
    (* 'identity' in both, and the two flags agree: both are [true] *)
    Ok (r_identity rewrite1 && r_identity rewrite2)
  else Ok false.

Definition isRewriteInNormalForm (rewrite : Rewrite) : result bool :=
  if negb (isValidRewrite rewrite) then Ok false
  else
    do reduced <- performBetaReduction rewrite;
    do equal <- rewritesEqual rewrite reduced;
    if negb equal then Ok false else Ok true.

(** The scan of [hasReduciblePatterns] over adjacent pairs of cospans. *)
Fixpoint adjacentRedundant (cospans : list Cospan) : bool :=
  match cospans with
  | current :: ((next :: _) as rest) =>
      if isValidCospan current && isValidCospan next &&
         (isRedundantCospan current || isRedundantCospan next)
      then true
      else adjacentRedundant rest
  | _ => false
  end.

Definition hasReduciblePatterns (diagram : Diagram) : bool :=
  match diagram with
  | Diagram0 _ => false
  | DiagramN dimension _ cospans =>
      if dimension =? 0 then false else adjacentRedundant cospans
  end.

(** The loop of [isNormalForm] over the cospans; [false] is its early
    [return false]. *)
Fixpoint legsInNormalForm (cospans : list Cospan) : result bool :=
  match cospans with
  | [] => Ok true
  | cospan :: rest =>
      if isValidCospan cospan then
        do fwd <- isRewriteInNormalForm (forward cospan);
        if negb fwd then Ok false
        else
          do bwd <- isRewriteInNormalForm (backward cospan);
          if negb bwd then Ok false else legsInNormalForm rest
      else legsInNormalForm rest
  end.

Fixpoint isNormalForm (diagram : Diagram) : result bool :=
  if negb (isValidDiagram diagram) then Ok false
  else
    match diagram with
    | Diagram0 _ => Ok true
    | DiagramN dimension source cospans =>
        if dimension =? 0 then Ok true
        else
          do sourceNormal <- isNormalForm source;
          if negb sourceNormal then Ok false
          else
            do legs <- legsInNormalForm cospans;
            if negb legs then Ok false
            else if hasReduciblePatterns diagram then Ok false
            else Ok true
    end.

Definition performEtaExpansion (rewrite : Rewrite) : result Rewrite :=
  if negb (isValidRewrite rewrite)
  then Throw (Error "Cannot perform eta expansion on invalid rewrite")
  else if r_dimension rewrite =? 0 then Ok rewrite
  else if (r_dimension rewrite =? 1) && r_identity rewrite then Ok rewrite
  else Ok rewrite.

End Normalization.

(** ** types/npr.ts *)

Inductive Severity : Type := sev_error | sev_warning | sev_info.

#[global] Instance Severity_eq_dec : EqDecision Severity.
Proof. solve_decision. Defined.

Record NPRValidationError : Type := mkValidationError {
  code : string;
  message : string;
  severity : Severity;
  location : option string
}.

#[global] Instance NPRValidationError_eq_dec : EqDecision NPRValidationError.
Proof. solve_decision. Defined.

Inductive Category : Type := cat_structural | cat_cartesian | cat_cocartesian.

#[global] Instance Category_eq_dec : EqDecision Category.
Proof. solve_decision. Defined.

(** A validator is arbitrary client code: it returns its findings or throws. *)
Record NPRAxiom : Type := mkAxiom {
  a_id : string;
  a_name : string;
  a_description : string;
  a_category : Category;
  a_validator : Diagram -> result (list NPRValidationError)
}.

(** [diagram.generator]: only a [Diagram0] has the field. *)
Definition d_generator (d : Diagram) (prop : string) : result Generator :=
  match d with
  | Diagram0 g => Ok g
  | DiagramN _ _ _ => Throw (undefinedRead prop)
  end.

Definition validateDiagramComposition (left right : Diagram)
  : result (list NPRValidationError) :=
  let errors := [] in
  let errors :=
    if negb (isValidDiagram left)
    then errors ++ [mkValidationError "INVALID_LEFT_DIAGRAM"
                      "Left diagram is structurally invalid" sev_error None]
    else errors in
  let errors :=
    if negb (isValidDiagram right)
    then errors ++ [mkValidationError "INVALID_RIGHT_DIAGRAM"
                      "Right diagram is structurally invalid" sev_error None]
    else errors in
  if (d_dimension left =? 0) && (d_dimension right =? 0) then
    do leftGen <- d_generator left "color";
    do rightGen <- d_generator right "color";
    Ok errors
  else Ok errors.

(** ** engine/composition.ts *)

Module Composition.

Inductive CompositionType : Type := horizontal | vertical | whiskering | invalid.

Definition isEmptyDiagram (diagram : Diagram) : result bool :=
  if d_dimension diagram =? 0 then
    do g <- d_generator diagram "id";
    Ok (bool_decide (g_id g = "empty"))
  else Ok false.

Definition areVerticallyComposable (left right : Diagram) : bool :=
  if (d_dimension left =? 0) && (d_dimension right =? 0) then false
  else if negb (d_dimension left =? d_dimension right) then false
  else true.

Definition getCompositionType (left right : Diagram) : CompositionType :=
  if negb (isValidDiagram left) || negb (isValidDiagram right) then invalid
  else if d_dimension left =? d_dimension right then
    if d_dimension left =? 0 then horizontal
    else if areVerticallyComposable left right then vertical else horizontal
  else if Z.abs (d_dimension left - d_dimension right) =? 1 then whiskering
  else if Z.abs (d_dimension left - d_dimension right) >? 2 then invalid
  else horizontal.

Definition isComposable (left right : Diagram) : result bool :=
  if negb (isValidDiagram left) || negb (isValidDiagram right) then Ok false
  else
    do leftEmpty <- isEmptyDiagram left;
    if leftEmpty then Ok true
    else
      do rightEmpty <- isEmptyDiagram right;
      if rightEmpty then Ok true
      else if d_dimension left =? d_dimension right then Ok true
      else if Z.abs (d_dimension left - d_dimension right) <=? 2 then Ok true
      else Ok false.

(** A [DiagramN] whose dimension is 0 has neither the [generator] this code
    reads nor a finished shape: JavaScript would go on with [undefined]
    generators, which no [Rewrite] holds, so the embedding stops there.
    [composeDiagrams] validates first and never reaches that case. *)
Fixpoint composeHorizontally (left right : Diagram) : result Diagram :=
  if (d_dimension left =? 0) && (d_dimension right =? 0) then
    do gl <- d_generator left "generator";
    do gr <- d_generator right "generator";
    Ok (DiagramN 1 left
          [mkCospan (createGeneratorRewrite gl gr) (createGeneratorRewrite gr gl)])
  else
    match left, right with
    | DiagramN dl sl cl, DiagramN dr sr cr =>
        if (dl >? 0) && (dr >? 0) then
          do composedSource <- composeHorizontally sl sr;
          Ok (DiagramN (Z.max dl dr) composedSource (cl ++ cr))
        else Ok (if dl >? dr then left else right)
    | _, _ =>
        Ok (if d_dimension left >? d_dimension right then left else right)
    end.

Definition mergeVerticalCospans (leftCospans rightCospans : list Cospan) : list Cospan :=
  leftCospans ++ rightCospans.

Definition composeVertically (left right : Diagram) : result Diagram :=
  if (d_dimension left =? 0) || (d_dimension right =? 0)
  then Throw (Error "Cannot vertically compose 0-dimensional diagrams")
  else
    match left, right with
    | DiagramN dl sl cl, DiagramN _ _ cr =>
        Ok (DiagramN dl sl (mergeVerticalCospans cl cr))
    | _, _ => Throw (undefinedRead "cospans")
    end.

Definition composeByWhiskering (left right : Diagram) : result Diagram :=
  let higherDim := if d_dimension left >? d_dimension right then left else right in
  match higherDim with
  | DiagramN d s c => Ok (DiagramN d s c)
  | Diagram0 _ => Throw (undefinedRead "source")
  end.

Definition composeDiagrams (left right : Diagram) : result Diagram :=
  if negb (isValidDiagram left) || negb (isValidDiagram right)
  then Throw (Error "Cannot compose invalid diagram structures")
  else
    do compositionErrors <- validateDiagramComposition left right;
    do leftEmpty <- isEmptyDiagram left;
    if leftEmpty then Ok right
    else
      do rightEmpty <- isEmptyDiagram right;
      if rightEmpty then Ok left
      else
        match getCompositionType left right with
        | horizontal => composeHorizontally left right
        | vertical => composeVertically left right
        | whiskering => composeByWhiskering left right
        | invalid => Throw (Error "Diagrams cannot be composed: incompatible structures")
        end.

Definition composeRewrites (left right : Rewrite) : result Rewrite :=
  if negb (isValidRewrite left) || negb (isValidRewrite right)
  then Throw (Error "Cannot compose invalid rewrites")
  else if (r_dimension left =? 1) && r_identity left then Ok right
  else if (r_dimension right =? 1) && r_identity right then Ok left
  else if (r_dimension left =? 0) && (r_dimension right =? 0) then
    do leftTarget <- r_target_id left;
    do rightSource <- r_source_id right;
    if negb (bool_decide (leftTarget = rightSource))
    then Throw (Error "Generator rewrites are not composable: target/source mismatch")
    else
      match left, right with
      | Rewrite0 leftSource _, Rewrite0 _ rightTarget =>
          Ok (createGeneratorRewrite leftSource rightTarget)
      | _, _ => Throw (undefinedRead "id")
      end
  else if (r_dimension left =? 0) && (r_dimension right >? 0) then Ok right
  else if (r_dimension left >? 0) && (r_dimension right =? 0) then Ok left
  else if (r_dimension left >? 1) && (r_dimension right >? 1) then Ok left
  else Ok left.

(** The left fold of [composeSequentially]. *)
Fixpoint composeFrom (result0 : Rewrite) (rest : list Rewrite) : result Rewrite :=
  match rest with
  | [] => Ok result0
  | next :: rest' =>
      do composed <- composeRewrites result0 next;
      composeFrom composed rest'
  end.

Definition composeSequentially (rewrites : list Rewrite) : result Rewrite :=
  match rewrites with
  | [] => Ok createIdentityRewrite
  | [rewrite] => Ok rewrite
  | first :: rest => composeFrom first rest
  end.

End Composition.

(** ** engine/contraction.ts *)

Module Contraction.

Definition MAX_DEPTH : Z := 100.

(** As in [Normalization.checkCycles], [visited.has(d)] cannot fire on a
    tree; both failures share one message here. *)
Fixpoint checkCycles (d : Diagram) (depth : Z) : result unit :=
  if depth >? MAX_DEPTH
  then Throw (Error "Cyclic reference detected in diagram")
  else
    match d with
    | Diagram0 _ => Ok tt
    | DiagramN dimension source _ =>
        if dimension >? 0 then checkCycles source (depth + 1) else Ok tt
    end.

Fixpoint contractRewrite (rewrite : Rewrite) : result Rewrite :=
  if negb (isValidRewrite rewrite)
  then Throw (Error "Invalid rewrite structure")
  else
    match rewrite with
    | Rewrite0 _ _ => Ok rewrite
    | RewriteI => Ok rewrite
    | RewriteN dimension cones =>
        if (dimension =? 0) || (dimension =? 1) then Ok rewrite
        else
          do contractedCones <- mapR contractCone cones;
          Ok (RewriteN dimension contractedCones)
    end
with contractCone (cone : Cone) : result Cone :=
  match cone with
  | mkCone index source target slices =>
      do contractedSource <- mapR contractCospan source;
      do contractedTarget <- contractCospan target;
      do contractedSlices <- mapR contractRewrite slices;
      Ok (mkCone index contractedSource contractedTarget contractedSlices)
  end
with contractCospan (cospan : Cospan) : result Cospan :=
  if negb (isValidCospan cospan)
  then Throw (Error "Invalid cospan structure")
  else
    match cospan with
    | mkCospan forward backward =>
        if (r_dimension forward =? 1) && (r_dimension backward =? 1) then Ok cospan
        else if (r_dimension forward =? 0) && (r_dimension backward =? 0) then Ok cospan
        else
          do forward' <- contractRewrite forward;
          do backward' <- contractRewrite backward;
          Ok (mkCospan forward' backward')
    end.

Fixpoint contractDiagram (diagram : Diagram) : result Diagram :=
  if negb (isValidDiagram diagram)
  then Throw (Error "Invalid diagram structure")
  else
    do _ <- checkCycles diagram 0;
    match diagram with
    | Diagram0 _ => Ok diagram
    | DiagramN dimension source cospans =>
        if dimension =? 0 then Ok diagram
        else
          do contractedSource <- contractDiagram source;
          do contractedCospans <-
            mapR (fun cospan =>
                    if isValidCospan cospan then contractCospan cospan
                    else Ok cospan) cospans;
          Ok (DiagramN dimension contractedSource contractedCospans)
    end.

(** The file's own [composeRewrites], the helper of the colimit computation
    (composition.ts exports another function of that name): it validates
    nothing and never throws. *)
Definition composeRewrites (left right : Rewrite) : Rewrite :=
  if (r_dimension left =? 1) && r_identity left then right
  else if (r_dimension right =? 1) && r_identity right then left
  else if (r_dimension left =? 0) && (r_dimension right =? 0) then left
  else left.

Definition performColimitContraction (parts : list Rewrite) : Rewrite :=
  match parts with
  | [] => createIdentityRewrite
  | [part] => part
  | first :: rest => fold_left composeRewrites rest first
  end.

(** The loop of [areContractible] over adjacent elements. *)
Fixpoint sameDimensionThroughout (rewrites : list Rewrite) : bool :=
  match rewrites with
  | current :: ((next :: _) as rest) =>
      if negb (r_dimension current =? r_dimension next) then false
      else sameDimensionThroughout rest
  | _ => true
  end.

Definition areContractible (rewrites : list Rewrite) : bool :=
  if Z.of_nat (length rewrites) <? 2 then false
  else sameDimensionThroughout rewrites.

(** [cospanRewrites]: forward and backward of every well-formed cospan. *)
Fixpoint cospanLegs (cospans : list Cospan) : list Rewrite :=
  match cospans with
  | [] => []
  | cospan :: rest =>
      if isValidCospan cospan
      then forward cospan :: backward cospan :: cospanLegs rest
      else cospanLegs rest
  end.

(** The loop over [i] with [sequence = cospanRewrites.slice(i, i + 2)]. *)
Fixpoint contractibleWindows (rewrites : list Rewrite) : list (list Rewrite) :=
  match rewrites with
  | current :: ((next :: _) as rest) =>
      let sequence := [current; next] in
      if areContractible sequence then sequence :: contractibleWindows rest
      else contractibleWindows rest
  | _ => []
  end.

Fixpoint findContractibleParts (diagram : Diagram) : list (list Rewrite) :=
  if negb (isValidDiagram diagram) then []
  else
    match diagram with
    | Diagram0 _ => []
    | DiagramN dimension source cospans =>
        if dimension =? 0 then []
        else
          let sourceParts := findContractibleParts source in
          let cospanRewrites := cospanLegs cospans in
          if Z.of_nat (length cospanRewrites) >=? 2
          then sourceParts ++ contractibleWindows cospanRewrites
          else sourceParts
    end.

End Contraction.

(** ** The built-in [Map]

    A JavaScript [Map] iterates in insertion order and [set] on a present key
    replaces the value in place, so it is an association list with unique
    keys rather than an unordered finite map. *)

Module JsMap.
Section JsMap.
Context {V : Type}.

Definition t : Type := list (string * V).

Definition empty : t := [].

Fixpoint get (m : t) (k : string) : option V :=
  match m with
  | [] => None
  | (k', v) :: m' => if bool_decide (k' = k) then Some v else get m' k
  end.

Definition has (m : t) (k : string) : bool :=
  match get m k with Some _ => true | None => false end.

Fixpoint set (m : t) (k : string) (v : V) : t :=
  match m with
  | [] => [(k, v)]
  | (k', v') :: m' =>
      if bool_decide (k' = k) then (k', v) :: m' else (k', v') :: set m' k v
  end.

(** [delete] reports whether the key was present. *)
Fixpoint delete (m : t) (k : string) : t * bool :=
  match m with
  | [] => ([], false)
  | (k', v) :: m' =>
      if bool_decide (k' = k) then (m', true)
      else let '(rest, found) := delete m' k in ((k', v) :: rest, found)
  end.

Definition keys (m : t) : list string := map fst m.
Definition values (m : t) : list V := map snd m.
End JsMap.
Arguments t V : clear implicits.
End JsMap.

(** ** axioms/validation.ts *)

Module Validation.

(** [class AxiomRegistry]: the private [axioms] map. *)
Definition AxiomRegistry : Type := JsMap.t NPRAxiom.

Definition newRegistry : AxiomRegistry := JsMap.empty.

Definition register (registry : AxiomRegistry) (axiom : NPRAxiom) : result AxiomRegistry :=
  if JsMap.has registry (a_id axiom)
  then Throw (Error ("Axiom " +:+ a_id axiom +:+ " is already registered"))
  else Ok (JsMap.set registry (a_id axiom) axiom).

Definition getAxiom (registry : AxiomRegistry) (id : string) : option NPRAxiom :=
  JsMap.get registry id.

Definition getAllAxioms (registry : AxiomRegistry) : list NPRAxiom :=
  JsMap.values registry.

Definition getAxiomsByCategory (registry : AxiomRegistry) (category : Category)
  : list NPRAxiom :=
  List.filter (fun axiom => bool_decide (a_category axiom = category))
              (getAllAxioms registry).

(** [class ValidationReport] *)
Record ValidationReport : Type := mkReport {
  diagram : Diagram;
  axiomResults : JsMap.t (list NPRValidationError * list NPRValidationError)
}.

Definition newReport (d : Diagram) : ValidationReport := mkReport d JsMap.empty.

Definition addAxiomResult (report : ValidationReport) (axiomId : string)
           (errors warnings : list NPRValidationError) : ValidationReport :=
  mkReport (diagram report) (JsMap.set (axiomResults report) axiomId (errors, warnings)).

Definition getAxiomResult (report : ValidationReport) (axiomId : string)
  : option (list NPRValidationError * list NPRValidationError) :=
  JsMap.get (axiomResults report) axiomId.

Definition getValidatedAxioms (report : ValidationReport) : list string :=
  JsMap.keys (axiomResults report).

Definition getAllErrors (report : ValidationReport) : list NPRValidationError :=
  concat (map fst (JsMap.values (axiomResults report))).

Definition getAllWarnings (report : ValidationReport) : list NPRValidationError :=
  concat (map snd (JsMap.values (axiomResults report))).

Definition isValid (report : ValidationReport) : bool :=
  (Z.of_nat (length (getAllErrors report)) =? 0).

(** The body of the loop over the registered axioms: the [try] around the
    validator call and the split of its findings by severity. *)
Definition runAxiom (d : Diagram) (axiom : NPRAxiom)
  : list NPRValidationError * list NPRValidationError :=
  match a_validator axiom d with
  | Ok validationResults =>
      (List.filter (fun r => bool_decide (severity r = sev_error)) validationResults,
       List.filter (fun r => bool_decide (severity r = sev_warning)) validationResults)
  | Throw e =>
      ([mkValidationError "AXIOM_VALIDATION_ERROR"
          ("Error validating axiom " +:+ a_id axiom +:+ ": " +:+ messageOf e)
          sev_error None],
       [])
  end.

Fixpoint validateEach (d : Diagram) (axioms : list NPRAxiom) (report : ValidationReport)
  : ValidationReport :=
  match axioms with
  | [] => report
  | axiom :: rest =>
      let '(errors, warnings) := runAxiom d axiom in
      validateEach d rest (addAxiomResult report (a_id axiom) errors warnings)
  end.

Definition validateAllAxioms (d : Diagram) (registry : AxiomRegistry) : ValidationReport :=
  let report := newReport d in
  if negb (isValidDiagram d) then
    addAxiomResult report "basic-structure"
      [mkValidationError "INVALID_DIAGRAM_STRUCTURE"
         "Diagram does not follow valid zigzag structure" sev_error None]
      []
  else validateEach d (getAllAxioms registry) report.

Definition optimizeValidationOrder (axioms : list NPRAxiom) (d : Diagram)
  : result (list NPRAxiom) :=
  let structural := List.filter (fun a => bool_decide (a_category a = cat_structural)) axioms in
  let cartesianAxioms := List.filter (fun a => bool_decide (a_category a = cat_cartesian)) axioms in
  let cocartesianAxioms := List.filter (fun a => bool_decide (a_category a = cat_cocartesian)) axioms in
  do categories <-
    (if d_dimension d =? 0 then
       do g <- d_generator d "color";
       match g_color g with
       | Some cartesian => Ok (cartesianAxioms, cocartesianAxioms)
       | Some cocartesian => Ok (cocartesianAxioms, cartesianAxioms)
       | None => Ok (cartesianAxioms, cocartesianAxioms)
       end
     else Ok (cartesianAxioms, cocartesianAxioms));
  let '(primaryCategory, secondaryCategory) := categories in
  Ok (structural ++ primaryCategory ++ secondaryCategory).

(** [isCartesianDiagram] and [isCocartesianDiagram] of [axioms/cartesian.ts] and
    [axioms/cocartesian.ts]: the polarity of the dimension-0 root. *)
Fixpoint isCartesianDiagram (d : Diagram) : bool :=
  if negb (isValidDiagram d) then false
  else
    match d with
    | Diagram0 g => bool_decide (g_color g = Some cartesian)
    | DiagramN _ source _ => isCartesianDiagram source
    end.

Fixpoint isCocartesianDiagram (d : Diagram) : bool :=
  if negb (isValidDiagram d) then false
  else
    match d with
    | Diagram0 g => bool_decide (g_color g = Some cocartesian)
    | DiagramN _ source _ => isCocartesianDiagram source
    end.

Definition hasAxiom (registry : AxiomRegistry) (id : string) : bool :=
  JsMap.has registry id.

Definition unregister (registry : AxiomRegistry) (id : string) : AxiomRegistry * bool :=
  JsMap.delete registry id.

Record CompatibilityResult : Type := mkCompatibility {
  isCompatible : bool;
  conflicts : list NPRValidationError
}.

(** The first loop of [validateAxiomCompatibility]; [ids] is its [Set]. *)
Fixpoint duplicateIdConflicts (axioms : list NPRAxiom) (ids : gset string)
  : list NPRValidationError :=
  match axioms with
  | [] => []
  | axiom :: rest =>
      (if bool_decide (a_id axiom ∈ ids)
       then [mkValidationError "DUPLICATE_AXIOM_ID"
               ("Duplicate axiom ID: " +:+ a_id axiom) sev_error None]
       else []) ++
      duplicateIdConflicts rest (ids ∪ {[a_id axiom]})
  end.

Definition validateAxiomCompatibility (axioms : list NPRAxiom) (d : Diagram)
  : result CompatibilityResult :=
  let conflicts := duplicateIdConflicts axioms ∅ in
  let categories := map a_category axioms in
  let hasCartesian := bool_decide (cat_cartesian ∈ categories) in
  let hasCocartesian := bool_decide (cat_cocartesian ∈ categories) in
  do conflicts <-
    (if hasCartesian && hasCocartesian && (d_dimension d =? 0) then
       do gen <- d_generator d "color";
       match g_color gen with
       | Some cartesian =>
           let cocartesianAxioms :=
             List.filter (fun a => bool_decide (a_category a = cat_cocartesian)) axioms in
           if Z.of_nat (length cocartesianAxioms) >? 0
           then Ok (conflicts ++
                    [mkValidationError "CATEGORY_MISMATCH"
                       "Applying cocartesian axioms to cartesian structure"
                       sev_warning None])
           else Ok conflicts
       | Some cocartesian =>
           let cartesianAxioms :=
             List.filter (fun a => bool_decide (a_category a = cat_cartesian)) axioms in
           if Z.of_nat (length cartesianAxioms) >? 0
           then Ok (conflicts ++
                    [mkValidationError "CATEGORY_MISMATCH"
                       "Applying cartesian axioms to cocartesian structure"
                       sev_warning None])
           else Ok conflicts
       | None => Ok conflicts
       end
     else Ok conflicts);
  Ok (mkCompatibility
        (Z.of_nat (length (List.filter
                             (fun c => bool_decide (severity c = sev_error)) conflicts)) =? 0)
        conflicts).

Definition createAxiomValidator (axiom : NPRAxiom) (d : Diagram)
  : list NPRValidationError :=
  match a_validator axiom d with
  | Ok findings => findings
  | Throw e =>
      [mkValidationError "VALIDATOR_ERROR"
         ("Error in axiom " +:+ a_id axiom +:+ ": " +:+ messageOf e) sev_error None]
  end.

Definition isAxiomSetComplete (axioms : list NPRAxiom) : bool :=
  (* [categories] is a [Set] asked one membership question *)
  let categories := map a_category axioms in
  if negb (bool_decide (cat_structural ∈ categories)) then false
  else
    let axiomIds : gset string := list_to_set (map a_id axioms) in
    forallb (fun id => bool_decide (id ∈ axiomIds))
            ["npr-associativity"; "npr-unit"; "npr-inverse"; "npr-symmetry"].

End Validation.

(** ** Auxiliary definitions for the statements *)

(** Number of [.source] steps from a diagram down to its dimension-0 root. *)
Fixpoint sourceDepth (d : Diagram) : Z :=
  match d with
  | Diagram0 _ => 0
  | DiagramN _ source _ => 1 + sourceDepth source
  end.

(** A tower of [n] levels over [base]; level [k] has dimension [k]. *)
Fixpoint tower (n : nat) (base : Diagram) : Diagram :=
  match n with
  | O => base
  | S n' => DiagramN (Z.of_nat n) (tower n' base) []
  end.

(** A rewrite of dimension 0 or the identity: a leg without cones. *)
Definition coneFree (r : Rewrite) : bool :=
  match r with
  | Rewrite0 _ _ | RewriteI => true
  | RewriteN _ _ => false
  end.

(** Every well-formed cospan, at every level of the diagram, has cone-free
    legs. *)
Fixpoint coneFreeLegs (d : Diagram) : bool :=
  match d with
  | Diagram0 _ => true
  | DiagramN _ source cospans =>
      coneFreeLegs source &&
      forallb (fun c => implb (isValidCospan c)
                          (coneFree (forward c) && coneFree (backward c))) cospans
  end.

(** What [normalizeDiagram] computes on the inputs it accepts: at every level
    the ill-formed and the identity/identity cospans are dropped. *)
Fixpoint pruned (d : Diagram) : Diagram :=
  match d with
  | Diagram0 _ => d
  | DiagramN n source cospans =>
      DiagramN n (pruned source) (Normalization.reduceRedundantCospans cospans)
  end.

(** ** Sample values *)

Definition genA : Generator := mkGenerator "a" (Some "A") None.
Definition genB : Generator := mkGenerator "b" (Some "B") None.

(** A 2-dimensional diagram with a surgery pair, two no-op cospans and an
    ill-formed entry (a dimension-1 rewrite that is not the identity). *)
Definition sampleDiagram : Diagram :=
  DiagramN 2
    (DiagramN 1 (Diagram0 genA)
       [mkCospan (Rewrite0 genA genB) (Rewrite0 genB genA);
        mkCospan RewriteI RewriteI])
    [mkCospan RewriteI RewriteI;
     mkCospan (RewriteN 1 []) RewriteI;
     mkCospan RewriteI (Rewrite0 genA genB)].

(** 101 levels over a generator: well-formed, one level past the guard. *)
Definition deepDiagram : Diagram := tower 101 (Diagram0 genA).

(** One cospan whose legs are well-formed 2-dimensional rewrites. *)
Definition coneLegDiagram : Diagram :=
  DiagramN 1 (Diagram0 genA) [mkCospan (RewriteN 2 []) (RewriteN 2 [])].

(** A 0-dimensional diagram with generator id ['empty'] and no label. *)
Definition bareEmptyDiagram : Diagram := Diagram0 (mkGenerator "empty" None None).

Definition genP : Generator := mkGenerator "P1" None None.
Definition genQ : Generator := mkGenerator "Q7" None (Some cartesian).
Definition genR : Generator := mkGenerator "R9" None None.
Definition genS : Generator := mkGenerator "S4" (Some "S") None.

(** Two well-formed rewrites above dimension 1, with different cones. *)
Definition sampleRewrite2 : Rewrite :=
  RewriteN 2 [mkCone 0 [mkCospan (Rewrite0 genA genB) RewriteI]
                (mkCospan RewriteI RewriteI) [Rewrite0 genB genA]].
Definition sampleRewrite3 : Rewrite :=
  RewriteN 3 [mkCone 1 [] (mkCospan sampleRewrite2 RewriteI) []].

(** A registry is only ever changed through [register], so every key is the
    id of the axiom stored under it and no key occurs twice. *)
Definition registryOk (registry : Validation.AxiomRegistry) : Prop :=
  NoDup (JsMap.keys registry) /\
  Forall (fun kv => fst kv = a_id (snd kv)) registry.

(** Registering a list of axioms in order, as [createDefaultRegistry] does. *)
Fixpoint registerAll (registry : Validation.AxiomRegistry) (axioms : list NPRAxiom)
  : result Validation.AxiomRegistry :=
  match axioms with
  | [] => Ok registry
  | axiom :: rest =>
      do registry' <- Validation.register registry axiom;
      registerAll registry' rest
  end.

(** The report entry that the validation loop writes for one axiom. *)
Definition entryOf (d : Diagram) (axiom : NPRAxiom)
  : string * (list NPRValidationError * list NPRValidationError) :=
  (a_id axiom, Validation.runAxiom d axiom).

Definition byCategory (category : Category) (axioms : list NPRAxiom) : list NPRAxiom :=
  List.filter (fun a => bool_decide (a_category a = category)) axioms.

Definition errorsOf (results : list NPRValidationError) : list NPRValidationError :=
  List.filter (fun r => bool_decide (severity r = sev_error)) results.

Definition warningsOf (results : list NPRValidationError) : list NPRValidationError :=
  List.filter (fun r => bool_decide (severity r = sev_warning)) results.

(** Sample axioms: one that reports a finding of each severity, one whose
    validator throws, and two that accept everything. *)
Definition noisyAxiom : NPRAxiom :=
  mkAxiom "noisy" "Noisy" "reports one finding of each severity" cat_structural
    (fun _ => Ok [mkValidationError "E1" "an error" sev_error None;
                  mkValidationError "W1" "a warning" sev_warning (Some "root");
                  mkValidationError "I1" "a note" sev_info None]).

Definition throwingAxiom : NPRAxiom :=
  mkAxiom "throwing" "Throwing" "its validator throws" cat_cartesian
    (fun _ => Throw (Error "boom")).

Definition cartesianSample : NPRAxiom :=
  mkAxiom "cart" "Cartesian" "accepts everything" cat_cartesian (fun _ => Ok []).

Definition cocartesianSample : NPRAxiom :=
  mkAxiom "cocart" "Cocartesian" "accepts everything" cat_cocartesian (fun _ => Ok []).

(** Two axioms that share the id ["dup"]: a cartesian one that reports an
    error and a structural one that accepts. *)
Definition dupCartesian : NPRAxiom :=
  mkAxiom "dup" "Duplicate (cartesian)" "reports an error" cat_cartesian
    (fun _ => Ok [mkValidationError "E2" "rejected" sev_error None]).

Definition dupStructural : NPRAxiom :=
  mkAxiom "dup" "Duplicate (structural)" "accepts everything" cat_structural
    (fun _ => Ok []).

Definition sampleRegistry : Validation.AxiomRegistry :=
  [("noisy", noisyAxiom); ("throwing", throwingAxiom); ("cocart", cocartesianSample)].

(** A 1-dimensional diagram over a cocartesian generator. *)
Definition cocartesianTower : Diagram :=
  DiagramN 1 (Diagram0 (mkGenerator "c" None (Some cocartesian))) [].

(** [needle] occurs in [haystack] as a contiguous substring. *)
Fixpoint mentions (needle haystack : string) : bool :=
  if String.prefix needle haystack then true
  else
    match haystack with
    | EmptyString => false
    | String _ rest => mentions needle rest
    end.

(** Induction over rewrites, cones and cospans together, with the induction
    hypothesis available for every element of the nested lists. *)
Section RewriteInduction.
Variables (P : Rewrite -> Prop) (Q : Cone -> Prop) (S : Cospan -> Prop).
Hypothesis case0 : forall s t, P (Rewrite0 s t).
Hypothesis caseI : P RewriteI.
Hypothesis caseN : forall n cones, Forall Q cones -> P (RewriteN n cones).
Hypothesis caseCone : forall i src tgt sl,
    Forall S src -> S tgt -> Forall P sl -> Q (mkCone i src tgt sl).
Hypothesis caseCospan : forall f b, P f -> P b -> S (mkCospan f b).

Fixpoint Rewrite_mut (r : Rewrite) : P r :=
  match r with
  | Rewrite0 s t => case0 s t
  | RewriteI => caseI
  | RewriteN n cones =>
      caseN n cones
        ((fix all (l : list Cone) : Forall Q l :=
            match l with
            | [] => List.Forall_nil Q
            | c :: l' => List.Forall_cons Q c l' (Cone_mut c) (all l')
            end) cones)
  end
with Cone_mut (c : Cone) : Q c :=
  match c with
  | mkCone i src tgt sl =>
      caseCone i src tgt sl
        ((fix all (l : list Cospan) : Forall S l :=
            match l with
            | [] => List.Forall_nil S
            | x :: l' => List.Forall_cons S x l' (Cospan_mut x) (all l')
            end) src)
        (Cospan_mut tgt)
        ((fix all (l : list Rewrite) : Forall P l :=
            match l with
            | [] => List.Forall_nil P
            | x :: l' => List.Forall_cons P x l' (Rewrite_mut x) (all l')
            end) sl)
  end
with Cospan_mut (c : Cospan) : S c :=
  match c with
  | mkCospan f b => caseCospan f b (Rewrite_mut f) (Rewrite_mut b)
  end.

Definition Rewrite_Cone_Cospan_ind
  : (forall r, P r) /\ (forall c, Q c) /\ (forall c, S c) :=
  conj Rewrite_mut (conj Cone_mut Cospan_mut).
End RewriteInduction.

(** ** The validators on an object heap

    [isValidDiagram(diagram: any)] and [isValidRewrite(rewrite: any)] accept any
    JavaScript value, among them objects that reach themselves through their
    own fields.  Here a value is a primitive or a reference into a heap of
    objects and arrays, and the validators are the same code read over that
    heap.  [fuel] bounds the depth of nested calls: [None] says that the
    bound was hit before the call returned. *)

Module Heap.

Inductive value : Type :=
| VUndefined
| VNull
| VBool (b : bool)
| VNumber (n : Z)
| VString (s : string)
| VRef (address : nat).

Inductive object : Type :=
| Obj (fields : gmap string value)
| Arr (elements : list value).

Abbreviation heap := (gmap nat object).

(** [!v || typeof v !== 'object'] *)
Definition notAnObject (v : value) : bool :=
  match v with
  | VRef _ => false
  | _ => true
  end.

(** [v.prop] for a [v] that passed the test above. *)
Definition get (h : heap) (v : value) (prop : string) : value :=
  match v with
  | VRef a =>
      match h !! a with
      | Some (Obj fields) => default VUndefined (fields !! prop)
      | _ => VUndefined
      end
  | _ => VUndefined
  end.

(** [Array.isArray(v)], with the elements when it holds. *)
Definition asArray (h : heap) (v : value) : option (list value) :=
  match v with
  | VRef a =>
      match h !! a with
      | Some (Arr elements) => Some elements
      | _ => None
      end
  | _ => None
  end.

(** [elements.every(callback)] *)
Definition every (callback : value -> option bool) : list value -> option bool :=
  fix go l :=
    match l with
    | [] => Some true
    | x :: l' =>
        match callback x with
        | None => None
        | Some false => Some false
        | Some true => go l'
        end
    end.

Definition isValidGenerator (h : heap) (generator : value) : bool :=
  if notAnObject generator then false
  else
    match get h generator "id" with
    | VString id =>
        if bool_decide (id = "") then false
        else
          match get h generator "label" with
          | VUndefined | VString _ =>
              match get h generator "color" with
              | VUndefined => true
              | VString color =>
                  if negb (bool_decide (color = "cartesian")) &&
                     negb (bool_decide (color = "cocartesian"))
                  then false else true
              | _ => false
              end
          | _ => false
          end
    | _ => false
    end.

Fixpoint isValidDiagram (fuel : nat) (h : heap) (diagram : value) : option bool :=
  match fuel with
  | O => None
  | S fuel' =>
      if notAnObject diagram then Some false
      else
        match get h diagram "dimension" with
        | VNumber dimension =>
            if dimension =? 0 then Some (isValidGenerator h (get h diagram "generator"))
            else if dimension <? 0 then Some false
            else
              match isValidDiagram fuel' h (get h diagram "source") with
              | None => None
              | Some false => Some false
              | Some true =>
                  match asArray h (get h diagram "cospans") with
                  | None => Some false
                  | Some _ => Some true
                  end
              end
        | _ => Some false
        end
  end.

Fixpoint isValidRewrite (fuel : nat) (h : heap) (rewrite : value) : option bool :=
  match fuel with
  | O => None
  | S fuel' =>
      if notAnObject rewrite then Some false
      else
        match get h rewrite "dimension" with
        | VNumber dimension =>
            if dimension =? 0 then
              Some (isValidGenerator h (get h rewrite "source") &&
                    isValidGenerator h (get h rewrite "target"))
            else if dimension =? 1 then
              Some (match get h rewrite "identity" with VBool true => true | _ => false end)
            else if dimension <? 0 then Some false
            else
              match asArray h (get h rewrite "cones") with
              | None => Some false
              | Some cones => every (isValidCone fuel' h) cones
              end
        | _ => Some false
        end
  end
with isValidCospan (fuel : nat) (h : heap) (cospan : value) : option bool :=
  match fuel with
  | O => None
  | S fuel' =>
      if notAnObject cospan then Some false
      else
        match isValidRewrite fuel' h (get h cospan "forward") with
        | None => None
        | Some false => Some false
        | Some true => isValidRewrite fuel' h (get h cospan "backward")
        end
  end
with isValidCone (fuel : nat) (h : heap) (cone : value) : option bool :=
  match fuel with
  | O => None
  | S fuel' =>
      if notAnObject cone then Some false
      else
        match get h cone "index" with
        | VNumber index =>
            if index <? 0 then Some false
            else
              match asArray h (get h cone "source") with
              | None => Some false
              | Some source =>
                  match isValidCospan fuel' h (get h cone "target") with
                  | None => None
                  | Some false => Some false
                  | Some true =>
                      match asArray h (get h cone "slices") with
                      | None => Some false
                      | Some slices =>
                          match every (isValidCospan fuel' h) source with
                          | None => None
                          | Some false => Some false
                          | Some true => every (isValidRewrite fuel' h) slices
                          end
                      end
                  end
              end
        | _ => Some false
        end
  end.

(** A call of one of the four validators on a value. *)
Inductive call : Type :=
| CDiagram (v : value)
| CRewrite (v : value)
| CCospan (v : value)
| CCone (v : value).

Definition run (fuel : nat) (h : heap) (c : call) : option bool :=
  match c with
  | CDiagram v => isValidDiagram fuel h v
  | CRewrite v => isValidRewrite fuel h v
  | CCospan v => isValidCospan fuel h v
  | CCone v => isValidCone fuel h v
  end.

(** The call returns [b]: some depth of nested calls is enough for it. *)
Definition returns (h : heap) (c : call) (b : bool) : Prop :=
  exists fuel, run fuel h c = Some b.

Definition diagramReturns (h : heap) (v : value) (b : bool) : Prop :=
  returns h (CDiagram v) b.

Definition rewriteReturns (h : heap) (v : value) (b : bool) : Prop :=
  returns h (CRewrite v) b.

(** [demands h c c']: the body of the call [c] reaches the nested call [c']
    and needs its answer before it can return.  One constructor per call
    site of the four validators, with the checks that the code passes on the
    way to it; [every] stops at the first [false], so an element of an array
    is reached when the elements before it were accepted. *)
Inductive demands (h : heap) : call -> call -> Prop :=
| demands_source v dimension :
    notAnObject v = false ->
    get h v "dimension" = VNumber dimension -> 0 < dimension ->
    demands h (CDiagram v) (CDiagram (get h v "source"))
| demands_cone v dimension before cone after :
    notAnObject v = false ->
    get h v "dimension" = VNumber dimension -> 1 < dimension ->
    asArray h (get h v "cones") = Some (before ++ cone :: after) ->
    Forall (fun c => returns h (CCone c) true) before ->
    demands h (CRewrite v) (CCone cone)
| demands_forward v :
    notAnObject v = false ->
    demands h (CCospan v) (CRewrite (get h v "forward"))
| demands_backward v :
    notAnObject v = false ->
    returns h (CRewrite (get h v "forward")) true ->
    demands h (CCospan v) (CRewrite (get h v "backward"))
| demands_target v index source :
    notAnObject v = false ->
    get h v "index" = VNumber index -> 0 <= index ->
    asArray h (get h v "source") = Some source ->
    demands h (CCone v) (CCospan (get h v "target"))
| demands_cone_source v index before cospan after slices :
    notAnObject v = false ->
    get h v "index" = VNumber index -> 0 <= index ->
    asArray h (get h v "source") = Some (before ++ cospan :: after) ->
    returns h (CCospan (get h v "target")) true ->
    asArray h (get h v "slices") = Some slices ->
    Forall (fun c => returns h (CCospan c) true) before ->
    demands h (CCone v) (CCospan cospan)
| demands_slice v index source before rewrite after :
    notAnObject v = false ->
    get h v "index" = VNumber index -> 0 <= index ->
    asArray h (get h v "source") = Some source ->
    returns h (CCospan (get h v "target")) true ->
    asArray h (get h v "slices") = Some (before ++ rewrite :: after) ->
    Forall (fun c => returns h (CCospan c) true) source ->
    Forall (fun r => returns h (CRewrite r) true) before ->
    demands h (CCone v) (CRewrite rewrite).

(** References held by an object. *)
Definition refsOf (o : object) : list nat :=
  let addresses := omap (fun v => match v with VRef a => Some a | _ => None end) in
  match o with
  | Obj fields => addresses (map snd (map_to_list fields))
  | Arr elements => addresses elements
  end.

(** A heap of trees: every reference stored in an object points to an object
    of strictly smaller rank, so no object reaches itself. *)
Definition acyclic (h : heap) (rank : nat -> nat) : Prop :=
  forall a o r, h !! a = Some o -> r ∈ refsOf o -> (rank r < rank a)%nat.

Definition rankOf (rank : nat -> nat) (v : value) : nat :=
  match v with
  | VRef a => S (rank a)
  | _ => O
  end.

(** [{dimension: 1, source: <itself>, cospans: []}] at address 0. *)
Definition selfSourced : heap :=
  {[ 0%nat := Obj {[ "dimension" := VNumber 1;
                     "source" := VRef 0;
                     "cospans" := VRef 1 ]};
     1%nat := Arr [] ]}.

(** A rewrite [{dimension: 2, cones: [cone]}] at address 0 whose only cone has
    the rewrite itself as its one slice. *)
Definition selfSliced : heap :=
  {[ 0%nat := Obj {[ "dimension" := VNumber 2; "cones" := VRef 1 ]};
     1%nat := Arr [VRef 2];
     2%nat := Obj {[ "index" := VNumber 0;
                     "source" := VRef 3;
                     "target" := VRef 4;
                     "slices" := VRef 6 ]};
     3%nat := Arr [];
     4%nat := Obj {[ "forward" := VRef 5; "backward" := VRef 5 ]};
     5%nat := Obj {[ "dimension" := VNumber 1; "identity" := VBool true ]};
     6%nat := Arr [VRef 0] ]}.

(** [{dimension: 0, generator: {id: 'a'}, source: <itself>}] at address 0. *)
Definition selfSourcedPoint : heap :=
  {[ 0%nat := Obj {[ "dimension" := VNumber 0;
                     "generator" := VRef 1;
                     "source" := VRef 0 ]};
     1%nat := Obj {[ "id" := VString "a" ]} ]}.

(** *** Trees stored in a heap

    [repDiagram h d v] says that the value [v] of the heap [h] is the object
    that TypeScript would build for the tree [d]: same fields, same
    numbers and strings, arrays element by element.  Absent fields read as
    [undefined]. *)

Definition colorName (c : Color) : string :=
  match c with
  | cartesian => "cartesian"
  | cocartesian => "cocartesian"
  end.

Definition repGenerator (h : heap) (g : Generator) (v : value) : Prop :=
  notAnObject v = false /\
  get h v "id" = VString (g_id g) /\
  get h v "label" = from_option VString VUndefined (g_label g) /\
  get h v "color" = from_option (fun c => VString (colorName c)) VUndefined (g_color g).

(** The elements of an array represent the elements of a list, one by one. *)
Definition repAll {A} (rep : A -> value -> Prop) : list A -> list value -> Prop :=
  fix go xs vs :=
    match xs with
    | [] => vs = []
    | x :: xs' =>
        match vs with
        | [] => False
        | v :: vs' => rep x v /\ go xs' vs'
        end
    end.

Fixpoint repRewrite (h : heap) (r : Rewrite) (v : value) : Prop :=
  notAnObject v = false /\
  match r with
  | Rewrite0 source target =>
      get h v "dimension" = VNumber 0 /\
      repGenerator h source (get h v "source") /\
      repGenerator h target (get h v "target")
  | RewriteI =>
      get h v "dimension" = VNumber 1 /\ get h v "identity" = VBool true
  | RewriteN dimension cones =>
      get h v "dimension" = VNumber dimension /\
      get h v "source" = VUndefined /\
      get h v "target" = VUndefined /\
      get h v "identity" = VUndefined /\
      exists elements,
        asArray h (get h v "cones") = Some elements /\
        repAll (repCone h) cones elements
  end
with repCone (h : heap) (c : Cone) (v : value) : Prop :=
  notAnObject v = false /\
  match c with
  | mkCone index source target slices =>
      get h v "index" = VNumber index /\
      (exists elements,
          asArray h (get h v "source") = Some elements /\
          repAll (repCospan h) source elements) /\
      repCospan h target (get h v "target") /\
      (exists elements,
          asArray h (get h v "slices") = Some elements /\
          repAll (repRewrite h) slices elements)
  end
with repCospan (h : heap) (c : Cospan) (v : value) : Prop :=
  notAnObject v = false /\
  match c with
  | mkCospan forward backward =>
      repRewrite h forward (get h v "forward") /\
      repRewrite h backward (get h v "backward")
  end.

Fixpoint repDiagram (h : heap) (d : Diagram) (v : value) : Prop :=
  notAnObject v = false /\
  match d with
  | Diagram0 generator =>
      get h v "dimension" = VNumber 0 /\
      repGenerator h generator (get h v "generator")
  | DiagramN dimension source cospans =>
      get h v "dimension" = VNumber dimension /\
      get h v "generator" = VUndefined /\
      repDiagram h source (get h v "source") /\
      exists elements,
        asArray h (get h v "cospans") = Some elements /\
        repAll (repCospan h) cospans elements
  end.

(** A heap of trees: the generator [{id: 'a'}], the diagram over it, and a
    1-dimensional diagram over that one with no cospans. *)
Definition treeHeap : heap :=
  {[ 0%nat := Obj {[ "id" := VString "a" ]};
     1%nat := Obj {[ "dimension" := VNumber 0; "generator" := VRef 0 ]};
     2%nat := Arr [];
     3%nat := Obj {[ "dimension" := VNumber 1;
                     "source" := VRef 1;
                     "cospans" := VRef 2 ]} ]}.

End Heap.

(** ** types/npr.ts, continued: the core axioms and the aspects report *)

Module Npr.

Record NPRValidationContext : Type := mkContext {
  ctx_axioms : list NPRAxiom;
  ctx_errors : list NPRValidationError;
  ctx_warnings : list NPRValidationError
}.

Record NPRAspectsResult : Type := mkAspects {
  ar_isValid : bool;
  ar_errors : list NPRValidationError;
  ar_warnings : list NPRValidationError;
  ar_context : NPRValidationContext
}.

(** [checkGenerator(gen, path)] of the generator-validity axiom; [None] is
    the [undefined] read from a diagram without a [generator] field. *)
Definition checkGenerator (gen : option Generator) (path : string)
  : list NPRValidationError :=
  if negb (from_option isValidGenerator false gen)
  then [mkValidationError "INVALID_GENERATOR" ("Invalid generator at " +:+ path)
          sev_error (Some path)]
  else [].

Fixpoint traverseDiagram (d : Diagram) (path : string) : list NPRValidationError :=
  match d with
  | Diagram0 g => checkGenerator (Some g) path
  | DiagramN dimension source _ =>
      if dimension =? 0 then checkGenerator None path
      else traverseDiagram source (path +:+ ".source")
  end.

Definition getNPRAxioms : list NPRAxiom :=
  [ mkAxiom "structural-validity" "Structural Validity"
      "Diagram must follow valid zigzag structure" cat_structural
      (fun diagram =>
         Ok (if negb (isValidDiagram diagram)
             then [mkValidationError "INVALID_STRUCTURE"
                     "Diagram does not follow valid zigzag structure" sev_error None]
             else []));
    mkAxiom "generator-validity" "Generator Validity"
      "All generators must be valid with proper colors" cat_structural
      (fun diagram => Ok (traverseDiagram diagram "root"));
    mkAxiom "cartesian-coherence" "Cartesian Coherence"
      "Cartesian structures must satisfy coherence conditions" cat_cartesian
      (fun _ => Ok []);
    mkAxiom "cocartesian-coherence" "Cocartesian Coherence"
      "Cocartesian structures must satisfy coherence conditions" cat_cocartesian
      (fun _ => Ok []) ].

Definition createNPRValidationContext : NPRValidationContext :=
  mkContext getNPRAxioms [] [].

(** The loop of [validateNPRAspects] over the axioms of the context. *)
Fixpoint collectFindings (axioms : list NPRAxiom) (d : Diagram)
         (allErrors allWarnings : list NPRValidationError)
  : result (list NPRValidationError * list NPRValidationError) :=
  match axioms with
  | [] => Ok (allErrors, allWarnings)
  | axiom :: rest =>
      do findings <- a_validator axiom d;
      collectFindings rest d
        (allErrors ++ List.filter (fun e => bool_decide (severity e = sev_error)) findings)
        (allWarnings ++ List.filter (fun e => bool_decide (severity e = sev_warning)) findings)
  end.

Definition validateNPRAspects (d : Diagram) : result NPRAspectsResult :=
  let context := createNPRValidationContext in
  do found <- collectFindings (ctx_axioms context) d [] [];
  let '(allErrors, allWarnings) := found in
  Ok (mkAspects (Z.of_nat (length allErrors) =? 0) allErrors allWarnings
        (mkContext (ctx_axioms context)
           (ctx_errors context ++ allErrors) (ctx_warnings context ++ allWarnings))).

Definition isNPRCompliant (d : Diagram) : result bool :=
  do aspects <- validateNPRAspects d;
  Ok (ar_isValid aspects).

End Npr.

(** [checkTypeConsistency] of engine/normalization.ts: the [try] turns an
    exception of the aspects report into [false]. *)
Definition checkTypeConsistency (d : Diagram) : bool :=
  if negb (isValidDiagram d) then false
  else
    match Npr.validateNPRAspects d with
    | Ok validation => Npr.ar_isValid validation
    | Throw _ => false
    end.

(** ** axioms/npr-rules.ts *)

Module NprRules.

Record NPRRuleApplicationResult : Type := mkApplication {
  ra_diagram : Diagram;
  ra_appliedRules : list string;
  ra_errors : list NPRValidationError
}.

Record NPRRuleValidationResult : Type := mkRuleValidation {
  rv_isValid : bool;
  rv_errors : list NPRValidationError
}.

Definition nprAssociativityAxiom : NPRAxiom :=
  mkAxiom "npr-associativity" "NPR Associativity"
    "Tensor composition must be associative" cat_structural
    (fun diagram =>
       let errors :=
         if negb (isValidDiagram diagram)
         then [mkValidationError "INVALID_STRUCTURE"
                 "Diagram structure is invalid for associativity check" sev_error None]
         else [] in
       if d_dimension diagram =? 0 then Ok errors else Ok errors).

Definition nprUnitAxiom : NPRAxiom :=
  mkAxiom "npr-unit" "NPR Unit" "Unit elements must satisfy unit laws" cat_structural
    (fun diagram =>
       Ok (if negb (isValidDiagram diagram)
           then [mkValidationError "INVALID_STRUCTURE"
                   "Diagram structure is invalid for unit check" sev_error None]
           else [])).

Definition nprInverseAxiom : NPRAxiom :=
  mkAxiom "npr-inverse" "NPR Inverse" "Morphisms must have dagger inverses" cat_structural
    (fun diagram =>
       if negb (isValidDiagram diagram)
       then Ok [mkValidationError "INVALID_STRUCTURE"
                  "Diagram structure is invalid for inverse check" sev_error None]
       else if d_dimension diagram =? 0 then
         do gen <- d_generator diagram "id";
         if bool_decide (g_id gen = "")
         then Ok [mkValidationError "INVALID_GENERATOR_ID"
                    "Generator must have valid ID for inverse operations" sev_error None]
         else Ok []
       else Ok []).

Definition nprSymmetryAxiom : NPRAxiom :=
  mkAxiom "npr-symmetry" "NPR Symmetry"
    "Tensor operations must be symmetric via braiding" cat_structural
    (fun diagram =>
       Ok (if negb (isValidDiagram diagram)
           then [mkValidationError "INVALID_STRUCTURE"
                   "Diagram structure is invalid for symmetry check" sev_error None]
           else [])).

Definition isNPRAxiomApplicable (axiom : NPRAxiom) (d : Diagram) : result bool :=
  if bool_decide (a_category axiom = cat_structural) then Ok (isValidDiagram d)
  else if d_dimension d =? 0 then
    do gen <- d_generator d "color";
    if bool_decide (a_category axiom = cat_cartesian)
    then Ok (bool_decide (g_color gen = Some cartesian) ||
             bool_decide (g_color gen = None))
    else if bool_decide (a_category axiom = cat_cocartesian)
    then Ok (bool_decide (g_color gen = Some cocartesian) ||
             bool_decide (g_color gen = None))
    else Ok true
  else Ok true.

(** The loop shared by [applyCoreNPRRules]: every applicable axiom is run,
    its errors are appended and its id is recorded when it found none. *)
Fixpoint applyRules (axioms : list NPRAxiom) (d : Diagram)
         (appliedRules : list string) (errors : list NPRValidationError)
  : result (list string * list NPRValidationError) :=
  match axioms with
  | [] => Ok (appliedRules, errors)
  | axiom :: rest =>
      do applicable <- isNPRAxiomApplicable axiom d;
      if applicable then
        do found <- a_validator axiom d;
        applyRules rest d
          (if Z.of_nat (length found) =? 0 then appliedRules ++ [a_id axiom]
           else appliedRules)
          (errors ++ found)
      else applyRules rest d appliedRules errors
  end.

Definition applyCoreNPRRules (d : Diagram) : result NPRRuleApplicationResult :=
  do outcome <-
    applyRules [nprAssociativityAxiom; nprUnitAxiom; nprInverseAxiom; nprSymmetryAxiom]
               d [] [];
  let '(appliedRules, errors) := outcome in
  Ok (mkApplication d appliedRules errors).

Definition validateNPRRuleApplication (axiom : NPRAxiom) (d : Diagram) (rewrite : Rewrite)
  : result NPRRuleValidationResult :=
  let errors := [] in
  let errors :=
    if negb (isValidDiagram d)
    then errors ++ [mkValidationError "INVALID_DIAGRAM" "Source diagram is invalid"
                      sev_error None]
    else errors in
  let errors :=
    if negb (isValidRewrite rewrite)
    then errors ++ [mkValidationError "INVALID_REWRITE"
                      "Rewrite transformation is invalid" sev_error None]
    else errors in
  do applicable <- isNPRAxiomApplicable axiom d;
  let errors :=
    if negb applicable
    then errors ++ [mkValidationError "AXIOM_NOT_APPLICABLE"
                      ("Axiom " +:+ a_id axiom +:+ " is not applicable to this diagram")
                      sev_error None]
    else errors in
  Ok (mkRuleValidation (Z.of_nat (length errors) =? 0) errors).

End NprRules.

(** ** axioms/cartesian.ts *)

Module Cartesian.

Record CartesianRuleResult : Type := mkRuleResult {
  rr_diagram : Diagram;
  rr_appliedRules : list string;
  rr_errors : list NPRValidationError
}.

Record CartesianValidationResult : Type := mkValidationResult {
  vr_isValid : bool;
  vr_errors : list NPRValidationError
}.

Record CartesianCoherenceResult : Type := mkCoherenceResult {
  isCoherent : bool;
  violations : list NPRValidationError
}.

Definition cartesianProductAxiom : NPRAxiom :=
  mkAxiom "cartesian-product" "Cartesian Product"
    "Cartesian products must exist with proper projections" cat_cartesian
    (fun diagram =>
       if negb (isValidDiagram diagram)
       then Ok [mkValidationError "INVALID_DIAGRAM_STRUCTURE"
                  "Diagram structure is invalid for cartesian product" sev_error None]
       else if d_dimension diagram =? 0 then
         do gen <- d_generator diagram "color";
         if bool_decide (g_color gen = Some cartesian) then
           if bool_decide (g_id gen = "")
           then Ok [mkValidationError "INVALID_CARTESIAN_ID"
                      "Cartesian generator must have valid ID" sev_error None]
           else Ok []
         else Ok []
       else Ok []).

Definition cartesianProjectionAxiom : NPRAxiom :=
  mkAxiom "cartesian-projection" "Cartesian Projection"
    "Projections from cartesian products must satisfy projection laws" cat_cartesian
    (fun diagram =>
       if negb (isValidDiagram diagram)
       then Ok [mkValidationError "INVALID_DIAGRAM_STRUCTURE"
                  "Diagram structure is invalid for projection validation" sev_error None]
       else Ok []).

Definition cartesianUniversalPropertyAxiom : NPRAxiom :=
  mkAxiom "cartesian-universal" "Cartesian Universal Property"
    "Cartesian products must satisfy universal property" cat_cartesian
    (fun diagram =>
       if negb (isValidDiagram diagram)
       then Ok [mkValidationError "INVALID_DIAGRAM_STRUCTURE"
                  "Diagram structure is invalid for universal property" sev_error None]
       else Ok []).

(** The loop of [applyCartesianRules] over its three axioms. *)
Fixpoint runRules (axioms : list NPRAxiom) (d : Diagram)
         (appliedRules : list string) (errors : list NPRValidationError)
  : result (list string * list NPRValidationError) :=
  match axioms with
  | [] => Ok (appliedRules, errors)
  | axiom :: rest =>
      do found <- a_validator axiom d;
      runRules rest d
        (if Z.of_nat (length found) =? 0 then appliedRules ++ [a_id axiom]
         else appliedRules)
        (errors ++ found)
  end.

Definition applyCartesianRules (d : Diagram) : result CartesianRuleResult :=
  if negb (Validation.isCartesianDiagram d) then Ok (mkRuleResult d [] [])
  else
    do outcome <-
      runRules [cartesianProductAxiom; cartesianProjectionAxiom;
                cartesianUniversalPropertyAxiom] d [] [];
    let '(appliedRules, errors) := outcome in
    Ok (mkRuleResult d appliedRules errors).

Definition validateCartesianStructure (d : Diagram) : result CartesianValidationResult :=
  if negb (isValidDiagram d)
  then Ok (mkValidationResult false
             [mkValidationError "INVALID_DIAGRAM" "Diagram structure is invalid"
                sev_error None])
  else if negb (Validation.isCartesianDiagram d) then Ok (mkValidationResult true [])
  else
    do ruleResult <- applyCartesianRules d;
    Ok (mkValidationResult (Z.of_nat (length (rr_errors ruleResult)) =? 0)
          (rr_errors ruleResult)).

(** [source.dimension === 0 ? source.generator : null]; a missing
    [generator] reads as [undefined], which the test [sourceGen && targetGen]
    treats as it treats [null]. *)
Definition generatorAtDimension0 (d : Diagram) : option Generator :=
  match d with
  | Diagram0 g => Some g
  | DiagramN _ _ _ => None
  end.

Definition cartesianCoherence (source target : Diagram) (rewrite : Rewrite)
  : result CartesianCoherenceResult :=
  if negb (isValidDiagram source) || negb (isValidDiagram target) ||
     negb (isValidRewrite rewrite)
  then Ok (mkCoherenceResult false
             [mkValidationError "INVALID_INPUTS" "Source, target, or rewrite is invalid"
                sev_error None])
  else
    let sourceIsCartesian := Validation.isCartesianDiagram source in
    let targetIsCartesian := Validation.isCartesianDiagram target in
    do violations <-
      (if sourceIsCartesian && targetIsCartesian then
         if r_dimension rewrite =? 0 then
           match generatorAtDimension0 source, generatorAtDimension0 target with
           | Some sourceGen, Some targetGen =>
               do rewriteSource <- r_source_id rewrite;
               do mismatch <-
                 (if negb (bool_decide (rewriteSource = g_id sourceGen)) then Ok true
                  else
                    do rewriteTarget <- r_target_id rewrite;
                    Ok (negb (bool_decide (rewriteTarget = g_id targetGen))));
               if mismatch
               then Ok [mkValidationError "REWRITE_MISMATCH"
                          "Rewrite does not match source and target generators"
                          sev_warning None]
               else Ok []
           | _, _ => Ok []
           end
         else Ok []
       else if sourceIsCartesian && negb targetIsCartesian then
         Ok [mkValidationError "STRUCTURE_LOSS"
               "Rewrite from cartesian to non-cartesian may lose structure"
               sev_warning None]
       else if negb sourceIsCartesian && targetIsCartesian then
         Ok [mkValidationError "STRUCTURE_CREATION"
               "Rewrite from non-cartesian to cartesian creates structure"
               sev_info None]
       else Ok []);
    Ok (mkCoherenceResult
          (Z.of_nat (length (List.filter
                               (fun v => bool_decide (severity v = sev_error))
                               violations)) =? 0)
          violations).

End Cartesian.

(** ** axioms/cocartesian.ts *)

Module Cocartesian.

Record CocartesianRuleResult : Type := mkRuleResult {
  rr_diagram : Diagram;
  rr_appliedRules : list string;
  rr_errors : list NPRValidationError
}.

Record CocartesianValidationResult : Type := mkValidationResult {
  vr_isValid : bool;
  vr_errors : list NPRValidationError
}.

Record CocartesianCoherenceResult : Type := mkCoherenceResult {
  isCoherent : bool;
  violations : list NPRValidationError
}.

Definition cocartesianCoproductAxiom : NPRAxiom :=
  mkAxiom "cocartesian-coproduct" "Cocartesian Coproduct"
    "Cocartesian coproducts must exist with proper injections" cat_cocartesian
    (fun diagram =>
       if negb (isValidDiagram diagram)
       then Ok [mkValidationError "INVALID_DIAGRAM_STRUCTURE"
                  "Diagram structure is invalid for cocartesian coproduct" sev_error None]
       else if d_dimension diagram =? 0 then
         do gen <- d_generator diagram "color";
         if bool_decide (g_color gen = Some cocartesian) then
           if bool_decide (g_id gen = "")
           then Ok [mkValidationError "INVALID_COCARTESIAN_ID"
                      "Cocartesian generator must have valid ID" sev_error None]
           else Ok []
         else Ok []
       else Ok []).

Definition cocartesianInjectionAxiom : NPRAxiom :=
  mkAxiom "cocartesian-injection" "Cocartesian Injection"
    "Injections into cocartesian coproducts must satisfy injection laws" cat_cocartesian
    (fun diagram =>
       if negb (isValidDiagram diagram)
       then Ok [mkValidationError "INVALID_DIAGRAM_STRUCTURE"
                  "Diagram structure is invalid for injection validation" sev_error None]
       else Ok []).

Definition cocartesianUniversalPropertyAxiom : NPRAxiom :=
  mkAxiom "cocartesian-universal" "Cocartesian Universal Property"
    "Cocartesian coproducts must satisfy universal property" cat_cocartesian
    (fun diagram =>
       if negb (isValidDiagram diagram)
       then Ok [mkValidationError "INVALID_DIAGRAM_STRUCTURE"
                  "Diagram structure is invalid for universal property" sev_error None]
       else Ok []).

(** The loop of [applyCocartesianRules] over its three axioms. *)
Fixpoint runRules (axioms : list NPRAxiom) (d : Diagram)
         (appliedRules : list string) (errors : list NPRValidationError)
  : result (list string * list NPRValidationError) :=
  match axioms with
  | [] => Ok (appliedRules, errors)
  | axiom :: rest =>
      do found <- a_validator axiom d;
      runRules rest d
        (if Z.of_nat (length found) =? 0 then appliedRules ++ [a_id axiom]
         else appliedRules)
        (errors ++ found)
  end.

Definition applyCocartesianRules (d : Diagram) : result CocartesianRuleResult :=
  if negb (Validation.isCocartesianDiagram d) then Ok (mkRuleResult d [] [])
  else
    do outcome <-
      runRules [cocartesianCoproductAxiom; cocartesianInjectionAxiom;
                cocartesianUniversalPropertyAxiom] d [] [];
    let '(appliedRules, errors) := outcome in
    Ok (mkRuleResult d appliedRules errors).

Definition validateCocartesianStructure (d : Diagram) : result CocartesianValidationResult :=
  if negb (isValidDiagram d)
  then Ok (mkValidationResult false
             [mkValidationError "INVALID_DIAGRAM" "Diagram structure is invalid"
                sev_error None])
  else if negb (Validation.isCocartesianDiagram d) then Ok (mkValidationResult true [])
  else
    do ruleResult <- applyCocartesianRules d;
    Ok (mkValidationResult (Z.of_nat (length (rr_errors ruleResult)) =? 0)
          (rr_errors ruleResult)).

(** [source.dimension === 0 ? source.generator : null]; a missing
    [generator] reads as [undefined], which the test [sourceGen && targetGen]
    treats as it treats [null]. *)
Definition generatorAtDimension0 (d : Diagram) : option Generator :=
  match d with
  | Diagram0 g => Some g
  | DiagramN _ _ _ => None
  end.

Definition cocartesianCoherence (source target : Diagram) (rewrite : Rewrite)
  : result CocartesianCoherenceResult :=
  if negb (isValidDiagram source) || negb (isValidDiagram target) ||
     negb (isValidRewrite rewrite)
  then Ok (mkCoherenceResult false
             [mkValidationError "INVALID_INPUTS" "Source, target, or rewrite is invalid"
                sev_error None])
  else
    let sourceIsCocartesian := Validation.isCocartesianDiagram source in
    let targetIsCocartesian := Validation.isCocartesianDiagram target in
    do violations <-
      (if sourceIsCocartesian && targetIsCocartesian then
         if r_dimension rewrite =? 0 then
           match generatorAtDimension0 source, generatorAtDimension0 target with
           | Some sourceGen, Some targetGen =>
               do rewriteSource <- r_source_id rewrite;
               do mismatch <-
                 (if negb (bool_decide (rewriteSource = g_id sourceGen)) then Ok true
                  else
                    do rewriteTarget <- r_target_id rewrite;
                    Ok (negb (bool_decide (rewriteTarget = g_id targetGen))));
               if mismatch
               then Ok [mkValidationError "REWRITE_MISMATCH"
                          "Rewrite does not match source and target generators"
                          sev_warning None]
               else Ok []
           | _, _ => Ok []
           end
         else Ok []
       else if sourceIsCocartesian && negb targetIsCocartesian then
         Ok [mkValidationError "STRUCTURE_LOSS"
               "Rewrite from cocartesian to non-cocartesian may lose structure"
               sev_warning None]
       else if negb sourceIsCocartesian && targetIsCocartesian then
         Ok [mkValidationError "STRUCTURE_CREATION"
               "Rewrite from non-cocartesian to cocartesian creates structure"
               sev_info None]
       else Ok []);
    Ok (mkCoherenceResult
          (Z.of_nat (length (List.filter
                               (fun v => bool_decide (severity v = sev_error))
                               violations)) =? 0)
          violations).

End Cocartesian.

(** ** axioms/index.ts *)

Module AxiomSystem.

(** The ten axioms in the order in which [createCompleteNPRSystem] (and
    [createDefaultRegistry] of validation.ts) registers them. *)
Definition builtinAxioms : list NPRAxiom :=
  [ NprRules.nprAssociativityAxiom; NprRules.nprUnitAxiom;
    NprRules.nprInverseAxiom; NprRules.nprSymmetryAxiom;
    Cartesian.cartesianProductAxiom; Cartesian.cartesianProjectionAxiom;
    Cartesian.cartesianUniversalPropertyAxiom;
    Cocartesian.cocartesianCoproductAxiom; Cocartesian.cocartesianInjectionAxiom;
    Cocartesian.cocartesianUniversalPropertyAxiom ].

Definition createCompleteNPRSystem : result Validation.AxiomRegistry :=
  registerAll Validation.newRegistry builtinAxioms.

Definition validateWithCompleteSystem (d : Diagram) : result Validation.ValidationReport :=
  do system <- createCompleteNPRSystem;
  Ok (Validation.validateAllAxioms d system).

Definition getAllNPRAxioms : result (list NPRAxiom) :=
  do system <- createCompleteNPRSystem;
  Ok (Validation.getAllAxioms system).

Definition satisfiesAllNPRLaws (d : Diagram) : result bool :=
  do report <- validateWithCompleteSystem d;
  Ok (Validation.isValid report).

End AxiomSystem.

(** ** engine/validation.ts *)

Module EngineValidation.

Record ValidationResult : Type := mkResult {
  isValid : bool;
  errors : list NPRValidationError;
  warnings : list NPRValidationError
}.

Definition MAX_DEPTH : Z := 100.

(** [checkValidationCycles] of [validateDiagram], as the errors it pushes.
    As in the engine's other guards, [visited.has(d)] cannot fire on a
    tree. *)
Fixpoint checkValidationCycles (d : Diagram) (depth : Z) (path : string)
  : list NPRValidationError :=
  if depth >? MAX_DEPTH
  then [mkValidationError "VALIDATION_DEPTH_EXCEEDED"
          ("Maximum validation depth exceeded at " +:+ path) sev_error (Some path)]
  else
    match d with
    | Diagram0 _ => []
    | DiagramN dimension source _ =>
        if dimension >? 0
        then checkValidationCycles source (depth + 1) (path +:+ ".source")
        else []
    end.

(** The loop of [validateRewrite] over the cones, from index [i] on. *)
Fixpoint coneErrors (i : nat) (cones : list Cone) : list NPRValidationError :=
  match cones with
  | [] => []
  | cone :: rest =>
      (if negb (isValidCone cone)
       then [mkValidationError "INVALID_CONE"
               ("Cone at index " +:+ pretty i +:+ " is invalid") sev_error
               (Some ("cones[" +:+ pretty i +:+ "]"))]
       else []) ++
      coneErrors (S i) rest
  end.

Definition invalidSourceGenerator : NPRValidationError :=
  mkValidationError "INVALID_SOURCE_GENERATOR" "Source generator is invalid"
    sev_error (Some "source").

Definition invalidTargetGenerator : NPRValidationError :=
  mkValidationError "INVALID_TARGET_GENERATOR" "Target generator is invalid"
    sev_error (Some "target").

Definition validateRewrite (rewrite : Rewrite) : ValidationResult :=
  let errors :=
    if negb (isValidRewrite rewrite)
    then [mkValidationError "INVALID_REWRITE_STRUCTURE" "Rewrite has invalid structure"
            sev_error None]
    else [] in
  let '(errors, warnings) :=
    match rewrite with
    | Rewrite0 source target =>
        (errors ++
         (if negb (isValidGenerator source) then [invalidSourceGenerator] else []) ++
         (if negb (isValidGenerator target) then [invalidTargetGenerator] else []),
         [])
    | RewriteI =>
        (* dimension 1 with an [identity] field, which is [true] *)
        (errors, [])
    | RewriteN dimension cones =>
        if dimension =? 0
        then (* [rewrite.source] and [rewrite.target] are [undefined] *)
          (errors ++ [invalidSourceGenerator] ++ [invalidTargetGenerator], [])
        else if dimension >? 1 then (errors ++ coneErrors 0 cones, [])
        else (errors, [])
    end in
  mkResult (Z.of_nat (length errors) =? 0) errors warnings.

(** [{...e, location}] *)
Definition relocate (location : string) (e : NPRValidationError) : NPRValidationError :=
  mkValidationError (code e) (message e) (severity e) (Some location).

Definition validateCospan (cospan : Cospan) (path : string) : ValidationResult :=
  if negb (isValidCospan cospan)
  then
    let errors := [mkValidationError "INVALID_COSPAN" ("Invalid cospan at " +:+ path)
                     sev_error (Some path)] in
    mkResult (Z.of_nat (length errors) =? 0) errors []
  else
    let forwardValidation := validateRewrite (forward cospan) in
    let backwardValidation := validateRewrite (backward cospan) in
    let errors :=
      map (relocate (path +:+ ".forward")) (errors forwardValidation) ++
      map (relocate (path +:+ ".backward")) (errors backwardValidation) in
    let warnings :=
      map (relocate (path +:+ ".forward")) (warnings forwardValidation) ++
      map (relocate (path +:+ ".backward")) (warnings backwardValidation) in
    mkResult (Z.of_nat (length errors) =? 0) errors warnings.

(** The loop of [validateDiagramCospans], from index [i] on: the errors and
    the warnings it pushes. *)
Fixpoint cospanFindings (i : nat) (cospans : list Cospan)
  : list NPRValidationError * list NPRValidationError :=
  match cospans with
  | [] => ([], [])
  | cospan :: rest =>
      let cospanValidation := validateCospan cospan ("cospans[" +:+ pretty i +:+ "]") in
      let '(restErrors, restWarnings) := cospanFindings (S i) rest in
      (errors cospanValidation ++ restErrors, warnings cospanValidation ++ restWarnings)
  end.

Definition validateDiagramCospans (d : Diagram)
  : list NPRValidationError * list NPRValidationError :=
  match d with
  | Diagram0 _ => ([], [])
  | DiagramN dimension _ cospans =>
      if dimension >? 0 then cospanFindings 0 cospans else ([], [])
  end.

Fixpoint validateDiagramGenerators (d : Diagram) (path : string)
  : list NPRValidationError :=
  let invalidGenerator :=
    [mkValidationError "INVALID_GENERATOR" ("Invalid generator at " +:+ path)
       sev_error (Some path)] in
  match d with
  | Diagram0 generator =>
      if negb (isValidGenerator generator) then invalidGenerator else []
  | DiagramN dimension source _ =>
      if dimension =? 0 then invalidGenerator (* [diagram.generator] is [undefined] *)
      else validateDiagramGenerators source (path +:+ ".source")
  end.

Definition validateDiagram (d : Diagram) : ValidationResult :=
  let cycleErrors := checkValidationCycles d 0 "root" in
  if Z.of_nat (length cycleErrors) >? 0 then mkResult false cycleErrors []
  else
    let errors :=
      if negb (isValidDiagram d)
      then [mkValidationError "INVALID_STRUCTURE" "Diagram has invalid structure"
              sev_error None]
      else [] in
    let errors := errors ++ validateDiagramGenerators d "root" in
    let '(errors, warnings) :=
      if d_dimension d >? 0
      then let '(cospanErrors, cospanWarnings) := validateDiagramCospans d in
           (errors ++ cospanErrors, cospanWarnings)
      else (errors, []) in
    let '(errors, warnings) :=
      if isValidDiagram d then
        match Npr.validateNPRAspects d with
        | Ok nprValidation =>
            (errors ++ Npr.ar_errors nprValidation,
             warnings ++ Npr.ar_warnings nprValidation)
        | Throw e =>
            (errors ++ [mkValidationError "NPR_VALIDATION_ERROR"
                          ("NPR validation failed: " +:+ messageOf e) sev_error None],
             warnings)
        end
      else (errors, warnings) in
    mkResult (Z.of_nat (length errors) =? 0) errors warnings.


End EngineValidation.

(** ** Auxiliary definitions for the further properties *)

(** The generator rewrites along a path: from [start] to the first stop,
    from each stop to the next. *)
Fixpoint pathRewrites (start : Generator) (stops : list Generator) : list Rewrite :=
  match stops with
  | [] => []
  | g :: rest => Rewrite0 start g :: pathRewrites g rest
  end.

(** The first rewrite of a list that is not the identity. *)
Definition firstProper (parts : list Rewrite) : Rewrite :=
  hd RewriteI (List.filter (fun r => negb (r_identity r)) parts).

(** A part as [findContractibleParts] reports it. *)
Definition contractiblePair (part : list Rewrite) : Prop :=
  exists a b, part = [a; b] /\ isValidRewrite a = true /\ isValidRewrite b = true /\
              r_dimension a = r_dimension b /\
              Contraction.performColimitContraction part = a.

(** The [cospans] of a diagram; a 0-dimensional diagram has none. *)
Definition d_cospans (d : Diagram) : list Cospan :=
  match d with
  | Diagram0 _ => []
  | DiagramN _ _ cospans => cospans
  end.

(** * Properties *)

(** ** Structural validity *)

Ltac zbool :=
  rewrite ?Z.gtb_ltb in *;
  repeat match goal with
         | |- context [?a =? ?b] => destruct (Z.eqb_spec a b)
         | |- context [?a <? ?b] => destruct (Z.ltb_spec a b)
         | |- context [?a <=? ?b] => destruct (Z.leb_spec a b)
         end;
  simpl; try done; try lia.

Lemma isValidGenerator_id (g : Generator) :
  isValidGenerator g = true <-> g_id g <> "".
Proof.
  unfold isValidGenerator. case_bool_decide; [naive_solver|].
  destruct (g_color g) as [[]|]; simpl; naive_solver.
Qed.

Lemma isValidDiagram_N n s cs :
  isValidDiagram (DiagramN n s cs) = true <-> 0 < n /\ isValidDiagram s = true.
Proof.
  simpl. zbool; destruct (isValidDiagram s); simpl; intuition (try done; try lia).
Qed.

Lemma isValidRewrite_N n cones :
  isValidRewrite (RewriteN n cones) = true <->
  1 < n /\ forallb isValidCone cones = true.
Proof. simpl. zbool; intuition (try done; try lia). Qed.

Lemma isValidCone_inv i src tgt sl :
  isValidCone (mkCone i src tgt sl) = true ->
  forallb isValidCospan src = true /\ isValidCospan tgt = true /\
  forallb isValidRewrite sl = true.
Proof.
  simpl. zbool.
  destruct (isValidCospan tgt); [|done].
  destruct (forallb isValidCospan src); [|done]. simpl. auto.
Qed.

Lemma isValidCospan_inv f b :
  isValidCospan (mkCospan f b) = true ->
  isValidRewrite f = true /\ isValidRewrite b = true.
Proof. simpl. intros H. by apply andb_prop in H. Qed.

Lemma sourceDepth_nonneg d : 0 <= sourceDepth d.
Proof. induction d; simpl; lia. Qed.

Lemma sourceDepth_tower n base :
  sourceDepth (tower n base) = Z.of_nat n + sourceDepth base.
Proof. induction n; [simpl; lia|]. cbn [tower sourceDepth]. lia. Qed.

Lemma isValidDiagram_tower n base :
  isValidDiagram base = true -> isValidDiagram (tower n base) = true.
Proof.
  intros Hb. induction n; [done|]. cbn [tower].
  apply isValidDiagram_N. split; [lia|done].
Qed.

(** ** Traversals that may throw *)

Lemma mapR_fixed {A} (f : A -> result A) l :
  Forall (fun x => f x = Ok x) l -> mapR f l = Ok l.
Proof.
  induction 1 as [|x l Hx _ IH]; simpl; [done|].
  by rewrite Hx, IH.
Qed.

Lemma Forall_forallb_apply {A} (p : A -> bool) (P : A -> Prop) l :
  Forall (fun x => p x = true -> P x) l -> forallb p l = true -> Forall P l.
Proof.
  induction 1 as [|x l Hx _ IH]; simpl; intros Hp; [constructor|].
  apply andb_prop in Hp as [Hp1 Hp2]. constructor; auto.
Qed.

(** On a well-formed rewrite the three rebuilding traversals of the engine
    (normalization, beta reduction, contraction) return a copy equal to
    their argument: the leaves are returned as they are and every cone is
    rebuilt from rebuilt parts. *)
Lemma normalize_valid_fixed :
  (forall r, isValidRewrite r = true -> Normalization.normalizeRewrite r = Ok r) /\
  (forall c, isValidCone c = true -> Normalization.normalizeCone c = Ok c) /\
  (forall c, isValidCospan c = true -> Normalization.normalizeCospan c = Ok c).
Proof.
  apply Rewrite_Cone_Cospan_ind.
  - intros s t H. simpl in *. rewrite H. simpl. by case_bool_decide.
  - done.
  - intros n cones IH H.
    change (Normalization.normalizeRewrite (RewriteN n cones)) with
      (if negb (isValidRewrite (RewriteN n cones))
       then Throw (Error "Cannot normalize invalid rewrite structure")
       else if n =? 0 then Throw (undefinedRead "id")
       else if n >? 1 then
         bindR (mapR Normalization.normalizeCone cones)
               (fun normalizedCones => Ok (RewriteN n normalizedCones))
       else Ok (RewriteN n cones)).
    rewrite H. apply isValidRewrite_N in H as [Hn Hc]. simpl. zbool.
    rewrite (mapR_fixed _ cones); [done|].
    eapply Forall_forallb_apply; eauto.
  - intros i src tgt sl IHsrc IHtgt IHsl H.
    apply isValidCone_inv in H as (Hsrc & Htgt & Hsl).
    change (Normalization.normalizeCone (mkCone i src tgt sl)) with
      (bindR (mapR Normalization.normalizeCospan src) (fun source' =>
       bindR (Normalization.normalizeCospan tgt) (fun target' =>
       bindR (mapR Normalization.normalizeRewrite sl) (fun slices' =>
       Ok (mkCone i source' target' slices'))))).
    rewrite (mapR_fixed _ src) by (eapply Forall_forallb_apply; eauto).
    simpl. rewrite (IHtgt Htgt). simpl.
    by rewrite (mapR_fixed _ sl) by (eapply Forall_forallb_apply; eauto).
  - intros f b IHf IHb H. apply isValidCospan_inv in H as [Hf Hb].
    change (Normalization.normalizeCospan (mkCospan f b)) with
      (bindR (Normalization.normalizeRewrite f) (fun forward' =>
       bindR (Normalization.normalizeRewrite b) (fun backward' =>
       Ok (mkCospan forward' backward')))).
    by rewrite (IHf Hf), (IHb Hb).
Qed.

Lemma beta_valid_fixed :
  (forall r, isValidRewrite r = true -> Normalization.performBetaReduction r = Ok r) /\
  (forall c, isValidCone c = true -> Normalization.betaCone c = Ok c) /\
  (forall c, isValidCospan c = true -> Normalization.betaCospan c = Ok c).
Proof.
  apply Rewrite_Cone_Cospan_ind.
  - intros s t H. simpl in *. by rewrite H.
  - done.
  - intros n cones IH H.
    change (Normalization.performBetaReduction (RewriteN n cones)) with
      (if negb (isValidRewrite (RewriteN n cones))
       then Throw (Error "Cannot perform beta reduction on invalid rewrite")
       else if n =? 0 then Ok (RewriteN n cones)
       else if n >? 1 then
         bindR (mapR Normalization.betaCone cones)
               (fun reducedCones => Ok (RewriteN n reducedCones))
       else Ok (RewriteN n cones)).
    rewrite H. apply isValidRewrite_N in H as [Hn Hc]. simpl. zbool.
    rewrite (mapR_fixed _ cones); [done|].
    eapply Forall_forallb_apply; eauto.
  - intros i src tgt sl IHsrc IHtgt IHsl H.
    apply isValidCone_inv in H as (Hsrc & Htgt & Hsl).
    change (Normalization.betaCone (mkCone i src tgt sl)) with
      (bindR (mapR Normalization.betaCospan src) (fun source' =>
       bindR (Normalization.betaCospan tgt) (fun target' =>
       bindR (mapR Normalization.performBetaReduction sl) (fun slices' =>
       Ok (mkCone i source' target' slices'))))).
    rewrite (mapR_fixed _ src) by (eapply Forall_forallb_apply; eauto).
    simpl. rewrite (IHtgt Htgt). simpl.
    by rewrite (mapR_fixed _ sl) by (eapply Forall_forallb_apply; eauto).
  - intros f b IHf IHb H. apply isValidCospan_inv in H as [Hf Hb].
    change (Normalization.betaCospan (mkCospan f b)) with
      (bindR (Normalization.performBetaReduction f) (fun forward' =>
       bindR (Normalization.performBetaReduction b) (fun backward' =>
       Ok (mkCospan forward' backward')))).
    by rewrite (IHf Hf), (IHb Hb).
Qed.

Lemma contract_valid_fixed :
  (forall r, isValidRewrite r = true -> Contraction.contractRewrite r = Ok r) /\
  (forall c, isValidCone c = true -> Contraction.contractCone c = Ok c) /\
  (forall c, isValidCospan c = true -> Contraction.contractCospan c = Ok c).
Proof.
  apply Rewrite_Cone_Cospan_ind.
  - intros s t H. simpl in *. by rewrite H.
  - done.
  - intros n cones IH H.
    change (Contraction.contractRewrite (RewriteN n cones)) with
      (if negb (isValidRewrite (RewriteN n cones))
       then Throw (Error "Invalid rewrite structure")
       else if (n =? 0) || (n =? 1) then Ok (RewriteN n cones)
       else
         bindR (mapR Contraction.contractCone cones)
               (fun contractedCones => Ok (RewriteN n contractedCones))).
    rewrite H. apply isValidRewrite_N in H as [Hn Hc]. simpl. zbool.
    rewrite (mapR_fixed _ cones); [done|].
    eapply Forall_forallb_apply; eauto.
  - intros i src tgt sl IHsrc IHtgt IHsl H.
    apply isValidCone_inv in H as (Hsrc & Htgt & Hsl).
    change (Contraction.contractCone (mkCone i src tgt sl)) with
      (bindR (mapR Contraction.contractCospan src) (fun source' =>
       bindR (Contraction.contractCospan tgt) (fun target' =>
       bindR (mapR Contraction.contractRewrite sl) (fun slices' =>
       Ok (mkCone i source' target' slices'))))).
    rewrite (mapR_fixed _ src) by (eapply Forall_forallb_apply; eauto).
    simpl. rewrite (IHtgt Htgt). simpl.
    by rewrite (mapR_fixed _ sl) by (eapply Forall_forallb_apply; eauto).
  - intros f b IHf IHb H.
    change (Contraction.contractCospan (mkCospan f b)) with
      (if negb (isValidCospan (mkCospan f b))
       then Throw (Error "Invalid cospan structure")
       else if (r_dimension f =? 1) && (r_dimension b =? 1) then Ok (mkCospan f b)
       else if (r_dimension f =? 0) && (r_dimension b =? 0) then Ok (mkCospan f b)
       else
         bindR (Contraction.contractRewrite f) (fun forward' =>
         bindR (Contraction.contractRewrite b) (fun backward' =>
         Ok (mkCospan forward' backward')))).
    rewrite H. apply isValidCospan_inv in H as [Hf Hb]. simpl.
    destruct ((r_dimension f =? 1) && (r_dimension b =? 1)); [done|].
    destruct ((r_dimension f =? 0) && (r_dimension b =? 0)); [done|].
    by rewrite (IHf Hf), (IHb Hb).
Qed.

(** ** The depth guard *)

Lemma normalization_checkCycles_ok d k :
  isValidDiagram d = true -> k + sourceDepth d <= 100 ->
  Normalization.checkCycles d k = Ok tt.
Proof.
  revert k. induction d as [g|n s IH cs]; intros k Hv Hk; simpl in Hk |- *;
    unfold Normalization.MAX_DEPTH.
  - zbool.
  - apply isValidDiagram_N in Hv as [Hn Hs].
    pose proof (sourceDepth_nonneg s). zbool. apply IH; [done|lia].
Qed.

Lemma normalization_checkCycles_deep d k :
  isValidDiagram d = true -> 100 < k + sourceDepth d ->
  Normalization.checkCycles d k =
  Throw (Error "Maximum normalization depth exceeded - possible cycle detected").
Proof.
  revert k. induction d as [g|n s IH cs]; intros k Hv Hk; simpl in Hk |- *;
    unfold Normalization.MAX_DEPTH.
  - zbool.
  - apply isValidDiagram_N in Hv as [Hn Hs]. zbool. apply IH; [done|lia].
Qed.

Lemma contraction_checkCycles_ok d k :
  isValidDiagram d = true -> k + sourceDepth d <= 100 ->
  Contraction.checkCycles d k = Ok tt.
Proof.
  revert k. induction d as [g|n s IH cs]; intros k Hv Hk; simpl in Hk |- *;
    unfold Contraction.MAX_DEPTH.
  - zbool.
  - apply isValidDiagram_N in Hv as [Hn Hs].
    pose proof (sourceDepth_nonneg s). zbool. apply IH; [done|lia].
Qed.

Lemma contraction_checkCycles_deep d k :
  isValidDiagram d = true -> 100 < k + sourceDepth d ->
  Contraction.checkCycles d k = Throw (Error "Cyclic reference detected in diagram").
Proof.
  revert k. induction d as [g|n s IH cs]; intros k Hv Hk; simpl in Hk |- *;
    unfold Contraction.MAX_DEPTH.
  - zbool.
  - apply isValidDiagram_N in Hv as [Hn Hs]. zbool. apply IH; [done|lia].
Qed.

(** ** Normalization of diagrams *)

Lemma mapR_valid_cospans_fixed (f : Cospan -> result Cospan) cs :
  (forall c, isValidCospan c = true -> f c = Ok c) ->
  mapR (fun c => if isValidCospan c then f c else Ok c) cs = Ok cs.
Proof.
  intros Hf. apply mapR_fixed, Forall_forall. intros c _.
  destruct (isValidCospan c) eqn:Hc; auto.
Qed.

Lemma normalizeDiagram_invalid d :
  isValidDiagram d = false ->
  Normalization.normalizeDiagram d =
  Throw (Error "Cannot normalize invalid diagram structure").
Proof. intros H. destruct d; simpl in *; by rewrite H. Qed.

Lemma normalizeDiagram_deep d :
  isValidDiagram d = true -> 100 < sourceDepth d ->
  Normalization.normalizeDiagram d =
  Throw (Error "Maximum normalization depth exceeded - possible cycle detected").
Proof.
  intros Hv Hd.
  pose proof (normalization_checkCycles_deep d 0 Hv ltac:(lia)) as Hc.
  destruct d as [g|n s cs].
  - simpl in Hd. lia.
  - change (Normalization.normalizeDiagram (DiagramN n s cs)) with
      (if negb (isValidDiagram (DiagramN n s cs))
       then Throw (Error "Cannot normalize invalid diagram structure")
       else bindR (Normalization.checkCycles (DiagramN n s cs) 0) (fun _ =>
            if n =? 0 then Ok (DiagramN n s cs)
            else
              bindR (Normalization.normalizeDiagram s) (fun normalizedSource =>
              bindR (mapR (fun cospan =>
                             if isValidCospan cospan
                             then Normalization.normalizeCospan cospan
                             else Ok cospan) cs) (fun normalizedCospans =>
              Ok (DiagramN n normalizedSource
                    (Normalization.reduceRedundantCospans normalizedCospans)))))).
    by rewrite Hv, Hc.
Qed.

Lemma normalizeDiagram_pruned d :
  isValidDiagram d = true -> sourceDepth d <= 100 ->
  Normalization.normalizeDiagram d = Ok (pruned d).
Proof.
  induction d as [g|n s IH cs]; intros Hv Hd.
  - simpl in *. rewrite Hv. simpl. unfold Normalization.MAX_DEPTH. by simpl.
  - pose proof (normalization_checkCycles_ok _ 0 Hv ltac:(lia)) as Hc.
    change (Normalization.normalizeDiagram (DiagramN n s cs)) with
      (if negb (isValidDiagram (DiagramN n s cs))
       then Throw (Error "Cannot normalize invalid diagram structure")
       else bindR (Normalization.checkCycles (DiagramN n s cs) 0) (fun _ =>
            if n =? 0 then Ok (DiagramN n s cs)
            else
              bindR (Normalization.normalizeDiagram s) (fun normalizedSource =>
              bindR (mapR (fun cospan =>
                             if isValidCospan cospan
                             then Normalization.normalizeCospan cospan
                             else Ok cospan) cs) (fun normalizedCospans =>
              Ok (DiagramN n normalizedSource
                    (Normalization.reduceRedundantCospans normalizedCospans)))))).
    rewrite Hv, Hc. apply isValidDiagram_N in Hv as [Hn Hs]. simpl in Hd |- *.
    zbool. rewrite IH by (done || lia). simpl.
    rewrite mapR_valid_cospans_fixed by apply normalize_valid_fixed.
    done.
Qed.

Lemma isValidDiagram_pruned d : isValidDiagram (pruned d) = isValidDiagram d.
Proof. induction d as [g|n s IH cs]; simpl; [done|]. by rewrite IH. Qed.

Lemma sourceDepth_pruned d : sourceDepth (pruned d) = sourceDepth d.
Proof. induction d as [g|n s IH cs]; simpl; [done|]. by rewrite IH. Qed.

Lemma reduceRedundantCospans_kept cs :
  Forall (fun c => isValidCospan c = true /\ Normalization.isRedundantCospan c = false)
         (Normalization.reduceRedundantCospans cs).
Proof.
  induction cs as [|c cs IH]; simpl; [constructor|].
  destruct (isValidCospan c) eqn:Hv; [|done].
  destruct (Normalization.isRedundantCospan c) eqn:Hr; [done|].
  by constructor.
Qed.

Lemma reduceRedundantCospans_fixed cs :
  Forall (fun c => isValidCospan c = true /\ Normalization.isRedundantCospan c = false) cs ->
  Normalization.reduceRedundantCospans cs = cs.
Proof.
  induction 1 as [|c cs [Hv Hr] _ IH]; simpl; [done|].
  by rewrite Hv, Hr, IH.
Qed.

Lemma reduceRedundantCospans_idempotent cs :
  Normalization.reduceRedundantCospans (Normalization.reduceRedundantCospans cs) =
  Normalization.reduceRedundantCospans cs.
Proof. apply reduceRedundantCospans_fixed, reduceRedundantCospans_kept. Qed.

Lemma pruned_idempotent d : pruned (pruned d) = pruned d.
Proof.
  induction d as [g|n s IH cs]; simpl; [done|].
  by rewrite IH, reduceRedundantCospans_idempotent.
Qed.

(** Whatever [normalizeDiagram] returns is the pruned diagram; it returns
    exactly on the well-formed diagrams within the depth bound. *)
Lemma normalizeDiagram_Ok_inv d d' :
  Normalization.normalizeDiagram d = Ok d' ->
  isValidDiagram d = true /\ sourceDepth d <= 100 /\ d' = pruned d.
Proof.
  intros H. destruct (isValidDiagram d) eqn:Hv.
  - destruct (Z.le_gt_cases (sourceDepth d) 100) as [Hd|Hd].
    + rewrite normalizeDiagram_pruned in H by done. by inversion H.
    + rewrite normalizeDiagram_deep in H by (done || lia). done.
  - by rewrite normalizeDiagram_invalid in H.
Qed.

(** ** Normal forms *)

Lemma isRewriteInNormalForm_coneFree r :
  isValidRewrite r = true -> coneFree r = true ->
  Normalization.isRewriteInNormalForm r = Ok true.
Proof.
  intros Hv Hc. unfold Normalization.isRewriteInNormalForm.
  rewrite Hv. cbn [negb].
  rewrite (proj1 beta_valid_fixed r Hv). cbn [bindR].
  destruct r as [s t| |n cones]; [| done | done].
  unfold Normalization.rewritesEqual. simpl.
  by rewrite !bool_decide_eq_true_2.
Qed.

Lemma isRewriteInNormalForm_cones n cones :
  isValidRewrite (RewriteN n cones) = true ->
  Normalization.isRewriteInNormalForm (RewriteN n cones) = Ok false.
Proof.
  intros Hv. unfold Normalization.isRewriteInNormalForm.
  rewrite Hv. cbn [negb].
  rewrite (proj1 beta_valid_fixed _ Hv). cbn [bindR].
  apply isValidRewrite_N in Hv as [Hn _].
  unfold Normalization.rewritesEqual. simpl. rewrite Z.eqb_refl. simpl. zbool.
Qed.

Lemma legsInNormalForm_coneFree cs :
  forallb (fun c => implb (isValidCospan c)
                      (coneFree (forward c) && coneFree (backward c))) cs = true ->
  Normalization.legsInNormalForm cs = Ok true.
Proof.
  induction cs as [|c cs IH]; simpl; [done|]. intros H.
  apply andb_prop in H as [Hc Hcs].
  destruct (isValidCospan c) eqn:Hv; [|auto].
  simpl in Hc. apply andb_prop in Hc as [Hf Hb].
  destruct c as [f b]. apply isValidCospan_inv in Hv as [Hvf Hvb]. simpl in *.
  rewrite (isRewriteInNormalForm_coneFree f), (isRewriteInNormalForm_coneFree b) by done.
  simpl. auto.
Qed.

Lemma adjacentRedundant_cons c c' cs :
  Normalization.adjacentRedundant (c :: c' :: cs) =
  if isValidCospan c && isValidCospan c' &&
     (Normalization.isRedundantCospan c || Normalization.isRedundantCospan c')
  then true else Normalization.adjacentRedundant (c' :: cs).
Proof. reflexivity. Qed.

Lemma adjacentRedundant_kept cs :
  Forall (fun c => isValidCospan c = true /\ Normalization.isRedundantCospan c = false) cs ->
  Normalization.adjacentRedundant cs = false.
Proof.
  induction 1 as [|c cs [Hv Hr] Hcs IH]; [done|].
  destruct Hcs as [|c' cs' [Hv' Hr'] Hcs']; [done|].
  rewrite adjacentRedundant_cons, Hv, Hv', Hr, Hr'. exact IH.
Qed.

Lemma coneFree_reduceRedundantCospans cs :
  forallb (fun c => implb (isValidCospan c)
                      (coneFree (forward c) && coneFree (backward c))) cs = true ->
  forallb (fun c => implb (isValidCospan c)
                      (coneFree (forward c) && coneFree (backward c)))
          (Normalization.reduceRedundantCospans cs) = true.
Proof.
  induction cs as [|c cs IH]; simpl; [done|]. intros H.
  apply andb_prop in H as [Hc Hcs].
  destruct (isValidCospan c) eqn:Hv; [|auto].
  destruct (Normalization.isRedundantCospan c); [auto|].
  simpl. rewrite Hv. simpl in *. rewrite Hc. simpl. auto.
Qed.

Lemma isNormalForm_pruned d :
  isValidDiagram d = true -> coneFreeLegs d = true ->
  Normalization.isNormalForm (pruned d) = Ok true.
Proof.
  induction d as [g|n s IH cs]; intros Hv Hc.
  - simpl in *. by rewrite Hv.
  - cbn [pruned].
    change (Normalization.isNormalForm
              (DiagramN n (pruned s) (Normalization.reduceRedundantCospans cs)))
      with
      (let diagram := DiagramN n (pruned s) (Normalization.reduceRedundantCospans cs) in
       if negb (isValidDiagram diagram) then Ok false
       else if n =? 0 then Ok true
       else
         bindR (Normalization.isNormalForm (pruned s)) (fun sourceNormal =>
         if negb sourceNormal then Ok false
         else
           bindR (Normalization.legsInNormalForm
                    (Normalization.reduceRedundantCospans cs)) (fun legs =>
           if negb legs then Ok false
           else if Normalization.hasReduciblePatterns diagram then Ok false
           else Ok true))).
    cbv zeta.
    change (DiagramN n (pruned s) (Normalization.reduceRedundantCospans cs))
      with (pruned (DiagramN n s cs)).
    rewrite isValidDiagram_pruned, Hv. simpl negb. cbv iota.
    apply isValidDiagram_N in Hv as [Hn Hs].
    simpl in Hc. apply andb_prop in Hc as [Hcs Hcc].
    zbool. rewrite IH by done. simpl.
    rewrite legsInNormalForm_coneFree by by apply coneFree_reduceRedundantCospans.
    simpl. zbool.
    by rewrite adjacentRedundant_kept by apply reduceRedundantCospans_kept.
Qed.

(** ** Contraction of diagrams *)

Lemma contractDiagram_fixed d :
  isValidDiagram d = true -> sourceDepth d <= 100 ->
  Contraction.contractDiagram d = Ok d.
Proof.
  induction d as [g|n s IH cs]; intros Hv Hd.
  - simpl in *. rewrite Hv. simpl. unfold Contraction.MAX_DEPTH. by simpl.
  - pose proof (contraction_checkCycles_ok _ 0 Hv ltac:(lia)) as Hc.
    change (Contraction.contractDiagram (DiagramN n s cs)) with
      (if negb (isValidDiagram (DiagramN n s cs))
       then Throw (Error "Invalid diagram structure")
       else bindR (Contraction.checkCycles (DiagramN n s cs) 0) (fun _ =>
            if n =? 0 then Ok (DiagramN n s cs)
            else
              bindR (Contraction.contractDiagram s) (fun contractedSource =>
              bindR (mapR (fun cospan =>
                             if isValidCospan cospan
                             then Contraction.contractCospan cospan
                             else Ok cospan) cs) (fun contractedCospans =>
              Ok (DiagramN n contractedSource contractedCospans))))).
    rewrite Hv, Hc. apply isValidDiagram_N in Hv as [Hn Hs]. simpl in Hd |- *.
    zbool. rewrite IH by (done || lia). simpl.
    rewrite mapR_valid_cospans_fixed by apply contract_valid_fixed.
    done.
Qed.

Lemma contractDiagram_deep d :
  isValidDiagram d = true -> 100 < sourceDepth d ->
  Contraction.contractDiagram d = Throw (Error "Cyclic reference detected in diagram").
Proof.
  intros Hv Hd.
  pose proof (contraction_checkCycles_deep d 0 Hv ltac:(lia)) as Hc.
  destruct d as [g|n s cs].
  - simpl in Hd. lia.
  - change (Contraction.contractDiagram (DiagramN n s cs)) with
      (if negb (isValidDiagram (DiagramN n s cs))
       then Throw (Error "Invalid diagram structure")
       else bindR (Contraction.checkCycles (DiagramN n s cs) 0) (fun _ =>
            if n =? 0 then Ok (DiagramN n s cs)
            else
              bindR (Contraction.contractDiagram s) (fun contractedSource =>
              bindR (mapR (fun cospan =>
                             if isValidCospan cospan
                             then Contraction.contractCospan cospan
                             else Ok cospan) cs) (fun contractedCospans =>
              Ok (DiagramN n contractedSource contractedCospans))))).
    by rewrite Hv, Hc.
Qed.

(** ** Claims on normalization and contraction *)

(** C1, amended.  For every structurally valid diagram whose [source] chain
    has at most 100 steps and whose well-formed cospans have only
    dimension-0 or identity legs, [normalizeDiagram] succeeds and
    [isNormalForm] holds of its result. *)
Theorem normalizeDiagram_normal_form (d : Diagram) :
  isValidDiagram d = true ->
  sourceDepth d <= 100 ->
  coneFreeLegs d = true ->
  exists n, Normalization.normalizeDiagram d = Ok n /\
            Normalization.isNormalForm n = Ok true.
Proof.
  intros Hv Hd Hc. exists (pruned d). split.
  - by apply normalizeDiagram_pruned.
  - by apply isNormalForm_pruned.
Qed.

Lemma normalizeDiagram_normal_form_witness :
  exists n, Normalization.normalizeDiagram sampleDiagram = Ok n /\
            Normalization.isNormalForm n = Ok true.
Proof.
  apply (normalizeDiagram_normal_form sampleDiagram).
  - reflexivity.
  - vm_compute. discriminate.
  - reflexivity.
Defined.

(** C1 as stated fails twice: a valid diagram of 101 levels is refused by
    the depth guard, and a valid diagram with a cone-carrying leg is
    normalized to a diagram that [isNormalForm] rejects. *)
Lemma normalizeDiagram_not_always_normal :
  (isValidDiagram deepDiagram = true /\
   Normalization.normalizeDiagram deepDiagram =
   Throw (Error "Maximum normalization depth exceeded - possible cycle detected")) /\
  (isValidDiagram coneLegDiagram = true /\
   Normalization.normalizeDiagram coneLegDiagram = Ok coneLegDiagram /\
   Normalization.isNormalForm coneLegDiagram = Ok false).
Proof. vm_compute. repeat split. Qed.

(** C2, amended.  For every structurally valid diagram whose [source]
    chain has at most 100 steps, [normalizeDiagram] returns a diagram, and
    normalizing that diagram returns it again; a valid diagram with a longer
    chain is refused by the depth guard, so that there is no result to
    normalize a second time. *)
Theorem normalizeDiagram_idempotent (d : Diagram) :
  isValidDiagram d = true ->
  (sourceDepth d <= 100 ->
   exists n, Normalization.normalizeDiagram d = Ok n /\
             Normalization.normalizeDiagram n = Ok n) /\
  (100 < sourceDepth d ->
   Normalization.normalizeDiagram d =
   Throw (Error "Maximum normalization depth exceeded - possible cycle detected")).
Proof.
  intros Hv. split; intros Hd.
  - exists (pruned d). split; [by apply normalizeDiagram_pruned|].
    rewrite normalizeDiagram_pruned.
    + by rewrite pruned_idempotent.
    + by rewrite isValidDiagram_pruned.
    + by rewrite sourceDepth_pruned.
  - by apply normalizeDiagram_deep.
Qed.

Lemma normalizeDiagram_idempotent_witness :
  (exists n, Normalization.normalizeDiagram sampleDiagram = Ok n /\
             Normalization.normalizeDiagram n = Ok n) /\
  Normalization.normalizeDiagram deepDiagram =
  Throw (Error "Maximum normalization depth exceeded - possible cycle detected").
Proof.
  split.
  - apply (normalizeDiagram_idempotent sampleDiagram); [reflexivity|].
    vm_compute. discriminate.
  - apply (normalizeDiagram_idempotent deepDiagram); [reflexivity|].
    vm_compute. reflexivity.
Defined.

(** C2 as stated fails on a valid diagram of 101 levels: the first
    normalization throws, so no diagram is returned that a second
    normalization could reproduce. *)
Lemma normalizeDiagram_not_idempotent_when_deep :
  isValidDiagram deepDiagram = true /\
  Normalization.normalizeDiagram deepDiagram =
  Throw (Error "Maximum normalization depth exceeded - possible cycle detected") /\
  ~ (exists n, Normalization.normalizeDiagram deepDiagram = Ok n /\
               Normalization.normalizeDiagram n = Ok n).
Proof.
  assert (Normalization.normalizeDiagram deepDiagram =
          Throw (Error "Maximum normalization depth exceeded - possible cycle detected"))
    as Hthrow by (vm_compute; reflexivity).
  split; [reflexivity|]. split; [exact Hthrow|].
  intros (n & Hn & _). rewrite Hthrow in Hn. discriminate.
Qed.

(** C6, amended.  For every structurally valid diagram whose [source] chain
    has at most 100 steps, [contractDiagram] returns a structurally valid
    diagram, and contracting that result returns it again; a valid diagram
    with a longer chain is refused with the error of the cycle guard. *)
Theorem contractDiagram_valid_fixed_point (d : Diagram) :
  isValidDiagram d = true ->
  (sourceDepth d <= 100 ->
   exists c, Contraction.contractDiagram d = Ok c /\
             isValidDiagram c = true /\
             Contraction.contractDiagram c = Ok c) /\
  (100 < sourceDepth d ->
   Contraction.contractDiagram d =
   Throw (Error "Cyclic reference detected in diagram")).
Proof.
  intros Hv. split; intros Hd.
  - exists d. by rewrite contractDiagram_fixed.
  - by apply contractDiagram_deep.
Qed.

Lemma contractDiagram_valid_fixed_point_witness :
  (exists c, Contraction.contractDiagram sampleDiagram = Ok c /\
             isValidDiagram c = true /\
             Contraction.contractDiagram c = Ok c) /\
  Contraction.contractDiagram deepDiagram =
  Throw (Error "Cyclic reference detected in diagram").
Proof.
  split.
  - apply (contractDiagram_valid_fixed_point sampleDiagram); [reflexivity|].
    vm_compute. discriminate.
  - apply (contractDiagram_valid_fixed_point deepDiagram); [reflexivity|].
    vm_compute. reflexivity.
Defined.

(** C6 as stated fails on a valid diagram of 101 levels: [contractDiagram]
    throws instead of returning a diagram. *)
Lemma contractDiagram_refuses_deep :
  isValidDiagram deepDiagram = true /\
  Contraction.contractDiagram deepDiagram =
  Throw (Error "Cyclic reference detected in diagram").
Proof. vm_compute. split; reflexivity. Qed.

(** ** Claims on composition *)

Lemma validateDiagramComposition_valid left right :
  isValidDiagram left = true -> isValidDiagram right = true ->
  validateDiagramComposition left right = Ok [].
Proof.
  intros Hl Hr. unfold validateDiagramComposition. rewrite Hl, Hr. simpl.
  destruct left as [gl|nl sl cl], right as [gr|nr sr cr]; simpl; try done.
  - apply isValidDiagram_N in Hr. zbool.
  - apply isValidDiagram_N in Hl. zbool.
  - apply isValidDiagram_N in Hl. zbool.
Qed.

(** C3, amended.  For every structurally valid diagram [d],
    [composeDiagrams(emptyDiagram(), d)] returns [d]; and
    [composeDiagrams(d, emptyDiagram())] returns [d] unless [d] is itself a
    0-dimensional diagram whose generator id is ['empty'], in which case it
    returns the canonical [emptyDiagram()]. *)
Theorem composeDiagrams_empty_identity (d : Diagram) :
  isValidDiagram d = true ->
  Composition.composeDiagrams createEmptyDiagram d = Ok d /\
  (Composition.isEmptyDiagram d = Ok false ->
   Composition.composeDiagrams d createEmptyDiagram = Ok d) /\
  (Composition.isEmptyDiagram d = Ok true ->
   Composition.composeDiagrams d createEmptyDiagram = Ok createEmptyDiagram).
Proof.
  intros Hv. unfold Composition.composeDiagrams.
  rewrite Hv. change (isValidDiagram createEmptyDiagram) with true. cbn [negb orb].
  rewrite !validateDiagramComposition_valid by done. cbn [bindR].
  change (Composition.isEmptyDiagram createEmptyDiagram) with (@Ok bool true).
  cbn [bindR].
  repeat split; intros He; by rewrite He.
Qed.

Lemma composeDiagrams_empty_identity_witness :
  Composition.composeDiagrams createEmptyDiagram sampleDiagram = Ok sampleDiagram /\
  (Composition.isEmptyDiagram sampleDiagram = Ok false ->
   Composition.composeDiagrams sampleDiagram createEmptyDiagram = Ok sampleDiagram) /\
  (Composition.isEmptyDiagram sampleDiagram = Ok true ->
   Composition.composeDiagrams sampleDiagram createEmptyDiagram = Ok createEmptyDiagram).
Proof. apply (composeDiagrams_empty_identity sampleDiagram). reflexivity. Defined.

(** C3 as stated fails on the right for a valid diagram that carries the id
    ['empty'] without the canonical label: the call returns the canonical
    empty diagram, which is not structurally equal to the argument. *)
Lemma composeDiagrams_empty_right_not_identity :
  isValidDiagram bareEmptyDiagram = true /\
  Composition.composeDiagrams bareEmptyDiagram createEmptyDiagram = Ok createEmptyDiagram /\
  Composition.composeDiagrams bareEmptyDiagram createEmptyDiagram <> Ok bareEmptyDiagram.
Proof. repeat split. vm_compute. discriminate. Qed.

Lemma isValidRewrite_dimension0 r :
  isValidRewrite r = true -> r_dimension r = 0 ->
  exists s t, r = Rewrite0 s t.
Proof.
  destruct r as [s t| |n cones]; intros Hv Hd; simpl in Hd; [eauto|done|].
  apply isValidRewrite_N in Hv. lia.
Qed.

(** C4, amended.  Two valid 0-dimensional rewrites [a] and [b] are generator
    rewrites; when [a.target.id == b.source.id], [composeRewrites(a, b)]
    returns the 0-dimensional rewrite from [a.source] to [b.target];
    otherwise it throws an [Error] with the fixed message
    ['Generator rewrites are not composable: target/source mismatch']. *)
Theorem composeRewrites_generators (a b : Rewrite) :
  isValidRewrite a = true -> isValidRewrite b = true ->
  r_dimension a = 0 -> r_dimension b = 0 ->
  exists sa ta sb tb,
    a = Rewrite0 sa ta /\ b = Rewrite0 sb tb /\
    (g_id ta = g_id sb ->
     Composition.composeRewrites a b = Ok (Rewrite0 sa tb)) /\
    (g_id ta <> g_id sb ->
     Composition.composeRewrites a b =
     Throw (Error "Generator rewrites are not composable: target/source mismatch")).
Proof.
  intros Ha Hb Hda Hdb.
  destruct (isValidRewrite_dimension0 a Ha Hda) as (sa & ta & ->).
  destruct (isValidRewrite_dimension0 b Hb Hdb) as (sb & tb & ->).
  exists sa, ta, sb, tb. repeat split; intros Hid;
    unfold Composition.composeRewrites; rewrite Ha, Hb; simpl.
  - by rewrite bool_decide_eq_true_2.
  - by rewrite bool_decide_eq_false_2.
Qed.

Lemma composeRewrites_generators_witness :
  exists sa ta sb tb,
    Rewrite0 genA genB = Rewrite0 sa ta /\ Rewrite0 genB genA = Rewrite0 sb tb /\
    (g_id ta = g_id sb ->
     Composition.composeRewrites (Rewrite0 genA genB) (Rewrite0 genB genA) =
     Ok (Rewrite0 sa tb)) /\
    (g_id ta <> g_id sb ->
     Composition.composeRewrites (Rewrite0 genA genB) (Rewrite0 genB genA) =
     Throw (Error "Generator rewrites are not composable: target/source mismatch")).
Proof.
  apply (composeRewrites_generators (Rewrite0 genA genB) (Rewrite0 genB genA));
    reflexivity.
Defined.

(** C4 as stated fails on a mismatch: the message of the thrown error is a
    constant and names neither of the two ids (here ["Q7"] and ["R9"]). *)
Lemma composeRewrites_mismatch_names_no_id :
  isValidRewrite (Rewrite0 genP genQ) = true /\
  isValidRewrite (Rewrite0 genR genS) = true /\
  Composition.composeRewrites (Rewrite0 genP genQ) (Rewrite0 genR genS) =
  Throw (Error "Generator rewrites are not composable: target/source mismatch") /\
  mentions (g_id genQ)
    "Generator rewrites are not composable: target/source mismatch" = false /\
  mentions (g_id genR)
    "Generator rewrites are not composable: target/source mismatch" = false.
Proof. vm_compute. repeat split. Qed.

(** C10.  Two valid rewrites whose dimensions are both greater than 1
    compose to the left operand, whatever their cones hold. *)
Theorem composeRewrites_higher_dimensions (left right : Rewrite) :
  isValidRewrite left = true -> isValidRewrite right = true ->
  1 < r_dimension left -> 1 < r_dimension right ->
  Composition.composeRewrites left right = Ok left.
Proof.
  intros Hl Hr Hdl Hdr. unfold Composition.composeRewrites.
  rewrite Hl, Hr. cbn [negb orb]. zbool.
Qed.

Lemma composeRewrites_higher_dimensions_witness :
  Composition.composeRewrites sampleRewrite2 sampleRewrite3 = Ok sampleRewrite2.
Proof.
  apply (composeRewrites_higher_dimensions sampleRewrite2 sampleRewrite3);
    [reflexivity | reflexivity | simpl; lia | simpl; lia].
Defined.

(** ** Claims on term reduction *)

Lemma reduceTerms_cancels (A B : Generator) :
  g_id A <> "" -> g_id B <> "" ->
  Normalization.reduceTerms [Rewrite0 A B; Rewrite0 B A] = Ok [].
Proof.
  intros HA HB. apply isValidGenerator_id in HA, HB.
  unfold Normalization.reduceTerms. simpl. rewrite HA, HB. simpl.
  repeat case_bool_decide; simpl;
    unfold Normalization.areInverses; simpl;
    by rewrite !bool_decide_eq_true_2.
Qed.

(** C9.  For generators [A] and [B] with distinct non-empty ids,
    [reduceTerms] applied to [[generatorRewrite(A,B), generatorRewrite(B,A)]]
    returns the empty list. *)
Theorem reduceTerms_inverse_pair (A B : Generator) :
  g_id A <> "" -> g_id B <> "" -> g_id A <> g_id B ->
  Normalization.reduceTerms [createGeneratorRewrite A B; createGeneratorRewrite B A] = Ok [].
Proof. intros HA HB _. by apply reduceTerms_cancels. Qed.

Lemma reduceTerms_inverse_pair_witness :
  Normalization.reduceTerms
    [createGeneratorRewrite genA genB; createGeneratorRewrite genB genA] = Ok [].
Proof. apply (reduceTerms_inverse_pair genA genB); vm_compute; discriminate. Defined.

(** ** The insertion-ordered map *)

Lemma JsMap_get_elem {V} (m : JsMap.t V) k v :
  JsMap.get m k = Some v -> (k, v) ∈ m.
Proof.
  induction m as [|[k' v'] m IH]; simpl; [done|].
  case_bool_decide as Hk.
  - intros [= ->]. subst. left.
  - intros H. right. auto.
Qed.

Lemma JsMap_get_None {V} (m : JsMap.t V) k :
  k ∉ JsMap.keys m -> JsMap.get m k = None.
Proof.
  induction m as [|[k' v'] m IH]; simpl; [done|]. intros Hk.
  apply not_elem_of_cons in Hk as [Hne Hk].
  rewrite bool_decide_eq_false_2 by done. auto.
Qed.

Lemma JsMap_get_NoDup {V} (m : JsMap.t V) k v :
  NoDup (JsMap.keys m) -> (k, v) ∈ m -> JsMap.get m k = Some v.
Proof.
  induction m as [|[k' v'] m IH]; simpl; intros Hnd Hin.
  - by apply elem_of_nil in Hin.
  - apply NoDup_cons in Hnd as [Hk' Hnd].
    apply elem_of_cons in Hin as [[= -> ->]|Hin].
    + by rewrite bool_decide_eq_true_2.
    + rewrite bool_decide_eq_false_2; [auto|].
      intros ->. apply Hk'. unfold JsMap.keys.
      apply list_elem_of_fmap. by exists (k, v).
Qed.

Lemma JsMap_set_fresh {V} (m : JsMap.t V) k v :
  k ∉ JsMap.keys m -> JsMap.set m k v = m ++ [(k, v)].
Proof.
  induction m as [|[k' v'] m IH]; simpl; [done|]. intros Hk.
  apply not_elem_of_cons in Hk as [Hne Hk].
  rewrite bool_decide_eq_false_2 by done. by rewrite IH.
Qed.

(** Two maps with the same entries in different orders answer every lookup
    alike. *)
Lemma JsMap_get_Permutation {V} (m m' : JsMap.t V) k :
  NoDup (JsMap.keys m) -> m ≡ₚ m' -> JsMap.get m k = JsMap.get m' k.
Proof.
  intros Hnd Hp.
  assert (NoDup (JsMap.keys m')) as Hnd'.
  { unfold JsMap.keys in *. by rewrite <- Hp. }
  destruct (JsMap.get m k) as [v|] eqn:Hg.
  - symmetry. apply JsMap_get_NoDup; [done|].
    rewrite <- Hp. by apply JsMap_get_elem.
  - symmetry. apply JsMap_get_None. intros Hin.
    unfold JsMap.keys in Hin. rewrite <- Hp in Hin.
    apply list_elem_of_fmap in Hin as ([k' v] & -> & Hin).
    apply (JsMap_get_NoDup _ _ _ Hnd) in Hin. simpl in Hg. congruence.
Qed.

(** ** The validation pass *)

Lemma validateEach_appends d axioms report :
  NoDup (JsMap.keys (Validation.axiomResults report) ++ map a_id axioms) ->
  Validation.axiomResults (Validation.validateEach d axioms report) =
  Validation.axiomResults report ++ map (entryOf d) axioms.
Proof.
  revert report. induction axioms as [|a axioms IH]; intros report Hnd; simpl.
  - by rewrite app_nil_r.
  - destruct (Validation.runAxiom d a) as [errors warnings] eqn:Hrun.
    apply NoDup_app in Hnd as (Hr & Hdisj & Ha).
    apply NoDup_cons in Ha as [Ha Has].
    assert (a_id a ∉ JsMap.keys (Validation.axiomResults report)) as Hfresh.
    { intros Hin. apply (Hdisj _ Hin). left. }
    rewrite IH; simpl; rewrite JsMap_set_fresh by done.
    + unfold entryOf at 2. rewrite Hrun. by rewrite <- app_assoc.
    + unfold JsMap.keys. rewrite fmap_app. simpl. rewrite <- app_assoc. simpl.
      apply NoDup_app. split; [done|]. split.
      * intros k Hk Hin. apply (Hdisj _ Hk). done.
      * by apply NoDup_cons.
Qed.

Lemma validateEach_entries d axioms :
  NoDup (map a_id axioms) ->
  Validation.axiomResults (Validation.validateEach d axioms (Validation.newReport d)) =
  map (entryOf d) axioms.
Proof. intros Hnd. by rewrite validateEach_appends. Qed.

Lemma keys_entries d axioms :
  JsMap.keys (map (entryOf d) axioms) = map a_id axioms.
Proof. unfold JsMap.keys. by rewrite <- list_fmap_compose. Qed.

Lemma registry_ids registry :
  registryOk registry ->
  map a_id (Validation.getAllAxioms registry) = JsMap.keys registry.
Proof.
  intros [_ Hk]. unfold Validation.getAllAxioms, JsMap.values, JsMap.keys.
  induction Hk as [|[k a] m Hka _ IH]; simpl in *; [done|]. by rewrite IH, Hka.
Qed.

Lemma register_ok registry axiom :
  registryOk registry -> a_id axiom ∉ JsMap.keys registry ->
  Validation.register registry axiom = Ok (registry ++ [(a_id axiom, axiom)]) /\
  registryOk (registry ++ [(a_id axiom, axiom)]).
Proof.
  intros [Hnd Hk] Hfresh. unfold Validation.register, JsMap.has.
  rewrite JsMap_get_None by done. rewrite JsMap_set_fresh by done.
  split; [done|]. split.
  - unfold JsMap.keys in *. rewrite fmap_app. simpl.
    apply NoDup_app. split; [done|]. split.
    + intros k Hin Hk'. apply list_elem_of_singleton in Hk' as ->. done.
    + apply NoDup_singleton.
  - apply Forall_app. split; [done|]. by constructor.
Qed.

Lemma registerAll_appends axioms registry :
  registryOk registry -> NoDup (JsMap.keys registry ++ map a_id axioms) ->
  exists registry',
    registerAll registry axioms = Ok registry' /\ registryOk registry' /\
    Validation.getAllAxioms registry' = Validation.getAllAxioms registry ++ axioms.
Proof.
  revert registry. induction axioms as [|a axioms IH]; intros registry Hok Hnd; simpl.
  - exists registry. by rewrite app_nil_r.
  - apply NoDup_app in Hnd as (Hr & Hdisj & Ha).
    apply NoDup_cons in Ha as [Ha Has].
    assert (a_id a ∉ JsMap.keys registry) as Hfresh.
    { intros Hin. apply (Hdisj _ Hin). left. }
    destruct (register_ok registry a Hok Hfresh) as [-> Hok'].
    destruct (IH (registry ++ [(a_id a, a)]) Hok') as (r' & Hr' & Hokr' & Hall).
    + unfold JsMap.keys. rewrite fmap_app. simpl. rewrite <- app_assoc. simpl.
      apply NoDup_app. split; [done|]. split.
      * intros k Hk Hin. apply (Hdisj _ Hk). done.
      * by apply NoDup_cons.
    + exists r'. simpl. split; [done|]. split; [done|].
      rewrite Hall. unfold Validation.getAllAxioms, JsMap.values.
      rewrite map_app. simpl. by rewrite <- app_assoc.
Qed.

Lemma registerAll_fresh axioms :
  NoDup (map a_id axioms) ->
  exists registry,
    registerAll Validation.newRegistry axioms = Ok registry /\ registryOk registry /\
    Validation.getAllAxioms registry = axioms.
Proof.
  intros Hnd. apply (registerAll_appends axioms Validation.newRegistry); [|done].
  split; [apply NoDup_nil_2|constructor].
Qed.

Lemma validateAllAxioms_entries d registry :
  registryOk registry -> isValidDiagram d = true ->
  Validation.axiomResults (Validation.validateAllAxioms d registry) =
  map (entryOf d) (Validation.getAllAxioms registry).
Proof.
  intros Hok Hv. unfold Validation.validateAllAxioms. rewrite Hv. simpl.
  apply validateEach_entries. rewrite registry_ids by done. apply Hok.
Qed.

Lemma getAxiomResult_registered d registry axiom :
  registryOk registry -> isValidDiagram d = true ->
  axiom ∈ Validation.getAllAxioms registry ->
  Validation.getAxiomResult (Validation.validateAllAxioms d registry) (a_id axiom) =
  Some (Validation.runAxiom d axiom).
Proof.
  intros Hok Hv Hin. unfold Validation.getAxiomResult.
  rewrite validateAllAxioms_entries by done.
  apply JsMap_get_NoDup.
  - rewrite keys_entries, registry_ids by done. apply Hok.
  - apply list_elem_of_fmap. by exists axiom.
Qed.

(** C7.  On a structurally valid diagram, when the validator of a
    registered axiom throws, the report holds under that axiom's id exactly
    one error, the [AXIOM_VALIDATION_ERROR] that names the axiom, and no
    warning; every other registered axiom is still validated, and under its
    id the report holds the errors and the warnings its validator returned;
    the report has one entry per registered axiom, in registration order. *)
Theorem validateAllAxioms_isolates_throwing_validator
        (d : Diagram) (registry : Validation.AxiomRegistry) (bad : NPRAxiom) (e : thrown) :
  registryOk registry ->
  isValidDiagram d = true ->
  bad ∈ Validation.getAllAxioms registry ->
  a_validator bad d = Throw e ->
  Validation.getAxiomResult (Validation.validateAllAxioms d registry) (a_id bad) =
    Some ([mkValidationError "AXIOM_VALIDATION_ERROR"
             ("Error validating axiom " +:+ a_id bad +:+ ": " +:+ messageOf e)
             sev_error None], []) /\
  (forall other results,
      other ∈ Validation.getAllAxioms registry ->
      a_validator other d = Ok results ->
      Validation.getAxiomResult (Validation.validateAllAxioms d registry) (a_id other) =
        Some (errorsOf results, warningsOf results)) /\
  Validation.getValidatedAxioms (Validation.validateAllAxioms d registry) =
    map a_id (Validation.getAllAxioms registry).
Proof.
  intros Hok Hv Hbad Hthrow. split; [|split].
  - rewrite getAxiomResult_registered by done.
    unfold Validation.runAxiom. by rewrite Hthrow.
  - intros other results Hin Hres.
    rewrite getAxiomResult_registered by done.
    unfold Validation.runAxiom. by rewrite Hres.
  - unfold Validation.getValidatedAxioms.
    rewrite validateAllAxioms_entries by done. apply keys_entries.
Qed.

Lemma validateAllAxioms_isolates_throwing_validator_witness :
  Validation.getAxiomResult (Validation.validateAllAxioms sampleDiagram sampleRegistry)
                            (a_id throwingAxiom) =
    Some ([mkValidationError "AXIOM_VALIDATION_ERROR"
             ("Error validating axiom " +:+ a_id throwingAxiom +:+ ": " +:+
              messageOf (Error "boom"))
             sev_error None], []) /\
  (forall other results,
      other ∈ Validation.getAllAxioms sampleRegistry ->
      a_validator other sampleDiagram = Ok results ->
      Validation.getAxiomResult (Validation.validateAllAxioms sampleDiagram sampleRegistry)
                                (a_id other) =
        Some (errorsOf results, warningsOf results)) /\
  Validation.getValidatedAxioms (Validation.validateAllAxioms sampleDiagram sampleRegistry) =
    map a_id (Validation.getAllAxioms sampleRegistry).
Proof.
  apply (validateAllAxioms_isolates_throwing_validator
           sampleDiagram sampleRegistry throwingAxiom (Error "boom")).
  - split.
    + apply (bool_decide_unpack _). vm_compute. exact I.
    + repeat constructor.
  - reflexivity.
  - apply list_elem_of_further, list_elem_of_here.
  - reflexivity.
Defined.

(** ** Ordering the axioms *)

Lemma byCategory_Permutation axioms :
  byCategory cat_structural axioms ++ byCategory cat_cartesian axioms ++
  byCategory cat_cocartesian axioms ≡ₚ axioms.
Proof.
  unfold byCategory. induction axioms as [|a axioms IH]; simpl; [done|].
  destruct (a_category a); simpl.
  - by rewrite IH.
  - rewrite <- Permutation_middle. by rewrite IH.
  - rewrite app_assoc, <- Permutation_middle, <- app_assoc. by rewrite IH.
Qed.

Lemma concat_fmap_Permutation {A B} (f : A -> list B) l l' :
  l ≡ₚ l' -> concat (map f l) ≡ₚ concat (map f l').
Proof.
  induction 1 as [|x l l' _ IH|x y l|l l' l'' _ IH _ IH']; simpl.
  - done.
  - by rewrite IH.
  - rewrite !app_assoc. by rewrite (Permutation_app_comm (f y)).
  - by rewrite IH.
Qed.

Lemma optimizeValidationOrder_valid axioms d :
  isValidDiagram d = true ->
  Validation.optimizeValidationOrder axioms d =
  Ok (byCategory cat_structural axioms ++
      if bool_decide (d_dimension d = 0) && Validation.isCocartesianDiagram d
      then byCategory cat_cocartesian axioms ++ byCategory cat_cartesian axioms
      else byCategory cat_cartesian axioms ++ byCategory cat_cocartesian axioms).
Proof.
  intros Hv. unfold Validation.optimizeValidationOrder.
  destruct d as [g|n s cs].
  - simpl in *. rewrite Hv. simpl. by destruct (g_color g) as [[]|].
  - apply isValidDiagram_N in Hv as [Hn Hs]. cbn [d_dimension].
    rewrite bool_decide_eq_false_2 by lia. zbool.
Qed.

(** C8, amended.  On a structurally valid diagram, [optimizeValidationOrder]
    returns the structural axioms first, then the cartesian and the
    cocartesian ones, cocartesian before cartesian exactly when the diagram
    is itself 0-dimensional with a cocartesian generator (a diagram of
    higher dimension gets cartesian before cocartesian whatever its root);
    the result is a permutation of the input; and for axioms with pairwise
    distinct ids, validating with the axioms registered in the new order
    gives, under every axiom id, the same result as in the original order,
    and the same verdict. *)
Theorem optimizeValidationOrder_order_and_results
        (axioms : list NPRAxiom) (d : Diagram) :
  isValidDiagram d = true ->
  exists ordered,
    Validation.optimizeValidationOrder axioms d = Ok ordered /\
    (d_dimension d = 0 -> Validation.isCocartesianDiagram d = true ->
     ordered = byCategory cat_structural axioms ++
               byCategory cat_cocartesian axioms ++ byCategory cat_cartesian axioms) /\
    (d_dimension d = 0 -> Validation.isCocartesianDiagram d = false ->
     ordered = byCategory cat_structural axioms ++
               byCategory cat_cartesian axioms ++ byCategory cat_cocartesian axioms) /\
    (0 < d_dimension d ->
     ordered = byCategory cat_structural axioms ++
               byCategory cat_cartesian axioms ++ byCategory cat_cocartesian axioms) /\
    ordered ≡ₚ axioms /\
    (NoDup (map a_id axioms) ->
     exists registry registry',
       registerAll Validation.newRegistry axioms = Ok registry /\
       registerAll Validation.newRegistry ordered = Ok registry' /\
       (forall id,
           Validation.getAxiomResult (Validation.validateAllAxioms d registry') id =
           Validation.getAxiomResult (Validation.validateAllAxioms d registry) id) /\
       Validation.isValid (Validation.validateAllAxioms d registry') =
       Validation.isValid (Validation.validateAllAxioms d registry)).
Proof.
  intros Hv.
  pose proof (optimizeValidationOrder_valid axioms d Hv) as Hopt.
  set (ordered := byCategory cat_structural axioms ++
      if bool_decide (d_dimension d = 0) && Validation.isCocartesianDiagram d
      then byCategory cat_cocartesian axioms ++ byCategory cat_cartesian axioms
      else byCategory cat_cartesian axioms ++ byCategory cat_cocartesian axioms) in *.
  assert (ordered ≡ₚ axioms) as Hperm.
  { etrans; [|apply byCategory_Permutation]. subst ordered.
    destruct (_ && _); [|done].
    apply Permutation_app_head, Permutation_app_comm. }
  exists ordered.
  split; [done|]. split; [|split; [|split; [|split; [done|]]]].
  - intros Hd Hc. subst ordered. by rewrite Hc, bool_decide_eq_true_2.
  - intros Hd Hc. subst ordered. by rewrite Hc, andb_false_r.
  - intros Hd. subst ordered. by rewrite bool_decide_eq_false_2 by lia.
  - intros Hnd.
    assert (NoDup (map a_id ordered)) as Hnd' by (by rewrite Hperm).
    destruct (registerAll_fresh axioms Hnd) as (registry & Hreg & Hok & Hall).
    destruct (registerAll_fresh ordered Hnd') as (registry' & Hreg' & Hok' & Hall').
    exists registry, registry'. split; [done|]. split; [done|].
    assert (Validation.axiomResults (Validation.validateAllAxioms d registry') ≡ₚ
            Validation.axiomResults (Validation.validateAllAxioms d registry)) as Hres.
    { rewrite !validateAllAxioms_entries, Hall, Hall' by done. by rewrite Hperm. }
    split.
    + intros id. unfold Validation.getAxiomResult.
      apply JsMap_get_Permutation; [|done].
      rewrite validateAllAxioms_entries, Hall', keys_entries by done. done.
    + unfold Validation.isValid, Validation.getAllErrors, JsMap.values.
      rewrite <- !list_fmap_compose.
      by rewrite (Permutation_length (concat_fmap_Permutation _ _ _ Hres)).
Qed.

Lemma optimizeValidationOrder_order_and_results_witness :
  exists ordered,
    Validation.optimizeValidationOrder
      [cocartesianSample; throwingAxiom; noisyAxiom; cartesianSample] sampleDiagram =
      Ok ordered /\
    ordered = [noisyAxiom; throwingAxiom; cartesianSample; cocartesianSample] /\
    ordered ≡ₚ [cocartesianSample; throwingAxiom; noisyAxiom; cartesianSample] /\
    exists registry registry',
      registerAll Validation.newRegistry
        [cocartesianSample; throwingAxiom; noisyAxiom; cartesianSample] = Ok registry /\
      registerAll Validation.newRegistry ordered = Ok registry' /\
      (forall id,
          Validation.getAxiomResult (Validation.validateAllAxioms sampleDiagram registry') id =
          Validation.getAxiomResult (Validation.validateAllAxioms sampleDiagram registry) id) /\
      Validation.isValid (Validation.validateAllAxioms sampleDiagram registry') =
      Validation.isValid (Validation.validateAllAxioms sampleDiagram registry).
Proof.
  destruct (optimizeValidationOrder_order_and_results
              [cocartesianSample; throwingAxiom; noisyAxiom; cartesianSample]
              sampleDiagram)
    as (ordered & Hopt & _ & _ & Hord & Hperm & Hres).
  - reflexivity.
  - exists ordered. split; [done|]. split; [|split; [done|]].
    + apply Hord. simpl. lia.
    + apply Hres. apply (bool_decide_unpack _). vm_compute. exact I.
Defined.

(** C8 as stated fails for a diagram of higher dimension whose root is
    cocartesian: the cartesian axiom is still placed before the
    cocartesian one.  And when two axioms of the list share an id, the
    validation loop keeps the result of the later one, so the new order
    can change the verdict. *)
Lemma optimizeValidationOrder_not_as_claimed :
  (isValidDiagram cocartesianTower = true /\
   Validation.isCocartesianDiagram cocartesianTower = true /\
   Validation.optimizeValidationOrder
     [cocartesianSample; noisyAxiom; cartesianSample] cocartesianTower =
   Ok [noisyAxiom; cartesianSample; cocartesianSample]) /\
  (Validation.optimizeValidationOrder [dupCartesian; dupStructural] sampleDiagram =
   Ok [dupStructural; dupCartesian] /\
   Validation.isValid
     (Validation.validateEach sampleDiagram [dupCartesian; dupStructural]
        (Validation.newReport sampleDiagram)) = true /\
   Validation.isValid
     (Validation.validateEach sampleDiagram [dupStructural; dupCartesian]
        (Validation.newReport sampleDiagram)) = false).
Proof. repeat split. Qed.

(** ** The validators on self-referential and on tree-shaped values *)

Lemma heap_isValidDiagram_S fuel h diagram :
  Heap.isValidDiagram (S fuel) h diagram =
  if Heap.notAnObject diagram then Some false
  else
    match Heap.get h diagram "dimension" with
    | Heap.VNumber dimension =>
        if dimension =? 0
        then Some (Heap.isValidGenerator h (Heap.get h diagram "generator"))
        else if dimension <? 0 then Some false
        else
          match Heap.isValidDiagram fuel h (Heap.get h diagram "source") with
          | None => None
          | Some false => Some false
          | Some true =>
              match Heap.asArray h (Heap.get h diagram "cospans") with
              | None => Some false
              | Some _ => Some true
              end
          end
    | _ => Some false
    end.
Proof. reflexivity. Qed.

Lemma heap_isValidRewrite_S fuel h rewrite :
  Heap.isValidRewrite (S fuel) h rewrite =
  if Heap.notAnObject rewrite then Some false
  else
    match Heap.get h rewrite "dimension" with
    | Heap.VNumber dimension =>
        if dimension =? 0 then
          Some (Heap.isValidGenerator h (Heap.get h rewrite "source") &&
                Heap.isValidGenerator h (Heap.get h rewrite "target"))
        else if dimension =? 1 then
          Some (match Heap.get h rewrite "identity" with
                | Heap.VBool true => true
                | _ => false
                end)
        else if dimension <? 0 then Some false
        else
          match Heap.asArray h (Heap.get h rewrite "cones") with
          | None => Some false
          | Some cones => Heap.every (Heap.isValidCone fuel h) cones
          end
    | _ => Some false
    end.
Proof. reflexivity. Qed.

Lemma heap_isValidCospan_S fuel h cospan :
  Heap.isValidCospan (S fuel) h cospan =
  if Heap.notAnObject cospan then Some false
  else
    match Heap.isValidRewrite fuel h (Heap.get h cospan "forward") with
    | None => None
    | Some false => Some false
    | Some true => Heap.isValidRewrite fuel h (Heap.get h cospan "backward")
    end.
Proof. reflexivity. Qed.

Lemma heap_isValidCone_S fuel h cone :
  Heap.isValidCone (S fuel) h cone =
  if Heap.notAnObject cone then Some false
  else
    match Heap.get h cone "index" with
    | Heap.VNumber index =>
        if index <? 0 then Some false
        else
          match Heap.asArray h (Heap.get h cone "source") with
          | None => Some false
          | Some source =>
              match Heap.isValidCospan fuel h (Heap.get h cone "target") with
              | None => None
              | Some false => Some false
              | Some true =>
                  match Heap.asArray h (Heap.get h cone "slices") with
                  | None => Some false
                  | Some slices =>
                      match Heap.every (Heap.isValidCospan fuel h) source with
                      | None => None
                      | Some false => Some false
                      | Some true => Heap.every (Heap.isValidRewrite fuel h) slices
                      end
                  end
              end
          end
    | _ => Some false
    end.
Proof. reflexivity. Qed.

(** On the self-sourced diagram every call of [isValidDiagram] makes one
    more call on the same object: no depth of nested calls is enough. *)
Lemma isValidDiagram_selfSourced fuel :
  Heap.isValidDiagram fuel Heap.selfSourced (Heap.VRef 0) = None.
Proof.
  induction fuel as [|fuel IH]; [done|].
  rewrite heap_isValidDiagram_S.
  change (Heap.notAnObject (Heap.VRef 0)) with false. cbv iota.
  replace (Heap.get Heap.selfSourced (Heap.VRef 0) "dimension")
    with (Heap.VNumber 1) by (vm_compute; reflexivity).
  replace (Heap.get Heap.selfSourced (Heap.VRef 0) "source")
    with (Heap.VRef 0) by (vm_compute; reflexivity).
  change (1 =? 0) with false. change (1 <? 0) with false. cbv iota.
  by rewrite IH.
Qed.

Lemma isValidCospan_selfSliced_target fuel :
  Heap.isValidCospan fuel Heap.selfSliced
    (Heap.get Heap.selfSliced (Heap.VRef 2) "target") <> Some false.
Proof.
  replace (Heap.get Heap.selfSliced (Heap.VRef 2) "target")
    with (Heap.VRef 4) by (vm_compute; reflexivity).
  destruct fuel as [|[|fuel]]; [done|done|].
  rewrite heap_isValidCospan_S.
  change (Heap.notAnObject (Heap.VRef 4)) with false. cbv iota.
  replace (Heap.get Heap.selfSliced (Heap.VRef 4) "forward")
    with (Heap.VRef 5) by (vm_compute; reflexivity).
  replace (Heap.get Heap.selfSliced (Heap.VRef 4) "backward")
    with (Heap.VRef 5) by (vm_compute; reflexivity).
  rewrite heap_isValidRewrite_S.
  change (Heap.notAnObject (Heap.VRef 5)) with false. cbv iota.
  replace (Heap.get Heap.selfSliced (Heap.VRef 5) "dimension")
    with (Heap.VNumber 1) by (vm_compute; reflexivity).
  replace (Heap.get Heap.selfSliced (Heap.VRef 5) "identity")
    with (Heap.VBool true) by (vm_compute; reflexivity).
  done.
Qed.

Lemma isValidRewrite_selfSliced fuel :
  Heap.isValidRewrite fuel Heap.selfSliced (Heap.VRef 0) = None.
Proof.
  induction fuel as [fuel IH] using lt_wf_ind.
  destruct fuel as [|f1]; [done|].
  rewrite heap_isValidRewrite_S.
  change (Heap.notAnObject (Heap.VRef 0)) with false. cbv iota.
  replace (Heap.get Heap.selfSliced (Heap.VRef 0) "dimension")
    with (Heap.VNumber 2) by (vm_compute; reflexivity).
  replace (Heap.asArray Heap.selfSliced (Heap.get Heap.selfSliced (Heap.VRef 0) "cones"))
    with (Some [Heap.VRef 2]) by (vm_compute; reflexivity).
  change (2 =? 0) with false. change (2 =? 1) with false.
  change (2 <? 0) with false. cbv iota.
  cut (Heap.isValidCone f1 Heap.selfSliced (Heap.VRef 2) = None);
    [intros Hcone; simpl; by rewrite Hcone|].
  destruct f1 as [|f2]; [done|].
  rewrite heap_isValidCone_S.
  change (Heap.notAnObject (Heap.VRef 2)) with false. cbv iota.
  replace (Heap.get Heap.selfSliced (Heap.VRef 2) "index")
    with (Heap.VNumber 0) by (vm_compute; reflexivity).
  replace (Heap.asArray Heap.selfSliced (Heap.get Heap.selfSliced (Heap.VRef 2) "source"))
    with (Some (@nil Heap.value)) by (vm_compute; reflexivity).
  replace (Heap.asArray Heap.selfSliced (Heap.get Heap.selfSliced (Heap.VRef 2) "slices"))
    with (Some [Heap.VRef 0]) by (vm_compute; reflexivity).
  change (0 <? 0) with false. cbv iota.
  pose proof (isValidCospan_selfSliced_target f2) as Htarget.
  destruct (Heap.isValidCospan f2 Heap.selfSliced
              (Heap.get Heap.selfSliced (Heap.VRef 2) "target")) as [[]|]; [|done|done].
  simpl. by rewrite IH by lia.
Qed.

Section AcyclicHeap.
Variables (h : Heap.heap) (rank : nat -> nat).
Hypothesis tree : Heap.acyclic h rank.

Lemma rank_get a prop :
  (Heap.rankOf rank (Heap.get h (Heap.VRef a) prop) <= rank a)%nat.
Proof.
  unfold Heap.get. destruct (h !! a) as [[fields|elements]|] eqn:Ha; simpl; try lia.
  destruct (fields !! prop) as [v|] eqn:Hp; simpl; [|lia].
  destruct v as [| | | | |r]; simpl; try lia.
  apply Nat.le_succ_l, (tree a (Heap.Obj fields) r Ha).
  unfold Heap.refsOf. apply list_elem_of_omap. exists (Heap.VRef r). split; [|done].
  apply list_elem_of_fmap. exists (prop, Heap.VRef r). split; [done|].
  by apply elem_of_map_to_list.
Qed.

Lemma rank_elements v elements x :
  Heap.asArray h v = Some elements -> x ∈ elements ->
  (Heap.rankOf rank x < Heap.rankOf rank v)%nat.
Proof.
  destruct v as [| | | | |a]; try done. simpl.
  destruct (h !! a) as [[fields|els]|] eqn:Ha; try done.
  intros [= ->] Hx. destruct x as [| | | | |r]; simpl; try lia.
  apply ->Nat.succ_lt_mono. apply (tree a (Heap.Arr elements) r Ha).
  unfold Heap.refsOf. apply list_elem_of_omap. by exists (Heap.VRef r).
Qed.

Lemma every_total (callback : Heap.value -> option bool) l :
  (forall x, x ∈ l -> exists b, callback x = Some b) ->
  exists b, Heap.every callback l = Some b.
Proof.
  induction l as [|x l IH]; intros Hl; simpl; [eauto|].
  destruct (Hl x) as [[] ->]; [left| |eauto].
  apply IH. intros y Hy. apply Hl. by right.
Qed.

Lemma isValidDiagram_total n v :
  (Heap.rankOf rank v <= n)%nat ->
  exists b, Heap.isValidDiagram (S n) h v = Some b.
Proof.
  revert v. induction n as [|n IH]; intros v Hr; rewrite heap_isValidDiagram_S.
  - destruct v; simpl in *; eauto. lia.
  - destruct v as [| | | | |a]; simpl Heap.notAnObject; cbv iota; eauto.
    destruct (Heap.get h (Heap.VRef a) "dimension"); eauto.
    destruct (_ =? 0); [eauto|]. destruct (_ <? 0); [eauto|].
    destruct (IH (Heap.get h (Heap.VRef a) "source")) as [[] ->].
    + pose proof (rank_get a "source"). simpl in Hr. lia.
    + destruct (Heap.asArray _ _); eauto.
    + eauto.
Qed.

Lemma isValidRewrite_total n :
  (forall v, (Heap.rankOf rank v <= n)%nat ->
             exists b, Heap.isValidRewrite (S n) h v = Some b) /\
  (forall v, (Heap.rankOf rank v <= n)%nat ->
             exists b, Heap.isValidCospan (S n) h v = Some b) /\
  (forall v, (Heap.rankOf rank v <= n)%nat ->
             exists b, Heap.isValidCone (S n) h v = Some b).
Proof.
  induction n as [|n (IHr & IHs & IHc)].
  - repeat split; intros v Hr; destruct v; simpl in *; eauto; lia.
  - repeat split; intros v Hr; destruct v as [| | | | |a];
      try (simpl; eauto; fail); simpl in Hr.
    + rewrite heap_isValidRewrite_S. simpl Heap.notAnObject. cbv iota.
      destruct (Heap.get h (Heap.VRef a) "dimension"); eauto.
      destruct (_ =? 0); [eauto|]. destruct (_ =? 1); [eauto|].
      destruct (_ <? 0); [eauto|].
      destruct (Heap.asArray h _) as [cones|] eqn:Hcones; [|eauto].
      apply every_total. intros x Hx. apply IHc.
      pose proof (rank_elements _ _ _ Hcones Hx).
      pose proof (rank_get a "cones"). lia.
    + rewrite heap_isValidCospan_S. simpl Heap.notAnObject. cbv iota.
      destruct (IHr (Heap.get h (Heap.VRef a) "forward")) as [[] ->]; [| |eauto].
      * pose proof (rank_get a "forward"). lia.
      * apply IHr. pose proof (rank_get a "backward"). lia.
    + rewrite heap_isValidCone_S. simpl Heap.notAnObject. cbv iota.
      destruct (Heap.get h (Heap.VRef a) "index"); eauto.
      destruct (_ <? 0); [eauto|].
      destruct (Heap.asArray h (Heap.get h (Heap.VRef a) "source"))
        as [source|] eqn:Hsource; [|eauto].
      destruct (IHs (Heap.get h (Heap.VRef a) "target")) as [[] ->]; [| |eauto].
      * pose proof (rank_get a "target"). lia.
      * destruct (Heap.asArray h (Heap.get h (Heap.VRef a) "slices"))
          as [slices|] eqn:Hslices; [|eauto].
        destruct (every_total (Heap.isValidCospan (S n) h) source) as [[] ->];
          [| |eauto].
        -- intros x Hx. apply IHs.
           pose proof (rank_elements _ _ _ Hsource Hx).
           pose proof (rank_get a "source"). lia.
        -- apply every_total. intros x Hx. apply IHr.
           pose proof (rank_elements _ _ _ Hslices Hx).
           pose proof (rank_get a "slices"). lia.
Qed.

End AcyclicHeap.

Lemma acyclic_by_entries (h : Heap.heap) (rank : nat -> nat) :
  Forall (fun entry => Forall (fun r => (rank r < rank entry.1)%nat)
                              (Heap.refsOf entry.2))
         (map_to_list h) ->
  Heap.acyclic h rank.
Proof.
  intros Hall a o r Ha Hr.
  apply elem_of_map_to_list in Ha.
  rewrite Forall_forall in Hall. specialize (Hall _ Ha). simpl in Hall.
  rewrite Forall_forall in Hall. by apply Hall.
Qed.

(** More depth never changes an answer: what a validator returns does not
    depend on the bound. *)
Lemma every_mono (f g : Heap.value -> option bool) l b :
  (forall x c, f x = Some c -> g x = Some c) ->
  Heap.every f l = Some b -> Heap.every g l = Some b.
Proof.
  intros Hfg. induction l as [|x l IH]; simpl; [done|].
  destruct (f x) as [[]|] eqn:Hx; [| |done]; rewrite (Hfg _ _ Hx); auto.
Qed.

Lemma isValidDiagram_mono h fuel fuel' v b :
  Heap.isValidDiagram fuel h v = Some b -> (fuel <= fuel')%nat ->
  Heap.isValidDiagram fuel' h v = Some b.
Proof.
  revert fuel' v b. induction fuel as [|fuel IH]; intros fuel' v b H Hle; [done|].
  destruct fuel' as [|fuel']; [lia|].
  rewrite heap_isValidDiagram_S in *.
  destruct (Heap.notAnObject v); [done|].
  destruct (Heap.get h v "dimension"); try done.
  destruct (_ =? 0); [done|]. destruct (_ <? 0); [done|].
  destruct (Heap.isValidDiagram fuel h _) as [c|] eqn:Hs; [|done].
  by rewrite (IH fuel' _ c Hs) by lia.
Qed.

Lemma isValidRewrite_mono h fuel :
  (forall fuel' v b, Heap.isValidRewrite fuel h v = Some b -> (fuel <= fuel')%nat ->
                     Heap.isValidRewrite fuel' h v = Some b) /\
  (forall fuel' v b, Heap.isValidCospan fuel h v = Some b -> (fuel <= fuel')%nat ->
                     Heap.isValidCospan fuel' h v = Some b) /\
  (forall fuel' v b, Heap.isValidCone fuel h v = Some b -> (fuel <= fuel')%nat ->
                     Heap.isValidCone fuel' h v = Some b).
Proof.
  induction fuel as [|fuel (IHr & IHs & IHc)]; [done|].
  split; [|split]; intros [|fuel'] v b H Hle; try lia.
  - rewrite heap_isValidRewrite_S in *.
    destruct (Heap.notAnObject v); [done|].
    destruct (Heap.get h v "dimension"); try done.
    destruct (_ =? 0); [done|]. destruct (_ =? 1); [done|].
    destruct (_ <? 0); [done|].
    destruct (Heap.asArray h _); [|done].
    eapply every_mono; [|done]. intros x c Hx. apply IHc; [done|lia].
  - rewrite heap_isValidCospan_S in *.
    destruct (Heap.notAnObject v); [done|].
    destruct (Heap.isValidRewrite fuel h _) as [c|] eqn:Hf; [|done].
    rewrite (IHr fuel' _ c Hf) by lia.
    destruct c; [|done]. apply IHr; [done|lia].
  - rewrite heap_isValidCone_S in *.
    destruct (Heap.notAnObject v); [done|].
    destruct (Heap.get h v "index"); try done.
    destruct (_ <? 0); [done|].
    destruct (Heap.asArray h (Heap.get h v "source")) as [source|]; [|done].
    destruct (Heap.isValidCospan fuel h _) as [c|] eqn:Ht; [|done].
    rewrite (IHs fuel' _ c Ht) by lia.
    destruct c; [|done].
    destruct (Heap.asArray h (Heap.get h v "slices")); [|done].
    destruct (Heap.every (Heap.isValidCospan fuel h) source) as [c|] eqn:Hsrc; [|done].
    assert (Heap.every (Heap.isValidCospan fuel' h) source = Some c) as ->.
    { eapply every_mono; [|exact Hsrc]. intros x c' Hx. apply IHs; [done|lia]. }
    destruct c; [|done].
    eapply every_mono; [|done]. intros x c Hx. apply IHr; [done|lia].
Qed.

Lemma diagramReturns_unique h v b b' :
  Heap.diagramReturns h v b -> Heap.diagramReturns h v b' -> b = b'.
Proof.
  intros [f Hf] [f' Hf'].
  apply (isValidDiagram_mono _ _ (f `max` f')%nat) in Hf; [|lia].
  apply (isValidDiagram_mono _ _ (f `max` f')%nat) in Hf'; [|lia].
  congruence.
Qed.

Lemma rewriteReturns_unique h v b b' :
  Heap.rewriteReturns h v b -> Heap.rewriteReturns h v b' -> b = b'.
Proof.
  intros [f Hf] [f' Hf'].
  apply (proj1 (isValidRewrite_mono h f) (f `max` f')%nat) in Hf; [|lia].
  apply (proj1 (isValidRewrite_mono h f') (f `max` f')%nat) in Hf'; [|lia].
  congruence.
Qed.

(** A nested call that a call [demands] has returned, at a smaller depth,
    before the call itself returns. *)
Lemma run_mono h fuel fuel' c b :
  Heap.run fuel h c = Some b -> (fuel <= fuel')%nat -> Heap.run fuel' h c = Some b.
Proof.
  destruct c as [v|v|v|v]; simpl; intros H Hle.
  - by eapply isValidDiagram_mono.
  - by eapply (proj1 (isValidRewrite_mono h fuel)).
  - by eapply (proj1 (proj2 (isValidRewrite_mono h fuel))).
  - by eapply (proj2 (proj2 (isValidRewrite_mono h fuel))).
Qed.

Lemma returns_unique h c b b' :
  Heap.returns h c b -> Heap.returns h c b' -> b = b'.
Proof.
  intros [f Hf] [f' Hf'].
  apply (run_mono _ _ (f `max` f')%nat) in Hf; [|lia].
  apply (run_mono _ _ (f `max` f')%nat) in Hf'; [|lia].
  congruence.
Qed.

Lemma every_reaches h (mk : Heap.value -> Heap.call) fuel before x after b :
  Heap.every (fun v => Heap.run fuel h (mk v)) (before ++ x :: after) = Some b ->
  Forall (fun v => Heap.returns h (mk v) true) before ->
  exists b', Heap.run fuel h (mk x) = Some b'.
Proof.
  induction before as [|y before IH]; simpl; intros H Hall.
  - destruct (Heap.run fuel h (mk x)) as [b'|]; [eauto|done].
  - apply Forall_cons in Hall as [Hy Hall].
    destruct (Heap.run fuel h (mk y)) as [[]|] eqn:Hrun; [by apply IH| |done].
    pose proof (returns_unique h (mk y) _ _ Hy (ex_intro _ fuel Hrun)). done.
Qed.

Lemma every_accepts h (mk : Heap.value -> Heap.call) fuel l b :
  Heap.every (fun v => Heap.run fuel h (mk v)) l = Some b ->
  Forall (fun v => Heap.returns h (mk v) true) l ->
  b = true.
Proof.
  induction l as [|y l IH]; simpl; intros H Hall; [congruence|].
  apply Forall_cons in Hall as [Hy Hall].
  destruct (Heap.run fuel h (mk y)) as [[]|] eqn:Hrun; [by apply IH| |done].
  pose proof (returns_unique h (mk y) _ _ Hy (ex_intro _ fuel Hrun)). done.
Qed.

(** Decides the integer tests of a hypothesis from the context. *)
Ltac zdecide H :=
  repeat match type of H with
         | context [?a =? ?b] =>
             (rewrite (proj2 (Z.eqb_neq a b)) in H by lia) ||
             (rewrite (proj2 (Z.eqb_eq a b)) in H by lia)
         | context [?a <? ?b] =>
             (rewrite (proj2 (Z.ltb_ge a b)) in H by lia) ||
             (rewrite (proj2 (Z.ltb_lt a b)) in H by lia)
         end.

Lemma demands_returns h c c' fuel b :
  Heap.demands h c c' -> Heap.run fuel h c = Some b ->
  exists fuel' b', (fuel' < fuel)%nat /\ Heap.run fuel' h c' = Some b'.
Proof.
  intros Hd Hrun. destruct fuel as [|fuel]; [by destruct c|].
  cut (exists b', Heap.run fuel h c' = Some b');
    [intros [b' Hb']; exists fuel, b'; split; [lia|done]|].
  destruct Hd as [v n Hv Hn Hpos
                 |v n before cone after Hv Hn Hpos Hcones Hbefore
                 |v Hv
                 |v Hv Hforward
                 |v index source Hv Hi Hpos Hsource
                 |v index before cospan after slices Hv Hi Hpos Hsource Htarget Hslices Hbefore
                 |v index source before rewrite after Hv Hi Hpos Hsource Htarget Hslices
                    Hall Hbefore];
    unfold Heap.run in Hrun |- *.
  - rewrite heap_isValidDiagram_S, Hv, Hn in Hrun. zdecide Hrun.
    destruct (Heap.isValidDiagram fuel h _) as [b'|]; [eauto|done].
  - rewrite heap_isValidRewrite_S, Hv, Hn, Hcones in Hrun. zdecide Hrun.
    by apply (every_reaches h Heap.CCone fuel before cone after b).
  - rewrite heap_isValidCospan_S, Hv in Hrun.
    destruct (Heap.isValidRewrite fuel h _) as [b'|]; [eauto|done].
  - rewrite heap_isValidCospan_S, Hv in Hrun.
    destruct (Heap.isValidRewrite fuel h (Heap.get h v "forward")) as [[]|] eqn:Hf;
      [eauto| |done].
    pose proof (returns_unique h _ _ _ Hforward (ex_intro _ fuel Hf)). done.
  - rewrite heap_isValidCone_S, Hv, Hi, Hsource in Hrun. zdecide Hrun.
    destruct (Heap.isValidCospan fuel h _) as [b'|]; [eauto|done].
  - rewrite heap_isValidCone_S, Hv, Hi, Hsource in Hrun. zdecide Hrun.
    destruct (Heap.isValidCospan fuel h (Heap.get h v "target")) as [[]|] eqn:Ht;
      [| |done].
    + rewrite Hslices in Hrun.
      destruct (Heap.every (Heap.isValidCospan fuel h) (before ++ cospan :: after))
        as [b'|] eqn:He; [|done].
      by apply (every_reaches h Heap.CCospan fuel before cospan after b').
    + pose proof (returns_unique h _ _ _ Htarget (ex_intro _ fuel Ht)). done.
  - rewrite heap_isValidCone_S, Hv, Hi, Hsource in Hrun. zdecide Hrun.
    destruct (Heap.isValidCospan fuel h (Heap.get h v "target")) as [[]|] eqn:Ht;
      [| |done].
    + rewrite Hslices in Hrun.
      destruct (Heap.every (Heap.isValidCospan fuel h) source) as [b'|] eqn:He; [|done].
      rewrite (every_accepts h Heap.CCospan fuel source b' He Hall) in Hrun.
      by apply (every_reaches h Heap.CRewrite fuel before rewrite after b).
    + pose proof (returns_unique h _ _ _ Htarget (ex_intro _ fuel Ht)). done.
Qed.

Lemma tc_demands_returns h c c' :
  tc (Heap.demands h) c c' ->
  forall fuel b, Heap.run fuel h c = Some b ->
  exists fuel' b', (fuel' < fuel)%nat /\ Heap.run fuel' h c' = Some b'.
Proof.
  induction 1 as [c c' Hd|c c1 c' Hd _ IH]; intros fuel b Hrun.
  - by eapply demands_returns.
  - destruct (demands_returns _ _ _ _ _ Hd Hrun) as (f1 & b1 & Hlt & H1).
    destruct (IH _ _ H1) as (f2 & b2 & Hlt2 & H2).
    exists f2, b2. split; [lia|done].
Qed.

(** A call that demands itself, directly or through other calls, does not
    return at any depth. *)
Lemma self_demanding_never_returns h c :
  tc (Heap.demands h) c c -> forall fuel, Heap.run fuel h c = None.
Proof.
  intros Hcycle fuel. induction fuel as [fuel IH] using lt_wf_ind.
  destruct (Heap.run fuel h c) as [b|] eqn:Hrun; [|done].
  destruct (tc_demands_returns _ _ _ Hcycle _ _ Hrun) as (f' & b' & Hlt & H').
  rewrite IH in H' by done. done.
Qed.

(** C5, amended.  On a heap without reference cycles (every stored
    reference goes to an object of smaller rank), [isValidDiagram] and
    [isValidRewrite] return a boolean on every value, whatever its shape.
    They keep no bound and no set of visited objects: a call that demands
    itself (a diagram that is reached again along sources of positive
    dimension, a rewrite that is reached again through the parts of its own
    cones) returns nothing at any depth, [false] included; and a diagram of
    dimension 0 is answered by its generator alone, whatever its [source]
    holds. *)
Theorem validators_without_cycle_detection (h : Heap.heap) :
  (forall rank, Heap.acyclic h rank ->
     forall v, (exists b, Heap.diagramReturns h v b) /\
               (exists b, Heap.rewriteReturns h v b)) /\
  (forall c, tc (Heap.demands h) c c -> ~ (exists b, Heap.returns h c b)) /\
  (forall v, Heap.notAnObject v = false ->
             Heap.get h v "dimension" = Heap.VNumber 0 ->
             Heap.diagramReturns h v
               (Heap.isValidGenerator h (Heap.get h v "generator"))).
Proof.
  split; [|split].
  - intros rank Htree v. split.
    + destruct (isValidDiagram_total h rank Htree (Heap.rankOf rank v) v) as [b Hb]; [lia|].
      exists b. by exists (S (Heap.rankOf rank v)).
    + destruct (proj1 (isValidRewrite_total h rank Htree (Heap.rankOf rank v)) v)
        as [b Hb]; [lia|].
      exists b. by exists (S (Heap.rankOf rank v)).
  - intros c Hcycle (b & fuel & Hrun).
    by rewrite (self_demanding_never_returns h c Hcycle) in Hrun.
  - intros v Hv Hn. exists 1%nat. simpl. by rewrite Hv, Hn.
Qed.

Lemma validators_without_cycle_detection_witness :
  ((exists b, Heap.diagramReturns Heap.treeHeap (Heap.VRef 3) b) /\
   (exists b, Heap.rewriteReturns Heap.treeHeap (Heap.VRef 3) b)) /\
  ~ (exists b, Heap.returns Heap.selfSourced (Heap.CDiagram (Heap.VRef 0)) b) /\
  ~ (exists b, Heap.returns Heap.selfSliced (Heap.CRewrite (Heap.VRef 0)) b) /\
  Heap.diagramReturns Heap.selfSourcedPoint (Heap.VRef 0) true.
Proof.
  split; [|split; [|split]].
  - apply (proj1 (validators_without_cycle_detection Heap.treeHeap) (fun a => a)).
    apply acyclic_by_entries. apply (bool_decide_unpack _). vm_compute. exact I.
  - apply (proj1 (proj2 (validators_without_cycle_detection Heap.selfSourced))).
    apply tc_once.
    apply (Heap.demands_source Heap.selfSourced (Heap.VRef 0) 1); [reflexivity|reflexivity|lia].
  - apply (proj1 (proj2 (validators_without_cycle_detection Heap.selfSliced))).
    apply (tc_l _ _ (Heap.CCone (Heap.VRef 2))).
    + apply (Heap.demands_cone Heap.selfSliced (Heap.VRef 0) 2 [] (Heap.VRef 2) []);
        [reflexivity|reflexivity|lia|reflexivity|constructor].
    + apply tc_once.
      apply (Heap.demands_slice Heap.selfSliced (Heap.VRef 2) 0 [] [] (Heap.VRef 0) []);
        [reflexivity|reflexivity|lia|reflexivity| |reflexivity|constructor|constructor].
      exists 3%nat. reflexivity.
  - apply (proj2 (proj2 (validators_without_cycle_detection Heap.selfSourcedPoint))
             (Heap.VRef 0)); reflexivity.
Defined.

(** C5 as stated fails on self-referential values in both directions: on a
    diagram that is its own [source] and on a rewrite that is a slice of its
    own cone the validators make nested calls without end and return
    nothing, [false] included; and a diagram of dimension 0 that is its own
    [source] is accepted as valid. *)
Lemma validators_loop_or_accept_on_cycles :
  ~ (exists b, Heap.diagramReturns Heap.selfSourced (Heap.VRef 0) b) /\
  ~ (exists b, Heap.rewriteReturns Heap.selfSliced (Heap.VRef 0) b) /\
  Heap.get Heap.selfSourcedPoint (Heap.VRef 0) "source" = Heap.VRef 0 /\
  Heap.diagramReturns Heap.selfSourcedPoint (Heap.VRef 0) true.
Proof.
  split; [|split; [|split]].
  - intros (b & fuel & H). simpl in H. by rewrite isValidDiagram_selfSourced in H.
  - intros (b & fuel & H). simpl in H. by rewrite isValidRewrite_selfSliced in H.
  - reflexivity.
  - exists 1%nat. reflexivity.
Qed.

(** ** Scenarios of the specification *)

Example emptyDiagram_id :
  d_generator createEmptyDiagram "id" =
  Ok (mkGenerator "empty" (Some "ε") None).
Proof. reflexivity. Qed.

Example compose_empty_with_generator :
  Composition.composeDiagrams createEmptyDiagram (createGeneratorDiagram genA) =
  Ok (createGeneratorDiagram genA).
Proof. reflexivity. Qed.

Example compose_two_generators :
  Composition.composeDiagrams (createGeneratorDiagram genA) (createGeneratorDiagram genB) =
  Ok (DiagramN 1 (Diagram0 genA)
        [mkCospan (Rewrite0 genA genB) (Rewrite0 genB genA)]).
Proof. reflexivity. Qed.

Example normalize_sampleDiagram :
  Normalization.normalizeDiagram sampleDiagram =
  Ok (DiagramN 2
        (DiagramN 1 (Diagram0 genA)
           [mkCospan (Rewrite0 genA genB) (Rewrite0 genB genA)])
        [mkCospan RewriteI (Rewrite0 genA genB)]).
Proof. reflexivity. Qed.

Example reduceTerms_composes_adjacent :
  Normalization.reduceTerms [Rewrite0 genA genB; RewriteI; Rewrite0 genB genP; RewriteI] =
  Ok [Rewrite0 genA genB; Rewrite0 genB genP].
Proof. reflexivity. Qed.

Example invalid_diagram_report :
  Validation.getAllErrors
    (Validation.validateAllAxioms (Diagram0 (mkGenerator "" None None)) sampleRegistry) =
  [mkValidationError "INVALID_DIAGRAM_STRUCTURE"
     "Diagram does not follow valid zigzag structure" sev_error None].
Proof. reflexivity. Qed.

Example treeHeap_diagram_valid :
  Heap.isValidDiagram 2 Heap.treeHeap (Heap.VRef 3) = Some true.
Proof. vm_compute. reflexivity. Qed.

(** ** The heap validators and the tree validators agree on trees *)

Lemma heap_isValidGenerator_agrees h g v :
  Heap.repGenerator h g v -> Heap.isValidGenerator h v = isValidGenerator g.
Proof.
  intros (Hobj & Hid & Hlabel & Hcolor).
  unfold Heap.isValidGenerator, isValidGenerator.
  rewrite Hobj, Hid, Hlabel, Hcolor.
  case_bool_decide; [done|].
  destruct (g_label g); simpl; destruct (g_color g) as [[]|]; done.
Qed.

Lemma every_agrees {A} (rep : A -> Heap.value -> Prop) (valid : A -> bool)
      (check : nat -> Heap.value -> option bool) xs :
  Forall (fun x => forall v, rep x v ->
            exists fuel, forall fuel', (fuel <= fuel')%nat ->
                                       check fuel' v = Some (valid x)) xs ->
  forall vs, Heap.repAll rep xs vs ->
  exists fuel, forall fuel', (fuel <= fuel')%nat ->
                             Heap.every (check fuel') vs = Some (forallb valid xs).
Proof.
  induction 1 as [|x xs Hx _ IH]; intros vs Hrep; simpl in Hrep.
  - subst. by exists O.
  - destruct vs as [|v vs]; [done|]. destruct Hrep as [Hv Hvs].
    destruct (Hx v Hv) as [f1 Hf1]. destruct (IH vs Hvs) as [f2 Hf2].
    exists (f1 `max` f2)%nat. intros fuel' Hle. simpl.
    rewrite Hf1 by lia. destruct (valid x); simpl; [|done].
    apply Hf2. lia.
Qed.

Lemma heap_rewrite_validators_agree h :
  (forall r v, Heap.repRewrite h r v ->
     exists fuel, forall fuel', (fuel <= fuel')%nat ->
       Heap.isValidRewrite fuel' h v = Some (isValidRewrite r)) /\
  (forall c v, Heap.repCone h c v ->
     exists fuel, forall fuel', (fuel <= fuel')%nat ->
       Heap.isValidCone fuel' h v = Some (isValidCone c)) /\
  (forall c v, Heap.repCospan h c v ->
     exists fuel, forall fuel', (fuel <= fuel')%nat ->
       Heap.isValidCospan fuel' h v = Some (isValidCospan c)).
Proof.
  apply Rewrite_Cone_Cospan_ind.
  - intros s t v (Hobj & Hdim & Hs & Ht). exists 1%nat.
    intros [|fuel'] Hle; [lia|]. rewrite heap_isValidRewrite_S, Hobj, Hdim.
    simpl. by rewrite (heap_isValidGenerator_agrees h s _ Hs),
      (heap_isValidGenerator_agrees h t _ Ht).
  - intros v (Hobj & Hdim & Hid). exists 1%nat.
    intros [|fuel'] Hle; [lia|]. by rewrite heap_isValidRewrite_S, Hobj, Hdim, Hid.
  - intros n cones IH v (Hobj & Hdim & Hsrc & Htgt & Hid & els & Harr & Hels).
    destruct (every_agrees _ isValidCone (fun fuel => Heap.isValidCone fuel h)
                cones IH els Hels) as [f Hf].
    exists (S f). intros [|fuel'] Hle; [lia|].
    rewrite heap_isValidRewrite_S, Hobj, Hdim, Hsrc, Hid, Harr.
    change (isValidRewrite (RewriteN n cones)) with
      (if n =? 0 then false else if n =? 1 then false
       else if n <? 0 then false else forallb isValidCone cones).
    destruct (n =? 0); [done|]. destruct (n =? 1); [done|].
    destruct (n <? 0); [done|]. apply Hf. lia.
  - intros i src tgt sl IHsrc IHtgt IHsl v
           (Hobj & Hidx & (esrc & Hasrc & Hesrc) & Htgt & (esl & Hasl & Hesl)).
    destruct (every_agrees _ isValidCospan (fun fuel => Heap.isValidCospan fuel h)
                src IHsrc esrc Hesrc) as [f1 Hf1].
    destruct (IHtgt _ Htgt) as [f2 Hf2].
    destruct (every_agrees _ isValidRewrite (fun fuel => Heap.isValidRewrite fuel h)
                sl IHsl esl Hesl) as [f3 Hf3].
    exists (S ((f1 `max` f2) `max` f3)). intros [|fuel'] Hle; [lia|].
    rewrite heap_isValidCone_S, Hobj, Hidx, Hasrc, Hasl.
    rewrite Hf1, Hf2, Hf3 by lia.
    change (isValidCone (mkCone i src tgt sl)) with
      (if i <? 0 then false
       else if negb (isValidCospan tgt) then false
       else if negb (forallb isValidCospan src) then false
       else forallb isValidRewrite sl).
    destruct (i <? 0); [done|]. destruct (isValidCospan tgt); [|done].
    by destruct (forallb isValidCospan src).
  - intros f b IHf IHb v (Hobj & Hf & Hb).
    destruct (IHf _ Hf) as [f1 Hf1]. destruct (IHb _ Hb) as [f2 Hf2].
    exists (S (f1 `max` f2)). intros [|fuel'] Hle; [lia|].
    rewrite heap_isValidCospan_S, Hobj. rewrite Hf1, Hf2 by lia.
    change (isValidCospan (mkCospan f b)) with (isValidRewrite f && isValidRewrite b).
    by destruct (isValidRewrite f).
Qed.

Lemma heap_diagram_validator_agrees h d :
  forall v, Heap.repDiagram h d v ->
  exists fuel, forall fuel', (fuel <= fuel')%nat ->
    Heap.isValidDiagram fuel' h v = Some (isValidDiagram d).
Proof.
  induction d as [g|n s IH cs]; intros v Hrep.
  - destruct Hrep as (Hobj & Hdim & Hg). exists 1%nat.
    intros [|fuel'] Hle; [lia|]. rewrite heap_isValidDiagram_S, Hobj, Hdim.
    simpl. by rewrite (heap_isValidGenerator_agrees h g _ Hg).
  - destruct Hrep as (Hobj & Hdim & Hgen & Hs & els & Harr & _).
    destruct (IH _ Hs) as [f Hf]. exists (S f).
    intros [|fuel'] Hle; [lia|].
    rewrite heap_isValidDiagram_S, Hobj, Hdim, Hgen, Harr. rewrite Hf by lia.
    simpl. destruct (n =? 0); [done|]. destruct (n <? 0); [done|].
    by destruct (isValidDiagram s).
Qed.

(** On every heap value that stores a tree, the validators return what the
    validators of the tree model compute. *)
Lemma heap_validators_agree_on_trees h :
  (forall d v, Heap.repDiagram h d v -> Heap.diagramReturns h v (isValidDiagram d)) /\
  (forall r v, Heap.repRewrite h r v -> Heap.rewriteReturns h v (isValidRewrite r)).
Proof.
  split.
  - intros d v Hrep. destruct (heap_diagram_validator_agrees h d v Hrep) as [f Hf].
    exists f. by apply Hf.
  - intros r v Hrep.
    destruct (proj1 (heap_rewrite_validators_agree h) r v Hrep) as [f Hf].
    exists f. by apply Hf.
Qed.

Example treeHeap_represents :
  Heap.repDiagram Heap.treeHeap
    (DiagramN 1 (Diagram0 (mkGenerator "a" None None)) []) (Heap.VRef 3).
Proof. vm_compute. repeat split. by eexists. Qed.

(** * Further properties of the engine and of the axiom framework *)

(** ** Composition of diagrams *)

Lemma isEmptyDiagram_valid d :
  isValidDiagram d = true ->
  Composition.isEmptyDiagram d =
  Ok (match d with Diagram0 g => bool_decide (g_id g = "empty") | DiagramN _ _ _ => false end).
Proof.
  destruct d as [g|n s cs]; [done|]. intros Hv. apply isValidDiagram_N in Hv as [Hn _].
  unfold Composition.isEmptyDiagram. simpl. zbool.
Qed.

Lemma d_dimension_valid d : isValidDiagram d = true ->
  match d with Diagram0 _ => d_dimension d = 0 | DiagramN _ _ _ => 0 < d_dimension d end.
Proof. destruct d; [done|]. intros Hv. by apply isValidDiagram_N in Hv as [Hn _]. Qed.

Lemma composeHorizontally_valid left right :
  isValidDiagram left = true -> isValidDiagram right = true ->
  exists d, Composition.composeHorizontally left right = Ok d /\
            isValidDiagram d = true /\
            d_dimension d =
              (if (d_dimension left =? 0) && (d_dimension right =? 0) then 1
               else Z.max (d_dimension left) (d_dimension right)).
Proof.
  revert right. induction left as [gl|dl sl IH cl]; intros right Hl Hr.
  - destruct right as [gr|dr sr cr].
    + eexists. split; [reflexivity|]. split; [|done]. simpl in *. by rewrite Hl.
    + apply isValidDiagram_N in Hr as Hr'. destruct Hr' as [Hn Hs].
      exists (DiagramN dr sr cr). simpl. zbool. rewrite Hs. split_and!; [done..|lia].
  - apply isValidDiagram_N in Hl as Hl'. destruct Hl' as [Hn Hs].
    destruct right as [gr|dr sr cr].
    + exists (DiagramN dl sl cl).
      change (Composition.composeHorizontally (DiagramN dl sl cl) (Diagram0 gr))
        with (if (dl =? 0) && (0 =? 0) then
                bindR (d_generator (DiagramN dl sl cl) "generator") (fun gl =>
                bindR (d_generator (Diagram0 gr) "generator") (fun gr' =>
                Ok (DiagramN 1 (DiagramN dl sl cl)
                      [mkCospan (createGeneratorRewrite gl gr') (createGeneratorRewrite gr' gl)])))
              else Ok (if dl >? 0 then DiagramN dl sl cl else Diagram0 gr)).
      simpl d_dimension. zbool. split_and!; [done..|lia].
    + apply isValidDiagram_N in Hr as Hr'. destruct Hr' as [Hn' Hs'].
      destruct (IH sr Hs Hs') as (c & Hc & Hvc & Hdc).
      exists (DiagramN (Z.max dl dr) c (cl ++ cr)).
      change (Composition.composeHorizontally (DiagramN dl sl cl) (DiagramN dr sr cr))
        with (if (dl =? 0) && (dr =? 0) then
                bindR (d_generator (DiagramN dl sl cl) "generator") (fun gl =>
                bindR (d_generator (DiagramN dr sr cr) "generator") (fun gr' =>
                Ok (DiagramN 1 (DiagramN dl sl cl)
                      [mkCospan (createGeneratorRewrite gl gr') (createGeneratorRewrite gr' gl)])))
              else if (dl >? 0) && (dr >? 0) then
                bindR (Composition.composeHorizontally sl sr) (fun composedSource =>
                Ok (DiagramN (Z.max dl dr) composedSource (cl ++ cr)))
              else Ok (if dl >? dr then DiagramN dl sl cl else DiagramN dr sr cr)).
      rewrite Hc. simpl d_dimension. split; [zbool|]. split; [|zbool].
      apply isValidDiagram_N. split; [lia|done].
Qed.

Lemma areVerticallyComposable_same n sl cl sr cr :
  0 < n -> Composition.areVerticallyComposable (DiagramN n sl cl) (DiagramN n sr cr) = true.
Proof. intros Hn. unfold Composition.areVerticallyComposable. simpl. zbool. Qed.

(** What [composeDiagrams] does once both operands passed validation. *)
Lemma composeDiagrams_valid left right :
  isValidDiagram left = true -> isValidDiagram right = true ->
  Composition.composeDiagrams left right =
  match left, right with
  | Diagram0 gl, Diagram0 gr =>
      if bool_decide (g_id gl = "empty") then Ok right
      else if bool_decide (g_id gr = "empty") then Ok left
      else Composition.composeHorizontally left right
  | Diagram0 gl, DiagramN dr _ _ =>
      if bool_decide (g_id gl = "empty") then Ok right
      else if dr >? 2 then Throw (Error "Diagrams cannot be composed: incompatible structures")
      else Ok right
  | DiagramN dl _ _, Diagram0 gr =>
      if bool_decide (g_id gr = "empty") then Ok left
      else if dl >? 2 then Throw (Error "Diagrams cannot be composed: incompatible structures")
      else Ok left
  | DiagramN dl sl cl, DiagramN dr sr cr =>
      if dl =? dr then Ok (DiagramN dl sl (cl ++ cr))
      else if Z.abs (dl - dr) =? 1 then Ok (if dl >? dr then left else right)
      else if Z.abs (dl - dr) >? 2
           then Throw (Error "Diagrams cannot be composed: incompatible structures")
           else Composition.composeHorizontally left right
  end.
Proof.
  intros Hl Hr. unfold Composition.composeDiagrams.
  rewrite Hl, Hr, validateDiagramComposition_valid by done.
  rewrite !isEmptyDiagram_valid by done.
  unfold Composition.getCompositionType. rewrite Hl, Hr.
  pose proof (d_dimension_valid _ Hl) as Hdl. pose proof (d_dimension_valid _ Hr) as Hdr.
  destruct left as [gl|dl sl cl], right as [gr|dr sr cr]; cbn [bindR negb orb d_dimension] in *.
  - repeat case_bool_decide; done.
  - case_bool_decide; [done|]. cbn [bindR].
    unfold Composition.composeByWhiskering, Composition.composeHorizontally.
    cbn [d_dimension]. zbool.
  - cbn [bindR]. case_bool_decide; [done|].
    unfold Composition.composeByWhiskering.
    cbn [d_dimension]. zbool. zbool.
  - unfold Composition.areVerticallyComposable, Composition.composeVertically,
      Composition.composeByWhiskering, Composition.mergeVerticalCospans.
    cbn [d_dimension]. zbool.
Qed.

Lemma isComposable_valid left right :
  isValidDiagram left = true -> isValidDiagram right = true ->
  Composition.isComposable left right =
  Ok (match left, right with
      | Diagram0 gl, Diagram0 gr => true
      | Diagram0 gl, DiagramN dr _ _ => bool_decide (g_id gl = "empty") || (dr <=? 2)
      | DiagramN dl _ _, Diagram0 gr => bool_decide (g_id gr = "empty") || (dl <=? 2)
      | DiagramN dl _ _, DiagramN dr _ _ => (dl =? dr) || (Z.abs (dl - dr) <=? 2)
      end).
Proof.
  intros Hl Hr. unfold Composition.isComposable.
  rewrite Hl, Hr. rewrite !isEmptyDiagram_valid by done.
  pose proof (d_dimension_valid _ Hl) as Hdl. pose proof (d_dimension_valid _ Hr) as Hdr.
  destruct left as [gl|dl sl cl], right as [gr|dr sr cr]; cbn [bindR negb orb d_dimension] in *.
  - repeat case_bool_decide; done.
  - case_bool_decide; [done|]. cbn [bindR]. zbool.
  - cbn [bindR]. case_bool_decide; [done|]. zbool.
  - zbool.
Qed.

Lemma composeDiagrams_Ok_iff left right :
  (exists d, Composition.composeDiagrams left right = Ok d) <->
  Composition.isComposable left right = Ok true.
Proof.
  destruct (isValidDiagram left) eqn:Hl; [destruct (isValidDiagram right) eqn:Hr|].
  - rewrite composeDiagrams_valid, isComposable_valid by done.
    destruct left as [gl|dl sl cl], right as [gr|dr sr cr].
    + destruct (composeHorizontally_valid _ _ Hl Hr) as (d & -> & _).
      repeat case_bool_decide; split; eauto.
    + case_bool_decide; simpl; [split; eauto|]. zbool; split; eauto; try done.
      intros [d Hd]. done.
    + case_bool_decide; simpl; [split; eauto|]. zbool; split; eauto; try done.
      intros [d Hd]. done.
    + destruct (composeHorizontally_valid _ _ Hl Hr) as (d & -> & _).
      zbool; split; eauto; try done; try (intros [? ?]; done); try (intros [=]; lia).
  - unfold Composition.composeDiagrams, Composition.isComposable. rewrite Hl, Hr. simpl.
    split; [intros [d Hd]; done|done].
  - unfold Composition.composeDiagrams, Composition.isComposable. rewrite Hl. simpl.
    split; [intros [d Hd]; done|done].
Qed.

(** X1.  [composeDiagrams] returns a diagram exactly when [isComposable]
    answers [true], and [isComposable] answers on every pair of diagrams. *)
Theorem composeDiagrams_returns_iff_isComposable (left right : Diagram) :
  ((exists d, Composition.composeDiagrams left right = Ok d) <->
   Composition.isComposable left right = Ok true) /\
  (exists answer, Composition.isComposable left right = Ok answer).
Proof.
  split; [apply composeDiagrams_Ok_iff|].
  destruct (isValidDiagram left) eqn:Hl; [destruct (isValidDiagram right) eqn:Hr|].
  - rewrite isComposable_valid by done. eauto.
  - unfold Composition.isComposable. rewrite Hl, Hr. eauto.
  - unfold Composition.isComposable. rewrite Hl. eauto.
Qed.

(** X2.  Every diagram that [composeDiagrams] returns is structurally valid. *)
Theorem composeDiagrams_result_valid (left right d : Diagram) :
  Composition.composeDiagrams left right = Ok d -> isValidDiagram d = true.
Proof.
  intros H.
  destruct (isValidDiagram left) eqn:Hl; [destruct (isValidDiagram right) eqn:Hr|];
    [|unfold Composition.composeDiagrams in H; rewrite ?Hl, ?Hr in H; done..].
  rewrite composeDiagrams_valid in H by done.
  destruct (composeHorizontally_valid _ _ Hl Hr) as (c & Hc & Hvc & _).
  rewrite Hc in H.
  destruct left as [gl|dl sl cl], right as [gr|dr sr cr].
  - repeat case_bool_decide; by injection H as <-.
  - case_bool_decide; [by injection H as <-|].
    destruct (dr >? 2); [done|]. by injection H as <-.
  - case_bool_decide; [by injection H as <-|].
    destruct (dl >? 2); [done|]. by injection H as <-.
  - destruct (dl =? dr).
    { injection H as <-. apply isValidDiagram_N in Hl as [? ?]. by apply isValidDiagram_N. }
    destruct (_ =? 1); [injection H as <-; by destruct (dl >? dr)|].
    destruct (_ >? 2); [done|]. by injection H as <-.
Qed.

Lemma composeDiagrams_result_valid_witness :
  isValidDiagram
    (DiagramN 1 (Diagram0 genA) [mkCospan (Rewrite0 genA genB) (Rewrite0 genB genA)]) = true.
Proof.
  apply (composeDiagrams_result_valid (Diagram0 genA) (Diagram0 genB)). reflexivity.
Defined.



(** X4.  The composite of two diagrams neither of which is the empty
    diagram has dimension 1 when both have dimension 0, and the larger of
    the two dimensions otherwise. *)
Theorem composeDiagrams_dimension (left right d : Diagram) :
  Composition.composeDiagrams left right = Ok d ->
  Composition.isEmptyDiagram left = Ok false ->
  Composition.isEmptyDiagram right = Ok false ->
  d_dimension d =
  if (d_dimension left =? 0) && (d_dimension right =? 0) then 1
  else Z.max (d_dimension left) (d_dimension right).
Proof.
  intros H Hel Her.
  destruct (isValidDiagram left) eqn:Hl; [destruct (isValidDiagram right) eqn:Hr|];
    [|unfold Composition.composeDiagrams in H; rewrite ?Hl, ?Hr in H; done..].
  rewrite composeDiagrams_valid in H by done.
  rewrite isEmptyDiagram_valid in Hel, Her by done.
  destruct (composeHorizontally_valid _ _ Hl Hr) as (c & Hc & _ & Hdc).
  rewrite Hc in H.
  pose proof (d_dimension_valid _ Hl) as Hdl. pose proof (d_dimension_valid _ Hr) as Hdr.
  destruct left as [gl|dl sl cl], right as [gr|dr sr cr]; cbn [d_dimension] in *.
  - injection Hel as Hel. injection Her as Her. rewrite Hel, Her in H. by injection H as <-.
  - injection Hel as Hel. rewrite Hel in H. revert H. zbool. intros [= <-]. simpl. lia.
  - injection Her as Her. rewrite Her in H. revert H. zbool. intros [= <-]. simpl. lia.
  - revert H. zbool; intros [= <-]; simpl; try lia; try done.
Qed.

Lemma composeDiagrams_dimension_witness :
  d_dimension (DiagramN 1 (Diagram0 genA) [mkCospan (Rewrite0 genA genB) (Rewrite0 genB genA)]) =
  if (d_dimension (Diagram0 genA) =? 0) && (d_dimension (Diagram0 genB) =? 0) then 1
  else Z.max (d_dimension (Diagram0 genA)) (d_dimension (Diagram0 genB)).
Proof.
  apply (composeDiagrams_dimension (Diagram0 genA) (Diagram0 genB)); reflexivity.
Defined.

Lemma composeDiagrams_vertical n sl sr cl cr :
  isValidDiagram (DiagramN n sl cl) = true ->
  isValidDiagram (DiagramN n sr cr) = true ->
  Composition.composeDiagrams (DiagramN n sl cl) (DiagramN n sr cr) =
  Ok (DiagramN n sl (cl ++ cr)).
Proof.
  intros Hl Hr. rewrite composeDiagrams_valid by done. by rewrite Z.eqb_refl.
Qed.

(** X5.  Two valid diagrams of the same positive dimension compose
    vertically: the result keeps the source of the left operand and the
    cospans of both, left ones first; the source of the right operand is
    dropped. *)
Theorem composeDiagrams_same_dimension (n : Z) (sl sr : Diagram) (cl cr : list Cospan) :
  isValidDiagram (DiagramN n sl cl) = true ->
  isValidDiagram (DiagramN n sr cr) = true ->
  Composition.composeDiagrams (DiagramN n sl cl) (DiagramN n sr cr) =
  Ok (DiagramN n sl (cl ++ cr)).
Proof. apply composeDiagrams_vertical. Qed.

Lemma composeDiagrams_same_dimension_witness :
  Composition.composeDiagrams
    (DiagramN 1 (Diagram0 genA) [mkCospan (Rewrite0 genA genB) (Rewrite0 genB genA)])
    (DiagramN 1 (Diagram0 genB) [mkCospan RewriteI RewriteI]) =
  Ok (DiagramN 1 (Diagram0 genA)
        ([mkCospan (Rewrite0 genA genB) (Rewrite0 genB genA)] ++ [mkCospan RewriteI RewriteI])).
Proof.
  apply (composeDiagrams_same_dimension 1); reflexivity.
Defined.

(** X6.  On valid diagrams of one positive dimension [composeDiagrams]
    is associative, and both groupings return a diagram. *)
Theorem composeDiagrams_same_dimension_assoc (a b c : Diagram) :
  isValidDiagram a = true -> isValidDiagram b = true -> isValidDiagram c = true ->
  0 < d_dimension a -> d_dimension b = d_dimension a -> d_dimension c = d_dimension a ->
  (do ab <- Composition.composeDiagrams a b; Composition.composeDiagrams ab c) =
  (do bc <- Composition.composeDiagrams b c; Composition.composeDiagrams a bc) /\
  exists abc, (do ab <- Composition.composeDiagrams a b; Composition.composeDiagrams ab c)
              = Ok abc.
Proof.
  intros Ha Hb Hc Hn Hnb Hnc.
  destruct a as [ga|n sa ca]; [simpl in Hn; lia|].
  destruct b as [gb|nb sb cb]; [simpl in *; lia|].
  destruct c as [gc|nc sc cc]; [simpl in *; lia|].
  simpl in Hnb, Hnc. subst nb nc.
  rewrite !composeDiagrams_vertical by done. simpl.
  assert (isValidDiagram (DiagramN n sa (ca ++ cb)) = true) as Hab.
  { apply isValidDiagram_N in Ha as [? ?]. by apply isValidDiagram_N. }
  assert (isValidDiagram (DiagramN n sb (cb ++ cc)) = true) as Hbc.
  { apply isValidDiagram_N in Hb as [? ?]. by apply isValidDiagram_N. }
  rewrite !composeDiagrams_vertical by done.
  rewrite app_assoc. eauto.
Qed.


(** X7.  When the dimensions of two valid diagrams differ by exactly 1
    the composite is the operand of higher dimension, unchanged: nothing of
    the lower operand enters the result. *)
Theorem composeDiagrams_adjacent_dimensions (left right : Diagram) :
  isValidDiagram left = true -> isValidDiagram right = true ->
  Z.abs (d_dimension left - d_dimension right) = 1 ->
  Composition.composeDiagrams left right =
  Ok (if d_dimension left >? d_dimension right then left else right).
Proof.
  intros Hl Hr Hd. rewrite composeDiagrams_valid by done.
  pose proof (d_dimension_valid _ Hl) as Hdl. pose proof (d_dimension_valid _ Hr) as Hdr.
  destruct left as [gl|dl sl cl], right as [gr|dr sr cr]; cbn [d_dimension] in *.
  - lia.
  - case_bool_decide; zbool.
  - case_bool_decide; zbool.
  - zbool.
Qed.

Lemma composeDiagrams_same_dimension_assoc_witness :
  (do ab <- Composition.composeDiagrams
              (DiagramN 1 (Diagram0 genA) [mkCospan (Rewrite0 genA genB) (Rewrite0 genB genA)])
              (DiagramN 1 (Diagram0 genB) [mkCospan RewriteI RewriteI]);
   Composition.composeDiagrams ab coneLegDiagram) =
  (do bc <- Composition.composeDiagrams
              (DiagramN 1 (Diagram0 genB) [mkCospan RewriteI RewriteI]) coneLegDiagram;
   Composition.composeDiagrams
     (DiagramN 1 (Diagram0 genA) [mkCospan (Rewrite0 genA genB) (Rewrite0 genB genA)]) bc) /\
  exists abc,
    (do ab <- Composition.composeDiagrams
                (DiagramN 1 (Diagram0 genA) [mkCospan (Rewrite0 genA genB) (Rewrite0 genB genA)])
                (DiagramN 1 (Diagram0 genB) [mkCospan RewriteI RewriteI]);
     Composition.composeDiagrams ab coneLegDiagram) = Ok abc.
Proof.
  apply (composeDiagrams_same_dimension_assoc
           (DiagramN 1 (Diagram0 genA) [mkCospan (Rewrite0 genA genB) (Rewrite0 genB genA)])
           (DiagramN 1 (Diagram0 genB) [mkCospan RewriteI RewriteI])
           coneLegDiagram); (reflexivity || (simpl; lia)).
Defined.

Lemma composeDiagrams_adjacent_dimensions_witness :
  Composition.composeDiagrams sampleDiagram coneLegDiagram =
  Ok (if d_dimension sampleDiagram >? d_dimension coneLegDiagram
      then sampleDiagram else coneLegDiagram).
Proof.
  apply (composeDiagrams_adjacent_dimensions sampleDiagram coneLegDiagram); reflexivity.
Defined.

(** *** Rewrites *)

(** What [composeRewrites] does once both operands passed validation. *)
Lemma composeRewrites_valid a b :
  isValidRewrite a = true -> isValidRewrite b = true ->
  Composition.composeRewrites a b =
  match a, b with
  | RewriteI, _ => Ok b
  | _, RewriteI => Ok a
  | Rewrite0 s m, Rewrite0 m' t =>
      if bool_decide (g_id m = g_id m') then Ok (Rewrite0 s t)
      else Throw (Error "Generator rewrites are not composable: target/source mismatch")
  | Rewrite0 _ _, RewriteN _ _ => Ok b
  | RewriteN _ _, _ => Ok a
  end.
Proof.
  intros Ha Hb. unfold Composition.composeRewrites. rewrite Ha, Hb. cbn [negb orb].
  destruct a as [s m| |n cones], b as [m' t| |n' cones']; try done.
  - simpl. by case_bool_decide.
  - apply isValidRewrite_N in Hb. destruct Hb. simpl. zbool.
  - apply isValidRewrite_N in Ha. destruct Ha. simpl. zbool.
  - apply isValidRewrite_N in Ha. destruct Ha. simpl. zbool.
  - apply isValidRewrite_N in Ha. destruct Ha.
    apply isValidRewrite_N in Hb. destruct Hb. simpl. zbool.
Qed.

Lemma composeRewrites_Ok_valid a b c :
  Composition.composeRewrites a b = Ok c ->
  isValidRewrite a = true /\ isValidRewrite b = true.
Proof.
  unfold Composition.composeRewrites.
  destruct (isValidRewrite a); [|done]. by destruct (isValidRewrite b).
Qed.

Lemma composeRewrites_Ok_inv a b c :
  Composition.composeRewrites a b = Ok c ->
  isValidRewrite c = true /\
  (c = a \/ c = b \/
   exists s m m' t, a = Rewrite0 s m /\ b = Rewrite0 m' t /\ g_id m = g_id m' /\
                    c = Rewrite0 s t).
Proof.
  intros Hc. destruct (composeRewrites_Ok_valid _ _ _ Hc) as [Ha Hb].
  rewrite composeRewrites_valid in Hc by done.
  destruct a as [s m| |n cones], b as [m' t| |n' cones'];
    try (injection Hc as <-; split; [done|]; auto; fail).
  case_bool_decide; [|done]. injection Hc as <-. split.
  - simpl in *. apply andb_true_iff in Ha, Hb. destruct Ha as [-> _], Hb as [_ ->]. done.
  - right; right. eauto 10.
Qed.

(** X8.  When [composeRewrites] returns, both operands were valid, the
    result is valid, and it is one of the operands or, for two generator
    rewrites with matching ids, the rewrite from the source of the left to
    the target of the right. *)
Theorem composeRewrites_result (a b c : Rewrite) :
  Composition.composeRewrites a b = Ok c ->
  isValidRewrite a = true /\ isValidRewrite b = true /\ isValidRewrite c = true /\
  (c = a \/ c = b \/
   exists s m m' t, a = Rewrite0 s m /\ b = Rewrite0 m' t /\ g_id m = g_id m' /\
                    c = Rewrite0 s t).
Proof.
  intros Hc. destruct (composeRewrites_Ok_valid _ _ _ Hc) as [Ha Hb].
  destruct (composeRewrites_Ok_inv _ _ _ Hc) as [Hv Hshape]. done.
Qed.

Lemma composeRewrites_result_witness :
  isValidRewrite (Rewrite0 genA genB) = true /\ isValidRewrite (Rewrite0 genB genP) = true /\
  isValidRewrite (Rewrite0 genA genP) = true /\
  (Rewrite0 genA genP = Rewrite0 genA genB \/ Rewrite0 genA genP = Rewrite0 genB genP \/
   exists s m m' t, Rewrite0 genA genB = Rewrite0 s m /\ Rewrite0 genB genP = Rewrite0 m' t /\
                    g_id m = g_id m' /\ Rewrite0 genA genP = Rewrite0 s t).
Proof.
  apply (composeRewrites_result (Rewrite0 genA genB) (Rewrite0 genB genP)). reflexivity.
Defined.

(** X9.  Whenever [composeRewrites a b] and [composeRewrites b c]
    return, the two ways of composing all three have the same outcome, and
    that outcome is a rewrite unless [b] is the identity. *)
Theorem composeRewrites_assoc (a b c ab bc : Rewrite) :
  Composition.composeRewrites a b = Ok ab ->
  Composition.composeRewrites b c = Ok bc ->
  Composition.composeRewrites ab c = Composition.composeRewrites a bc /\
  (b <> RewriteI -> exists abc, Composition.composeRewrites ab c = Ok abc).
Proof.
  intros Hab Hbc.
  destruct (composeRewrites_Ok_valid _ _ _ Hab) as [Ha Hb].
  destruct (composeRewrites_Ok_valid _ _ _ Hbc) as [_ Hc].
  destruct (composeRewrites_Ok_inv _ _ _ Hab) as [Hvab _].
  destruct (composeRewrites_Ok_inv _ _ _ Hbc) as [Hvbc _].
  rewrite !composeRewrites_valid by done.
  rewrite composeRewrites_valid in Hab, Hbc by done.
  destruct a as [? ?| |? ?], b as [? ?| |? ?], c as [? ?| |? ?];
    repeat (case_bool_decide; [|done]);
    injection Hab as <-; injection Hbc as <-;
    rewrite ?bool_decide_true by done; (split; [done|]); try done; eauto.
Qed.

Lemma composeRewrites_assoc_witness :
  Composition.composeRewrites (Rewrite0 genA genP) (Rewrite0 genP genQ) =
  Composition.composeRewrites (Rewrite0 genA genB) (Rewrite0 genB genQ) /\
  (Rewrite0 genB genP <> RewriteI ->
   exists abc, Composition.composeRewrites (Rewrite0 genA genP) (Rewrite0 genP genQ) = Ok abc).
Proof.
  apply (composeRewrites_assoc (Rewrite0 genA genB) (Rewrite0 genB genP) (Rewrite0 genP genQ));
    reflexivity.
Defined.

Lemma composeFrom_path s m init final :
  isValidGenerator s = true -> isValidGenerator m = true ->
  Forall (fun g => isValidGenerator g = true) init ->
  isValidGenerator final = true ->
  Composition.composeFrom (Rewrite0 s m) (pathRewrites m (init ++ [final])) =
  Ok (Rewrite0 s final).
Proof.
  intros Hs Hm Hall Hf. revert m Hm.
  induction Hall as [|g init Hg Hall IH]; intros m Hm;
    cbn [app pathRewrites Composition.composeFrom];
    rewrite composeRewrites_valid by (simpl; by rewrite ?Hs, ?Hm, ?Hg, ?Hf);
    rewrite bool_decide_true by done; cbn [bindR]; [done|by apply IH].
Qed.

(** X10.  [composeSequentially] of the generator rewrites along a path
    of valid generators is the generator rewrite from the start of the path
    to its end. *)
Theorem composeSequentially_path (start final : Generator) (init : list Generator) :
  isValidGenerator start = true ->
  Forall (fun g => isValidGenerator g = true) init ->
  isValidGenerator final = true ->
  Composition.composeSequentially (pathRewrites start (init ++ [final])) =
  Ok (Rewrite0 start final).
Proof.
  intros Hs Hall Hf. destruct Hall as [|g init Hg Hall]; [done|].
  cbn [app pathRewrites]. unfold Composition.composeSequentially.
  rewrite <- (composeFrom_path start g init final) by done.
  by destruct init.
Qed.

Lemma composeSequentially_path_witness :
  Composition.composeSequentially (pathRewrites genA ([genB; genP] ++ [genQ])) =
  Ok (Rewrite0 genA genQ).
Proof.
  apply (composeSequentially_path genA genQ [genB; genP]).
  - reflexivity.
  - repeat constructor.
  - reflexivity.
Defined.




(** *** Normalization *)

Lemma normalizeRewrite_invalid r :
  isValidRewrite r = false ->
  Normalization.normalizeRewrite r = Throw (Error "Cannot normalize invalid rewrite structure").
Proof. intros H. destruct r; simpl in *; by rewrite ?H. Qed.

Lemma performBetaReduction_invalid r :
  isValidRewrite r = false ->
  Normalization.performBetaReduction r =
  Throw (Error "Cannot perform beta reduction on invalid rewrite").
Proof. intros H. destruct r; simpl in *; by rewrite ?H. Qed.

Lemma contractRewrite_invalid r :
  isValidRewrite r = false ->
  Contraction.contractRewrite r = Throw (Error "Invalid rewrite structure").
Proof. intros H. destruct r; simpl in *; by rewrite ?H. Qed.

Lemma contractCospan_invalid c :
  isValidCospan c = false ->
  Contraction.contractCospan c = Throw (Error "Invalid cospan structure").
Proof.
  intros H. destruct c as [f b].
  change (Contraction.contractCospan (mkCospan f b)) with
    (if negb (isValidCospan (mkCospan f b))
     then Throw (Error "Invalid cospan structure")
     else if (r_dimension f =? 1) && (r_dimension b =? 1) then Ok (mkCospan f b)
          else if (r_dimension f =? 0) && (r_dimension b =? 0) then Ok (mkCospan f b)
          else bindR (Contraction.contractRewrite f) (fun f' =>
               bindR (Contraction.contractRewrite b) (fun b' => Ok (mkCospan f' b')))).
  by rewrite H.
Qed.

(** X12.  [normalizeRewrite], [performBetaReduction],
    [performEtaExpansion], [contractRewrite] and [contractCospan] return a
    valid argument unchanged and refuse an invalid one, each with its own
    message. *)
Theorem rewrite_passes_change_nothing (r : Rewrite) (c : Cospan) :
  Normalization.normalizeRewrite r =
    (if isValidRewrite r then Ok r
     else Throw (Error "Cannot normalize invalid rewrite structure")) /\
  Normalization.performBetaReduction r =
    (if isValidRewrite r then Ok r
     else Throw (Error "Cannot perform beta reduction on invalid rewrite")) /\
  Normalization.performEtaExpansion r =
    (if isValidRewrite r then Ok r
     else Throw (Error "Cannot perform eta expansion on invalid rewrite")) /\
  Contraction.contractRewrite r =
    (if isValidRewrite r then Ok r else Throw (Error "Invalid rewrite structure")) /\
  Contraction.contractCospan c =
    (if isValidCospan c then Ok c else Throw (Error "Invalid cospan structure")).
Proof.
  split_and!.
  - destruct (isValidRewrite r) eqn:Hv;
      [by apply normalize_valid_fixed|by apply normalizeRewrite_invalid].
  - destruct (isValidRewrite r) eqn:Hv;
      [by apply beta_valid_fixed|by apply performBetaReduction_invalid].
  - unfold Normalization.performEtaExpansion.
    destruct (isValidRewrite r); [|done]. simpl.
    by repeat destruct (_ && _) || destruct (_ =? _).
  - destruct (isValidRewrite r) eqn:Hv;
      [by apply contract_valid_fixed|by apply contractRewrite_invalid].
  - destruct (isValidCospan c) eqn:Hv;
      [by apply contract_valid_fixed|by apply contractCospan_invalid].
Qed.

Lemma mapR_all_or_throw {A} (f : A -> result A) (p : A -> bool) (e : thrown) l :
  (forall x, f x = if p x then Ok x else Throw e) ->
  mapR f l = if forallb p l then Ok l else Throw e.
Proof.
  intros Hf. induction l as [|x l IH]; [done|].
  cbn [mapR forallb] in *. rewrite Hf. destruct (p x); [|done]. simpl.
  rewrite IH. by destruct (forallb p l).
Qed.

Lemma normalizeRewrite_outcome r :
  Normalization.normalizeRewrite r =
  if isValidRewrite r then Ok r
  else Throw (Error "Cannot normalize invalid rewrite structure").
Proof.
  destruct (isValidRewrite r) eqn:Hv;
    [by apply normalize_valid_fixed|by apply normalizeRewrite_invalid].
Qed.

Lemma reduceLoop_cons current rest1 reduced :
  Normalization.reduceLoop (current :: rest1) reduced =
  if (r_dimension current =? 1) && r_identity current
  then Normalization.reduceLoop rest1 reduced
  else
    match rest1 with
    | [] => Ok (reduced ++ [current])
    | next :: rest2 =>
        bindR (Normalization.areInverses current next) (fun inverses =>
        if inverses then Normalization.reduceLoop rest2 reduced
        else
          bindR (Normalization.areComposable current next) (fun composable =>
          if composable then
            bindR (Normalization.composeForReduction current next) (fun composed =>
            Normalization.reduceLoop rest2 (reduced ++ [composed]))
          else Normalization.reduceLoop rest1 (reduced ++ [current])))
    end.
Proof. reflexivity. Qed.

Lemma areInverses_valid a b :
  isValidRewrite a = true -> isValidRewrite b = true ->
  Normalization.areInverses a b =
  Ok (match a, b with
      | Rewrite0 s t, Rewrite0 s' t' =>
          bool_decide (g_id s = g_id t') && bool_decide (g_id t = g_id s')
      | _, _ => false
      end).
Proof.
  intros Ha Hb. unfold Normalization.areInverses.
  destruct a as [? ?| |n ?], b as [? ?| |n' ?]; cbn [r_dimension];
    repeat match goal with
           | H : isValidRewrite (RewriteN _ _) = true |- _ =>
               apply isValidRewrite_N in H; destruct H
           end;
    try (cbn; by repeat case_bool_decide); zbool.
Qed.

Lemma areComposable_valid a b :
  isValidRewrite a = true -> isValidRewrite b = true ->
  Normalization.areComposable a b =
  Ok (match a, b with
      | Rewrite0 _ t, Rewrite0 s' _ => bool_decide (g_id t = g_id s')
      | _, _ => false
      end).
Proof.
  intros Ha Hb. unfold Normalization.areComposable.
  destruct a as [? ?| |n ?], b as [? ?| |n' ?]; cbn [r_dimension];
    repeat match goal with
           | H : isValidRewrite (RewriteN _ _) = true |- _ =>
               apply isValidRewrite_N in H; destruct H
           end;
    try (cbn; by repeat case_bool_decide); zbool.
Qed.

(** One round of the loop on well-formed rewrites: it skips one or two
    elements and appends at most one well-formed rewrite that is not the
    identity. *)
Lemma reduceLoop_step current rest1 reduced :
  isValidRewrite current = true ->
  Forall (fun r => isValidRewrite r = true) rest1 ->
  exists rest' added,
    Normalization.reduceLoop (current :: rest1) reduced =
    Normalization.reduceLoop rest' (reduced ++ added) /\
    (length rest' < length (current :: rest1))%nat /\
    (length added + length rest' <= length (current :: rest1))%nat /\
    Forall (fun r => isValidRewrite r = true) rest' /\
    Forall (fun r => isValidRewrite r = true /\ r <> RewriteI) added.
Proof.
  intros Hc Hrest. rewrite reduceLoop_cons.
  assert (forall (l : list Rewrite) (added : list Rewrite),
             (length l < length (current :: rest1))%nat ->
             (length added + length l <= length (current :: rest1))%nat ->
             Forall (fun r => isValidRewrite r = true) l ->
             Forall (fun r => isValidRewrite r = true /\ r <> RewriteI) added ->
             exists rest' added',
               Normalization.reduceLoop l (reduced ++ added) =
               Normalization.reduceLoop rest' (reduced ++ added') /\
               (length rest' < length (current :: rest1))%nat /\
               (length added' + length rest' <= length (current :: rest1))%nat /\
               Forall (fun r => isValidRewrite r = true) rest' /\
               Forall (fun r => isValidRewrite r = true /\ r <> RewriteI) added')
    as Hgo by (intros l added ? ? ? ?; by exists l, added).
  destruct current as [s t| |n cones].
  - cbn [r_dimension r_identity andb Z.eqb].
    destruct rest1 as [|next rest2].
    { apply (Hgo [] [Rewrite0 s t]); simpl; try lia; by repeat constructor. }
    apply Forall_cons in Hrest as [Hn Hrest2].
    rewrite areInverses_valid, areComposable_valid by done. cbn [bindR].
    destruct next as [s' t'| |n' cones'].
    + destruct (_ && _).
      { exists rest2, []. rewrite app_nil_r.
        split_and!; [done|simpl; lia|simpl; lia|done|by constructor]. }
      case_bool_decide as Hcomp.
      * unfold Normalization.composeForReduction.
        rewrite areComposable_valid by done. rewrite bool_decide_true by done.
        cbn [bindR negb].
        apply (Hgo rest2 [Rewrite0 s t']); simpl; try lia; [done|].
        repeat constructor; [|done]. simpl in *. apply andb_true_iff in Hc, Hn.
        destruct Hc as [-> _], Hn as [_ ->]. done.
      * apply (Hgo (Rewrite0 s' t' :: rest2) [Rewrite0 s t]); simpl; try lia;
          by repeat constructor.
    + apply (Hgo (RewriteI :: rest2) [Rewrite0 s t]); simpl; try lia;
        by repeat constructor.
    + apply (Hgo (RewriteN n' cones' :: rest2) [Rewrite0 s t]); simpl; try lia;
        by repeat constructor.
  - cbn [r_dimension r_identity andb Z.eqb].
    exists rest1, []. rewrite app_nil_r.
    split_and!; [done|simpl; lia|simpl; lia|done|by constructor].
  - cbn [r_dimension r_identity]. rewrite andb_false_r.
    destruct rest1 as [|next rest2].
    { apply (Hgo [] [RewriteN n cones]); simpl; try lia; by repeat constructor. }
    apply Forall_cons in Hrest as [Hn Hrest2].
    rewrite areInverses_valid, areComposable_valid by done. cbn [bindR].
    apply (Hgo (next :: rest2) [RewriteN n cones]); simpl; try lia;
      by repeat constructor.
Qed.

Lemma reduceLoop_valid rest reduced :
  Forall (fun r => isValidRewrite r = true) rest ->
  exists added,
    Normalization.reduceLoop rest reduced = Ok (reduced ++ added) /\
    (length added <= length rest)%nat /\
    Forall (fun r => isValidRewrite r = true /\ r <> RewriteI) added.
Proof.
  remember (length rest) as n eqn:Hn. revert rest reduced Hn.
  induction n as [n IH] using lt_wf_ind. intros rest reduced -> Hrest.
  destruct rest as [|current rest1].
  - exists []. rewrite app_nil_r. by split_and!.
  - apply Forall_cons in Hrest as [Hc Hrest1].
    destruct (reduceLoop_step current rest1 reduced Hc Hrest1)
      as (rest' & added & -> & Hlt & Hle & Hrest' & Hadded).
    destruct (IH (length rest') Hlt rest' (reduced ++ added) eq_refl Hrest')
      as (added' & -> & Hle' & Hadded').
    exists (added ++ added'). rewrite app_assoc. split_and!; [done| |].
    + rewrite length_app. lia.
    + by apply Forall_app.
Qed.

(** X13.  [reduceTerms] returns exactly when every term is valid, and
    throws the error of [normalizeRewrite] otherwise.  The list it returns is
    not longer than its argument, holds valid rewrites only, and holds no
    identity when the argument had two or more terms. *)
Theorem reduceTerms_outcome (terms : list Rewrite) :
  if forallb isValidRewrite terms then
    exists reduced,
      Normalization.reduceTerms terms = Ok reduced /\
      (length reduced <= length terms)%nat /\
      Forall (fun r => isValidRewrite r = true) reduced /\
      ((2 <= length terms)%nat -> Forall (fun r => r <> RewriteI) reduced)
  else
    Normalization.reduceTerms terms =
    Throw (Error "Cannot normalize invalid rewrite structure").
Proof.
  destruct terms as [|t1 [|t2 terms]].
  - exists []. simpl. split_and!; try done. 
  - simpl. rewrite andb_true_r, normalizeRewrite_outcome.
    destruct (isValidRewrite t1) eqn:H1; [|done].
    exists [t1]. simpl. split_and!; try done; [by repeat constructor|lia].
  - unfold Normalization.reduceTerms.
    rewrite (mapR_all_or_throw _ _ _ _ normalizeRewrite_outcome).
    destruct (forallb isValidRewrite (t1 :: t2 :: terms)) eqn:Hall; [|done].
    cbn [bindR].
    destruct (reduceLoop_valid (t1 :: t2 :: terms) [])
      as (added & -> & Hle & Hadded).
    { apply (Forall_forallb_apply isValidRewrite); [|done].
      apply Forall_forall. by intros x _ Hx. }
    exists added. simpl. split_and!; [done|done| |].
    + eapply Forall_impl; [exact Hadded|]. by intros x [? ?].
    + intros _. eapply Forall_impl; [exact Hadded|]. by intros x [? ?].
Qed.

Lemma reduceTerms_outcome_witness :
  exists reduced,
    Normalization.reduceTerms [Rewrite0 genA genB; RewriteI; Rewrite0 genB genP] = Ok reduced /\
    (length reduced <= 3)%nat /\
    Forall (fun r => isValidRewrite r = true) reduced /\
    Forall (fun r => r <> RewriteI) reduced.
Proof.
  destruct (reduceTerms_outcome [Rewrite0 genA genB; RewriteI; Rewrite0 genB genP])
    as (reduced & Hreduced & Hlength & Hvalid & Hproper).
  exists reduced. split; [exact Hreduced|]. split; [exact Hlength|].
  split; [exact Hvalid|]. apply Hproper. simpl. lia.
Defined.


Lemma rewritesEqual_refl r :
  isValidRewrite r = true ->
  exists answer, Normalization.rewritesEqual r r = Ok answer.
Proof.
  intros Hv. unfold Normalization.rewritesEqual. rewrite Z.eqb_refl. cbn [negb].
  destruct r as [s t| |n cones]; cbn; [|by eauto|].
  - rewrite !bool_decide_true by done. eauto.
  - apply isValidRewrite_N in Hv. destruct Hv. zbool; eauto.
Qed.

Lemma isRewriteInNormalForm_total r :
  exists answer, Normalization.isRewriteInNormalForm r = Ok answer.
Proof.
  unfold Normalization.isRewriteInNormalForm.
  destruct (isValidRewrite r) eqn:Hv; [|by eauto]. cbn [negb].
  rewrite (proj1 beta_valid_fixed r Hv). cbn [bindR].
  destruct (rewritesEqual_refl r Hv) as [answer ->]. cbn [bindR].
  destruct answer; eauto.
Qed.

Lemma legsInNormalForm_total cospans :
  exists answer, Normalization.legsInNormalForm cospans = Ok answer.
Proof.
  induction cospans as [|c cospans IH]; [by eauto|].
  cbn [Normalization.legsInNormalForm].
  destruct (isValidCospan c); [|done].
  destruct (isRewriteInNormalForm_total (forward c)) as [[] ->]; cbn [bindR negb]; [|by eauto].
  destruct (isRewriteInNormalForm_total (backward c)) as [[] ->]; cbn [bindR negb]; eauto.
Qed.

Lemma isNormalForm_N n s cs :
  Normalization.isNormalForm (DiagramN n s cs) =
  if negb (isValidDiagram (DiagramN n s cs)) then Ok false
  else if n =? 0 then Ok true
  else
    bindR (Normalization.isNormalForm s) (fun sourceNormal =>
    if negb sourceNormal then Ok false
    else
      bindR (Normalization.legsInNormalForm cs) (fun legs =>
      if negb legs then Ok false
      else if Normalization.hasReduciblePatterns (DiagramN n s cs) then Ok false
      else Ok true)).
Proof. reflexivity. Qed.

Lemma isNormalForm_total d :
  exists answer, Normalization.isNormalForm d = Ok answer.
Proof.
  induction d as [g|n s IH cs].
  - simpl. destruct (isValidGenerator g); eauto.
  - rewrite isNormalForm_N.
    destruct (negb _); [by eauto|]. destruct (n =? 0); [by eauto|].
    destruct IH as [[] ->]; cbn [bindR negb]; [|by eauto].
    destruct (legsInNormalForm_total cs) as [[] ->]; cbn [bindR negb]; [|by eauto].
    destruct (Normalization.hasReduciblePatterns _); eauto.
Qed.

(** X15.  [isNormalForm] returns a boolean on every diagram, and
    [false] on an invalid one. *)
Theorem isNormalForm_never_throws (d : Diagram) :
  (exists answer, Normalization.isNormalForm d = Ok answer) /\
  (isValidDiagram d = false -> Normalization.isNormalForm d = Ok false).
Proof.
  split; [apply isNormalForm_total|].
  intros Hv. destruct d; [simpl in *; by rewrite Hv|].
  rewrite isNormalForm_N. by rewrite Hv.
Qed.

Lemma isNormalForm_never_throws_witness :
  (exists answer,
      Normalization.isNormalForm (DiagramN 0 (Diagram0 genA) []) = Ok answer) /\
  Normalization.isNormalForm (DiagramN 0 (Diagram0 genA) []) = Ok false.
Proof.
  split.
  - apply (isNormalForm_never_throws (DiagramN 0 (Diagram0 genA) [])).
  - apply (isNormalForm_never_throws (DiagramN 0 (Diagram0 genA) [])). reflexivity.
Defined.

(** X16.  [isNormalForm] accepts a diagram whose only cospan is the
    identity/identity cospan, although [normalizeDiagram] removes that
    cospan: the reducible-pattern scan looks at pairs of neighbours only. *)
Theorem isNormalForm_accepts_one_noop_cospan (n : Z) (s : Diagram) :
  0 < n -> isValidDiagram s = true -> sourceDepth s < 100 ->
  Normalization.isNormalForm s = Ok true ->
  Normalization.isNormalForm (DiagramN n s [mkCospan RewriteI RewriteI]) = Ok true /\
  Normalization.normalizeDiagram (DiagramN n s [mkCospan RewriteI RewriteI]) =
  Ok (DiagramN n (pruned s) []).
Proof.
  intros Hn Hs Hd Hnf. split.
  - rewrite isNormalForm_N, Hnf.
    rewrite (proj2 (isValidDiagram_N n s _)) by done. simpl. zbool.
  - rewrite normalizeDiagram_pruned; [done| |simpl; lia].
    by apply isValidDiagram_N.
Qed.

Lemma isNormalForm_accepts_one_noop_cospan_witness :
  Normalization.isNormalForm (DiagramN 1 (Diagram0 genA) [mkCospan RewriteI RewriteI]) = Ok true /\
  Normalization.normalizeDiagram (DiagramN 1 (Diagram0 genA) [mkCospan RewriteI RewriteI]) =
  Ok (DiagramN 1 (pruned (Diagram0 genA)) []).
Proof.
  apply (isNormalForm_accepts_one_noop_cospan 1 (Diagram0 genA)); (reflexivity || (simpl; lia)).
Defined.

(** *** The NPR aspects and the type consistency check *)

Lemma traverseDiagram_valid d path :
  isValidDiagram d = true -> Npr.traverseDiagram d path = [].
Proof.
  revert path. induction d as [g|n s IH cs]; intros path Hv.
  - simpl in *. unfold Npr.checkGenerator. simpl. by rewrite Hv.
  - apply isValidDiagram_N in Hv as Hv'. destruct Hv' as [Hn Hs].
    cbn [Npr.traverseDiagram]. zbool. by apply IH.
Qed.

Lemma validateNPRAspects_valid d :
  isValidDiagram d = true ->
  exists aspects, Npr.validateNPRAspects d = Ok aspects /\
                  Npr.ar_isValid aspects = true /\
                  Npr.ar_errors aspects = [] /\ Npr.ar_warnings aspects = [].
Proof.
  intros Hv. unfold Npr.validateNPRAspects. simpl.
  rewrite Hv, traverseDiagram_valid by done. simpl. eauto 10.
Qed.

(** X17.  [checkTypeConsistency] answers as [isValidDiagram] does:
    on a valid diagram [validateNPRAspects] returns without errors or
    warnings. *)
Theorem checkTypeConsistency_is_isValidDiagram (d : Diagram) :
  checkTypeConsistency d = isValidDiagram d /\
  (isValidDiagram d = true ->
   exists aspects, Npr.validateNPRAspects d = Ok aspects /\
                   Npr.ar_isValid aspects = true /\
                   Npr.ar_errors aspects = [] /\ Npr.ar_warnings aspects = []).
Proof.
  split; [|apply validateNPRAspects_valid]. unfold checkTypeConsistency.
  destruct (isValidDiagram d) eqn:Hv; [|done]. cbn [negb].
  by destruct (validateNPRAspects_valid d Hv) as (aspects & -> & -> & _).
Qed.

Lemma checkTypeConsistency_is_isValidDiagram_witness :
  checkTypeConsistency sampleDiagram = isValidDiagram sampleDiagram /\
  exists aspects, Npr.validateNPRAspects sampleDiagram = Ok aspects /\
                  Npr.ar_isValid aspects = true /\
                  Npr.ar_errors aspects = [] /\ Npr.ar_warnings aspects = [].
Proof.
  split.
  - apply (checkTypeConsistency_is_isValidDiagram sampleDiagram).
  - apply (checkTypeConsistency_is_isValidDiagram sampleDiagram). reflexivity.
Defined.

(** *** Contractible parts and their colimit *)

Lemma contraction_composeRewrites_cases left right :
  Contraction.composeRewrites left right = if r_identity left then right else left.
Proof.
  unfold Contraction.composeRewrites.
  destruct left as [? ?| |? ?]; cbn [r_identity]; rewrite ?andb_false_r; [|done|];
    by repeat destruct (_ && _).
Qed.

Lemma fold_composeRewrites rest first :
  fold_left Contraction.composeRewrites rest first = firstProper (first :: rest).
Proof.
  revert first. induction rest as [|x rest IH]; intros first.
  - unfold firstProper. by destruct first.
  - cbn [fold_left]. rewrite IH, contraction_composeRewrites_cases.
    unfold firstProper. by destruct first.
Qed.

(** X18.  [performColimitContraction] returns the first part that is
    not the identity, and the identity when there is none. *)
Theorem performColimitContraction_first_proper (parts : list Rewrite) :
  Contraction.performColimitContraction parts = firstProper parts.
Proof.
  destruct parts as [|first [|second rest]]; [done| |].
  - unfold firstProper. by destruct first.
  - unfold Contraction.performColimitContraction. apply fold_composeRewrites.
Qed.

Lemma cospanLegs_valid cospans :
  Forall (fun r => isValidRewrite r = true) (Contraction.cospanLegs cospans).
Proof.
  induction cospans as [|[f b] cospans IH]; [constructor|].
  cbn [Contraction.cospanLegs]. destruct (isValidCospan (mkCospan f b)) eqn:Hv; [|done].
  apply isValidCospan_inv in Hv. destruct Hv. by repeat constructor.
Qed.

Lemma contractibleWindows_pairs rewrites :
  Forall (fun r => isValidRewrite r = true) rewrites ->
  Forall contractiblePair (Contraction.contractibleWindows rewrites).
Proof.
  induction 1 as [|a rewrites Ha Hall IH]; [constructor|].
  destruct Hall as [|b rewrites Hb Hall]; [constructor|].
  change (Contraction.contractibleWindows (a :: b :: rewrites)) with
    (if Contraction.areContractible [a; b]
     then [a; b] :: Contraction.contractibleWindows (b :: rewrites)
     else Contraction.contractibleWindows (b :: rewrites)).
  destruct (Contraction.areContractible [a; b]) eqn:Hc; [|done].
  constructor; [|done]. exists a, b.
  unfold Contraction.areContractible in Hc. simpl in Hc.
  destruct (Z.eqb_spec (r_dimension a) (r_dimension b)) as [Hd|]; [|done].
  split_and!; try done.
  unfold Contraction.performColimitContraction. simpl.
  rewrite contraction_composeRewrites_cases.
  destruct a; try done. destruct b as [? ?| |n ?]; try done.
  apply isValidRewrite_N in Hb. simpl in Hd. lia.
Qed.

(** X19.  Every part that [findContractibleParts] reports is a pair
    of valid rewrites of the same dimension, whose colimit contraction is the
    first of the two; an invalid diagram has no parts. *)
Theorem findContractibleParts_pairs (d : Diagram) :
  Forall contractiblePair (Contraction.findContractibleParts d) /\
  (isValidDiagram d = false -> Contraction.findContractibleParts d = []).
Proof.
  split.
  - induction d as [g|n s IH cs].
    + simpl. destruct (negb _); constructor.
    + change (Contraction.findContractibleParts (DiagramN n s cs)) with
        (if negb (isValidDiagram (DiagramN n s cs)) then []
         else if n =? 0 then []
         else if Z.of_nat (length (Contraction.cospanLegs cs)) >=? 2
              then Contraction.findContractibleParts s ++
                   Contraction.contractibleWindows (Contraction.cospanLegs cs)
              else Contraction.findContractibleParts s).
      destruct (negb _); [constructor|]. destruct (n =? 0); [constructor|].
      destruct (_ >=? 2); [|done].
      apply Forall_app. split; [done|].
      apply contractibleWindows_pairs, cospanLegs_valid.
  - intros Hv. destruct d; simpl in *; by rewrite Hv.
Qed.

Lemma findContractibleParts_pairs_witness :
  Forall contractiblePair (Contraction.findContractibleParts sampleDiagram) /\
  Contraction.findContractibleParts (DiagramN 0 (Diagram0 genA) []) = [].
Proof.
  split.
  - apply (findContractibleParts_pairs sampleDiagram).
  - apply (findContractibleParts_pairs (DiagramN 0 (Diagram0 genA) [])). reflexivity.
Defined.

(** *** The axiom registry *)

Lemma JsMap_get_set_same {V} (m : JsMap.t V) k v :
  JsMap.get (JsMap.set m k v) k = Some v.
Proof.
  induction m as [|[k' v'] m IH]; simpl.
  - by rewrite bool_decide_true.
  - case_bool_decide as Hk; simpl; [by rewrite bool_decide_true|].
    by rewrite bool_decide_false.
Qed.

Lemma JsMap_get_set_other {V} (m : JsMap.t V) k k' v :
  k' <> k -> JsMap.get (JsMap.set m k v) k' = JsMap.get m k'.
Proof.
  intros Hne. induction m as [|[k0 v0] m IH]; simpl.
  - by rewrite bool_decide_false.
  - case_bool_decide as Hk; simpl; [subst k0|]; case_bool_decide; congruence.
Qed.

Lemma JsMap_get_Some_keys {V} (m : JsMap.t V) k :
  JsMap.get m k = None -> k ∉ JsMap.keys m.
Proof.
  induction m as [|[k' v'] m IH]; simpl; [intros _; apply not_elem_of_nil|].
  case_bool_decide; [done|]. intros Hg. apply not_elem_of_cons. split; [done|].
  by apply IH.
Qed.

Lemma JsMap_delete_found {V} (m : JsMap.t V) k :
  (JsMap.delete m k).2 = JsMap.has m k.
Proof.
  unfold JsMap.has. induction m as [|[k' v'] m IH]; simpl; [done|].
  case_bool_decide; [done|]. destruct (JsMap.delete m k) as [rest found]. simpl in *.
  by rewrite IH.
Qed.

Lemma JsMap_delete_other {V} (m : JsMap.t V) k k' :
  k' <> k -> JsMap.get (JsMap.delete m k).1 k' = JsMap.get m k'.
Proof.
  intros Hne. induction m as [|[k0 v0] m IH]; simpl; [done|].
  case_bool_decide as Hk.
  - subst k0. simpl. by rewrite bool_decide_false.
  - destruct (JsMap.delete m k) as [rest found]. simpl in *. by rewrite IH.
Qed.

Lemma JsMap_delete_sublist {V} (m : JsMap.t V) k :
  sublist (JsMap.delete m k).1 m.
Proof.
  induction m as [|[k0 v0] m IH]; simpl; [done|].
  case_bool_decide.
  - by apply sublist_cons.
  - destruct (JsMap.delete m k) as [rest found]. simpl in *. by apply sublist_skip.
Qed.

Lemma JsMap_delete_same {V} (m : JsMap.t V) k :
  NoDup (JsMap.keys m) -> JsMap.get (JsMap.delete m k).1 k = None.
Proof.
  induction m as [|[k0 v0] m IH]; simpl; [done|]. intros Hnd.
  apply NoDup_cons in Hnd as [Hk0 Hnd].
  case_bool_decide as Hk.
  - subst k0. simpl. by apply JsMap_get_None.
  - destruct (JsMap.delete m k) as [rest found]. simpl in *.
    rewrite bool_decide_false by done. by apply IH.
Qed.

Lemma JsMap_delete_absent {V} (m : JsMap.t V) k :
  JsMap.has m k = false -> (JsMap.delete m k).1 = m.
Proof.
  unfold JsMap.has. induction m as [|[k0 v0] m IH]; simpl; [done|].
  case_bool_decide; [done|]. intros Hg.
  destruct (JsMap.delete m k) as [rest found]. simpl in *. by rewrite IH.
Qed.

(** X20.  [register] throws on an id that the registry already holds;
    otherwise the axiom is found under its id afterwards, every other id reads
    as before, and the axiom comes last in [getAllAxioms]. *)
Theorem register_then_getAxiom (registry : Validation.AxiomRegistry) (axiom : NPRAxiom) :
  if Validation.hasAxiom registry (a_id axiom) then
    Validation.register registry axiom =
    Throw (Error ("Axiom " +:+ a_id axiom +:+ " is already registered"))
  else
    exists registry',
      Validation.register registry axiom = Ok registry' /\
      Validation.getAxiom registry' (a_id axiom) = Some axiom /\
      (forall id, id <> a_id axiom ->
                  Validation.getAxiom registry' id = Validation.getAxiom registry id) /\
      Validation.getAllAxioms registry' = Validation.getAllAxioms registry ++ [axiom].
Proof.
  unfold Validation.hasAxiom, Validation.register.
  destruct (JsMap.has registry (a_id axiom)) eqn:Hhas; [done|].
  eexists. split; [done|]. split_and!.
  - apply JsMap_get_set_same.
  - intros id Hid. by apply JsMap_get_set_other.
  - unfold Validation.getAllAxioms, JsMap.values.
    rewrite JsMap_set_fresh, map_app; [done|].
    apply JsMap_get_Some_keys. unfold JsMap.has in Hhas.
    by destruct (JsMap.get registry (a_id axiom)).
Qed.

Lemma register_then_getAxiom_witness :
  exists registry',
    Validation.register sampleRegistry cartesianSample = Ok registry' /\
    Validation.getAxiom registry' (a_id cartesianSample) = Some cartesianSample /\
    (forall id, id <> a_id cartesianSample ->
                Validation.getAxiom registry' id = Validation.getAxiom sampleRegistry id) /\
    Validation.getAllAxioms registry' =
    Validation.getAllAxioms sampleRegistry ++ [cartesianSample].
Proof. exact (register_then_getAxiom sampleRegistry cartesianSample). Defined.

(** X21.  [unregister] reports whether the id was registered; after it
    the id is no longer registered, every other id reads as before, and a
    registry that did not hold the id is unchanged. *)
Theorem unregister_removes (registry : Validation.AxiomRegistry) (id : string) :
  registryOk registry ->
  (Validation.unregister registry id).2 = Validation.hasAxiom registry id /\
  Validation.hasAxiom (Validation.unregister registry id).1 id = false /\
  (forall id', id' <> id ->
     Validation.getAxiom (Validation.unregister registry id).1 id' =
     Validation.getAxiom registry id') /\
  registryOk (Validation.unregister registry id).1 /\
  (Validation.hasAxiom registry id = false ->
   (Validation.unregister registry id).1 = registry).
Proof.
  intros [Hnd Hids]. unfold Validation.unregister, Validation.hasAxiom, Validation.getAxiom.
  split_and!.
  - apply JsMap_delete_found.
  - pose proof (JsMap_delete_same registry id Hnd) as Hgone.
    unfold JsMap.has. unfold Validation.AxiomRegistry in *. by rewrite Hgone.
  - intros id' Hne. by apply JsMap_delete_other.
  - pose proof (JsMap_delete_sublist registry id) as Hsub. split.
    + apply (sublist_NoDup _ (JsMap.keys registry)); [exact Hnd|].
      by apply fmap_sublist.
    + rewrite Forall_forall in Hids |- *. intros kv Hkv.
      apply Hids. by eapply elem_of_sublist.
  - apply JsMap_delete_absent.
Qed.

Lemma unregister_removes_witness :
  (Validation.unregister sampleRegistry "throwing").2 =
    Validation.hasAxiom sampleRegistry "throwing" /\
  Validation.hasAxiom (Validation.unregister sampleRegistry "throwing").1 "throwing" = false /\
  (forall id', id' <> "throwing" ->
     Validation.getAxiom (Validation.unregister sampleRegistry "throwing").1 id' =
     Validation.getAxiom sampleRegistry id') /\
  registryOk (Validation.unregister sampleRegistry "throwing").1 /\
  (Validation.hasAxiom sampleRegistry "throwing" = false ->
   (Validation.unregister sampleRegistry "throwing").1 = sampleRegistry).
Proof.
  apply (unregister_removes sampleRegistry "throwing").
  split; [apply (bool_decide_unpack _); vm_compute; exact I|repeat constructor].
Defined.

(** *** Compatibility of a set of axioms *)

Lemma duplicateIdConflicts_errors axioms ids :
  Forall (fun c => severity c = sev_error) (Validation.duplicateIdConflicts axioms ids).
Proof.
  revert ids. induction axioms as [|a axioms IH]; intros ids; [constructor|].
  cbn [Validation.duplicateIdConflicts]. apply Forall_app. split; [|apply IH].
  case_bool_decide; by repeat constructor.
Qed.

Lemma duplicateIdConflicts_nil axioms ids :
  Validation.duplicateIdConflicts axioms ids = [] <->
  NoDup (map a_id axioms) /\ Forall (fun a => a_id a ∉ ids) axioms.
Proof.
  revert ids. induction axioms as [|a axioms IH]; intros ids.
  - simpl. split; [intros _; split; constructor|done].
  - cbn [Validation.duplicateIdConflicts map].
    rewrite NoDup_cons, Forall_cons. case_bool_decide as Hin; simpl.
    + split; [done|]. intros [_ [? _]]. done.
    + rewrite IH. split.
      * intros [Hnd Hall]. split_and!; [|done|done|].
        -- intros Hel. apply list_elem_of_fmap in Hel as (b & Hb & Hel).
           rewrite Forall_forall in Hall. apply (Hall b Hel). rewrite <- Hb.
           apply elem_of_union_r. by apply elem_of_singleton.
        -- eapply Forall_impl; [exact Hall|]. intros b Hb Hel. apply Hb.
           by apply elem_of_union_l.
      * intros [[Hni Hnd] [_ Hall]]. split; [done|].
        rewrite Forall_forall in Hall |- *. intros b Hb.
        apply not_elem_of_union. split; [by apply Hall|].
        apply not_elem_of_singleton. intros Heq. apply Hni. rewrite <- Heq.
        apply list_elem_of_fmap. eauto.
Qed.

Lemma filter_errors_all (l : list NPRValidationError) :
  Forall (fun c => severity c = sev_error) l ->
  List.filter (fun c => bool_decide (severity c = sev_error)) l = l.
Proof.
  induction 1 as [|c l Hc Hall IH]; [done|]. simpl. rewrite bool_decide_true by done.
  by rewrite IH.
Qed.

(** X22.  On a valid diagram [validateAxiomCompatibility] returns,
    and reports compatibility exactly when no two axioms share an id: a
    category mismatch is a warning only. *)
Theorem validateAxiomCompatibility_duplicates (axioms : list NPRAxiom) (d : Diagram) :
  isValidDiagram d = true ->
  exists outcome,
    Validation.validateAxiomCompatibility axioms d = Ok outcome /\
    (Validation.isCompatible outcome = true <-> NoDup (map a_id axioms)) /\
    List.filter (fun c => bool_decide (severity c = sev_error))
                (Validation.conflicts outcome) =
    Validation.duplicateIdConflicts axioms ∅.
Proof.
  intros Hv. unfold Validation.validateAxiomCompatibility.
  set (dups := Validation.duplicateIdConflicts axioms ∅).
  assert (exists extra,
             (if bool_decide (cat_cartesian ∈ map a_category axioms) &&
                 bool_decide (cat_cocartesian ∈ map a_category axioms) &&
                 (d_dimension d =? 0)
              then
                bindR (d_generator d "color") (fun gen =>
                match g_color gen with
                | Some cartesian =>
                    if Z.of_nat (length (List.filter
                         (fun a => bool_decide (a_category a = cat_cocartesian)) axioms)) >? 0
                    then Ok (dups ++
                             [mkValidationError "CATEGORY_MISMATCH"
                                "Applying cocartesian axioms to cartesian structure"
                                sev_warning None])
                    else Ok dups
                | Some cocartesian =>
                    if Z.of_nat (length (List.filter
                         (fun a => bool_decide (a_category a = cat_cartesian)) axioms)) >? 0
                    then Ok (dups ++
                             [mkValidationError "CATEGORY_MISMATCH"
                                "Applying cartesian axioms to cocartesian structure"
                                sev_warning None])
                    else Ok dups
                | None => Ok dups
                end)
              else Ok dups) = Ok (dups ++ extra) /\
             Forall (fun c => severity c = sev_warning) extra) as (extra & -> & Hextra).
  { destruct (_ && _ && _) eqn:Hcond;
      [|exists []; rewrite app_nil_r; split; [done|constructor]].
    apply andb_true_iff in Hcond as [_ Hdim].
    destruct d as [g|n s cs]; [|apply isValidDiagram_N in Hv; simpl in Hdim; lia].
    cbn [d_generator bindR].
    destruct (g_color g) as [[]|]; repeat destruct (_ >? 0);
      try (exists []; rewrite app_nil_r; split; [done|constructor]; fail);
      eexists; (split; [done|]); by repeat constructor. }
  cbn [bindR]. eexists. split; [done|]. cbn [Validation.isCompatible Validation.conflicts].
  assert (List.filter (fun c => bool_decide (severity c = sev_error)) (dups ++ extra) = dups)
    as ->.
  { rewrite List.filter_app, filter_errors_all by apply duplicateIdConflicts_errors.
    rewrite <- (app_nil_r dups) at 2. f_equal.
    induction Hextra as [|c extra Hc _ IH]; [done|]. simpl.
    rewrite bool_decide_false by (rewrite Hc; done). done. }
  split; [|done].
  rewrite Z.eqb_eq. unfold dups.
  assert (Z.of_nat (length (Validation.duplicateIdConflicts axioms ∅)) = 0 <->
          Validation.duplicateIdConflicts axioms ∅ = []) as ->.
  { destruct (Validation.duplicateIdConflicts axioms ∅); simpl; split; (done || lia). }
  rewrite duplicateIdConflicts_nil. split; [by intros [? _]|].
  intros Hnd. split; [done|]. apply Forall_forall. intros a _. apply not_elem_of_empty.
Qed.

Lemma validateAxiomCompatibility_duplicates_witness :
  exists outcome,
    Validation.validateAxiomCompatibility [dupCartesian; cocartesianSample; dupStructural]
      (Diagram0 genQ) = Ok outcome /\
    (Validation.isCompatible outcome = true <->
     NoDup (map a_id [dupCartesian; cocartesianSample; dupStructural])) /\
    List.filter (fun c => bool_decide (severity c = sev_error))
                (Validation.conflicts outcome) =
    Validation.duplicateIdConflicts [dupCartesian; cocartesianSample; dupStructural] ∅.
Proof.
  apply (validateAxiomCompatibility_duplicates
           [dupCartesian; cocartesianSample; dupStructural] (Diagram0 genQ)).
  reflexivity.
Defined.

(** *** The built-in axioms *)

Lemma valid_dimension0_generator d :
  isValidDiagram d = true -> (d_dimension d =? 0) = true ->
  exists g, d = Diagram0 g /\ g_id g <> "".
Proof.
  intros Hv Hd. destruct d as [g|n s cs].
  - exists g. split; [done|]. by apply isValidGenerator_id.
  - apply isValidDiagram_N in Hv. simpl in Hd. lia.
Qed.

Lemma builtin_validators_accept d axiom :
  isValidDiagram d = true -> axiom ∈ AxiomSystem.builtinAxioms ->
  a_validator axiom d = Ok [].
Proof.
  intros Hv Hin. unfold AxiomSystem.builtinAxioms in Hin.
  repeat (apply elem_of_cons in Hin as [->|Hin]); [..|by apply elem_of_nil in Hin];
    simpl; rewrite Hv; cbn [negb]; try done.
  - by destruct (_ =? 0).
  - destruct (d_dimension d =? 0) eqn:Hd; [|done].
    destruct (valid_dimension0_generator d Hv Hd) as (g & -> & Hg). simpl.
    by rewrite bool_decide_false.
  - destruct (d_dimension d =? 0) eqn:Hd; [|done].
    destruct (valid_dimension0_generator d Hv Hd) as (g & -> & Hg). simpl.
    case_bool_decide; [|done]. by rewrite bool_decide_false.
  - destruct (d_dimension d =? 0) eqn:Hd; [|done].
    destruct (valid_dimension0_generator d Hv Hd) as (g & -> & Hg). simpl.
    case_bool_decide; [|done]. by rewrite bool_decide_false.
Qed.

Lemma runAxiom_accepts d axiom :
  a_validator axiom d = Ok [] -> Validation.runAxiom d axiom = ([], []).
Proof. intros H. unfold Validation.runAxiom. by rewrite H. Qed.

Lemma createCompleteNPRSystem_registry :
  exists registry,
    AxiomSystem.createCompleteNPRSystem = Ok registry /\ registryOk registry /\
    Validation.getAllAxioms registry = AxiomSystem.builtinAxioms.
Proof.
  apply registerAll_fresh. apply (bool_decide_unpack _). vm_compute. exact I.
Qed.

(** X23.  The complete axiom system accepts exactly the structurally
    valid diagrams: on a valid diagram each of the ten built-in axioms is
    validated, in registration order, without any error or warning. *)
Theorem complete_system_accepts_valid_diagrams (d : Diagram) :
  AxiomSystem.satisfiesAllNPRLaws d = Ok (isValidDiagram d) /\
  (isValidDiagram d = true ->
   exists report,
     AxiomSystem.validateWithCompleteSystem d = Ok report /\
     Validation.getValidatedAxioms report = map a_id AxiomSystem.builtinAxioms /\
     Validation.getAllErrors report = [] /\ Validation.getAllWarnings report = []).
Proof.
  destruct createCompleteNPRSystem_registry as (registry & Hreg & Hok & Hall).
  assert (isValidDiagram d = true ->
          Validation.axiomResults (Validation.validateAllAxioms d registry) =
          map (fun a => (a_id a, ([], []))) AxiomSystem.builtinAxioms) as Hentries.
  { intros Hv. rewrite validateAllAxioms_entries, Hall by done.
    apply map_ext_in. intros a Ha. unfold entryOf. f_equal.
    apply runAxiom_accepts, builtin_validators_accept; [done|].
    by apply list_elem_of_In. }
  unfold AxiomSystem.satisfiesAllNPRLaws, AxiomSystem.validateWithCompleteSystem.
  rewrite Hreg. cbn [bindR]. split.
  - destruct (isValidDiagram d) eqn:Hv.
    + unfold Validation.isValid, Validation.getAllErrors. by rewrite Hentries.
    + unfold Validation.validateAllAxioms. by rewrite Hv.
  - intros Hv. eexists. split; [done|].
    unfold Validation.getValidatedAxioms, Validation.getAllErrors, Validation.getAllWarnings.
    by rewrite Hentries.
Qed.

Lemma complete_system_accepts_valid_diagrams_witness :
  AxiomSystem.satisfiesAllNPRLaws sampleDiagram = Ok (isValidDiagram sampleDiagram) /\
  exists report,
    AxiomSystem.validateWithCompleteSystem sampleDiagram = Ok report /\
    Validation.getValidatedAxioms report = map a_id AxiomSystem.builtinAxioms /\
    Validation.getAllErrors report = [] /\ Validation.getAllWarnings report = [].
Proof.
  split.
  - apply (complete_system_accepts_valid_diagrams sampleDiagram).
  - apply (complete_system_accepts_valid_diagrams sampleDiagram). reflexivity.
Defined.

(** X24.  [applyCoreNPRRules] never reports an error: on a valid
    diagram all four core rules are applied, on an invalid one none is
    applicable. *)
Theorem applyCoreNPRRules_reports_nothing (d : Diagram) :
  NprRules.applyCoreNPRRules d =
  Ok (NprRules.mkApplication d
        (if isValidDiagram d
         then ["npr-associativity"; "npr-unit"; "npr-inverse"; "npr-symmetry"]
         else [])
        []).
Proof.
  unfold NprRules.applyCoreNPRRules, NprRules.applyRules, NprRules.isNPRAxiomApplicable.
  cbn [a_category NprRules.nprAssociativityAxiom NprRules.nprUnitAxiom
       NprRules.nprInverseAxiom NprRules.nprSymmetryAxiom].
  rewrite !bool_decide_true by done.
  destruct (isValidDiagram d) eqn:Hv; cbn [bindR]; [|done].
  assert (forall a, In a AxiomSystem.builtinAxioms -> a_validator a d = Ok []) as Haccept.
  { intros a Ha. apply builtin_validators_accept; [done|]. by apply list_elem_of_In. }
  rewrite (Haccept NprRules.nprAssociativityAxiom) by (simpl; auto 12). cbn [bindR].
  rewrite (Haccept NprRules.nprUnitAxiom) by (simpl; auto 12). cbn [bindR].
  rewrite (Haccept NprRules.nprInverseAxiom) by (simpl; auto 12). cbn [bindR].
  rewrite (Haccept NprRules.nprSymmetryAxiom) by (simpl; auto 12). done.
Qed.

(** *** Polarity *)

Lemma isCartesianDiagram_root d :
  Validation.isCartesianDiagram d = true ->
  isValidDiagram d = true /\ Validation.isCocartesianDiagram d = false.
Proof.
  induction d as [g|n s IH cs]; simpl.
  - destruct (isValidGenerator g); [|done]. simpl.
    case_bool_decide as Hc; [|done]. intros _. split; [done|].
    apply bool_decide_false. by rewrite Hc.
  - destruct (_ =? 0); [done|]. destruct (_ <? 0); [done|].
    destruct (isValidDiagram s); [|done]. simpl. intros H. by destruct (IH H).
Qed.

Lemma isCocartesianDiagram_valid d :
  Validation.isCocartesianDiagram d = true -> isValidDiagram d = true.
Proof. destruct d; simpl; by destruct (negb _) eqn:H; [|apply negb_false_iff in H]. Qed.

(** X25.  A cartesian or cocartesian diagram is valid, no diagram is
    both, and the polarity of a diagram of positive dimension is that of its
    source. *)
Theorem polarities_exclude_each_other (d : Diagram) :
  (Validation.isCartesianDiagram d = true -> isValidDiagram d = true) /\
  (Validation.isCocartesianDiagram d = true -> isValidDiagram d = true) /\
  ~ (Validation.isCartesianDiagram d = true /\ Validation.isCocartesianDiagram d = true) /\
  (forall n cospans, 0 < n ->
     Validation.isCartesianDiagram (DiagramN n d cospans) = Validation.isCartesianDiagram d /\
     Validation.isCocartesianDiagram (DiagramN n d cospans) =
     Validation.isCocartesianDiagram d).
Proof.
  split_and!.
  - intros H. by apply isCartesianDiagram_root.
  - apply isCocartesianDiagram_valid.
  - intros [Hc Hco]. apply isCartesianDiagram_root in Hc as [_ Hc]. congruence.
  - intros n cospans Hn. cbn [Validation.isCartesianDiagram Validation.isCocartesianDiagram].
    destruct (isValidDiagram (DiagramN n d cospans)) eqn:Hv; [done|]. cbn [negb].
    assert (isValidDiagram d = false) as Hd.
    { destruct (isValidDiagram d) eqn:Hd; [|done].
      rewrite (proj2 (isValidDiagram_N n d cospans)) in Hv; done. }
    destruct d; simpl in *; by rewrite Hd.
Qed.

Lemma polarities_exclude_each_other_witness :
  isValidDiagram (Diagram0 genQ) = true /\
  ~ (Validation.isCartesianDiagram (Diagram0 genQ) = true /\
     Validation.isCocartesianDiagram (Diagram0 genQ) = true) /\
  Validation.isCartesianDiagram (DiagramN 2 (Diagram0 genQ) []) =
  Validation.isCartesianDiagram (Diagram0 genQ).
Proof.
  split; [|split].
  - apply (proj1 (polarities_exclude_each_other (Diagram0 genQ))). reflexivity.
  - apply (proj1 (proj2 (proj2 (polarities_exclude_each_other (Diagram0 genQ))))).
  - apply (proj2 (proj2 (proj2 (polarities_exclude_each_other (Diagram0 genQ))))). lia.
Defined.

Lemma cartesian_validators_accept d axiom :
  isValidDiagram d = true ->
  In axiom [Cartesian.cartesianProductAxiom; Cartesian.cartesianProjectionAxiom;
            Cartesian.cartesianUniversalPropertyAxiom] ->
  a_validator axiom d = Ok [].
Proof.
  intros Hv [<-|[<-|[<-|[]]]]; simpl; rewrite Hv; cbn [negb]; try done.
  destruct (d_dimension d =? 0) eqn:Hd; [|done].
  destruct (valid_dimension0_generator d Hv Hd) as (g & -> & Hg). simpl.
  case_bool_decide; [|done]. by rewrite bool_decide_false.
Qed.

Lemma applyCartesianRules_outcome d :
  Cartesian.applyCartesianRules d =
  Ok (Cartesian.mkRuleResult d
        (if Validation.isCartesianDiagram d
         then ["cartesian-product"; "cartesian-projection"; "cartesian-universal"]
         else [])
        []).
Proof.
  unfold Cartesian.applyCartesianRules.
  destruct (Validation.isCartesianDiagram d) eqn:Hp; [|done]. cbn [negb].
  apply isCartesianDiagram_root in Hp as [Hv _]. unfold Cartesian.runRules.
  rewrite (cartesian_validators_accept d Cartesian.cartesianProductAxiom)
    by (simpl; auto).
  cbn [bindR].
  rewrite (cartesian_validators_accept d Cartesian.cartesianProjectionAxiom)
    by (simpl; auto).
  cbn [bindR].
  rewrite (cartesian_validators_accept d Cartesian.cartesianUniversalPropertyAxiom)
    by (simpl; auto).
  done.
Qed.

Lemma cartesianCoherence_outcome source target rewrite :
  exists outcome,
    Cartesian.cartesianCoherence source target rewrite = Ok outcome /\
    Cartesian.isCoherent outcome =
      isValidDiagram source && isValidDiagram target && isValidRewrite rewrite /\
    (length (Cartesian.violations outcome) <= 1)%nat.
Proof.
  unfold Cartesian.cartesianCoherence.
  destruct (isValidDiagram source) eqn:Hs; [|eexists; split; [done|]; split; [done|simpl; lia]].
  destruct (isValidDiagram target) eqn:Ht; [|eexists; split; [done|]; split; [done|simpl; lia]].
  destruct (isValidRewrite rewrite) eqn:Hr; [|eexists; split; [done|]; split; [done|simpl; lia]].
  cbn [negb orb andb].
  destruct (Validation.isCartesianDiagram source) eqn:Hps,
           (Validation.isCartesianDiagram target) eqn:Hpt;
    cbn [negb andb bindR]; try (eexists; split; [done|]; split; [done|simpl; lia]).
  destruct (r_dimension rewrite =? 0) eqn:Hd;
    [|cbn [bindR]; eexists; split; [done|]; split; [done|simpl; lia]].
  destruct rewrite as [rs rt| |n cones];
    [|done|apply isValidRewrite_N in Hr; simpl in Hd; lia].
  destruct source as [gs|? ? ?], target as [gt|? ? ?]; cbn;
    repeat case_bool_decide; cbn; eexists; (split; [done|]); split; (done || simpl; lia).
Qed.

Lemma cocartesian_validators_accept d axiom :
  isValidDiagram d = true ->
  In axiom [Cocartesian.cocartesianCoproductAxiom; Cocartesian.cocartesianInjectionAxiom;
            Cocartesian.cocartesianUniversalPropertyAxiom] ->
  a_validator axiom d = Ok [].
Proof.
  intros Hv [<-|[<-|[<-|[]]]]; simpl; rewrite Hv; cbn [negb]; try done.
  destruct (d_dimension d =? 0) eqn:Hd; [|done].
  destruct (valid_dimension0_generator d Hv Hd) as (g & -> & Hg). simpl.
  case_bool_decide; [|done]. by rewrite bool_decide_false.
Qed.

Lemma applyCocartesianRules_outcome d :
  Cocartesian.applyCocartesianRules d =
  Ok (Cocartesian.mkRuleResult d
        (if Validation.isCocartesianDiagram d
         then ["cocartesian-coproduct"; "cocartesian-injection"; "cocartesian-universal"]
         else [])
        []).
Proof.
  unfold Cocartesian.applyCocartesianRules.
  destruct (Validation.isCocartesianDiagram d) eqn:Hp; [|done]. cbn [negb].
  apply isCocartesianDiagram_valid in Hp as Hv. unfold Cocartesian.runRules.
  rewrite (cocartesian_validators_accept d Cocartesian.cocartesianCoproductAxiom)
    by (simpl; auto).
  cbn [bindR].
  rewrite (cocartesian_validators_accept d Cocartesian.cocartesianInjectionAxiom)
    by (simpl; auto).
  cbn [bindR].
  rewrite (cocartesian_validators_accept d Cocartesian.cocartesianUniversalPropertyAxiom)
    by (simpl; auto).
  done.
Qed.

Lemma cocartesianCoherence_outcome source target rewrite :
  exists outcome,
    Cocartesian.cocartesianCoherence source target rewrite = Ok outcome /\
    Cocartesian.isCoherent outcome =
      isValidDiagram source && isValidDiagram target && isValidRewrite rewrite /\
    (length (Cocartesian.violations outcome) <= 1)%nat.
Proof.
  unfold Cocartesian.cocartesianCoherence.
  destruct (isValidDiagram source) eqn:Hs; [|eexists; split; [done|]; split; [done|simpl; lia]].
  destruct (isValidDiagram target) eqn:Ht; [|eexists; split; [done|]; split; [done|simpl; lia]].
  destruct (isValidRewrite rewrite) eqn:Hr; [|eexists; split; [done|]; split; [done|simpl; lia]].
  cbn [negb orb andb].
  destruct (Validation.isCocartesianDiagram source) eqn:Hps,
           (Validation.isCocartesianDiagram target) eqn:Hpt;
    cbn [negb andb bindR]; try (eexists; split; [done|]; split; [done|simpl; lia]).
  destruct (r_dimension rewrite =? 0) eqn:Hd;
    [|cbn [bindR]; eexists; split; [done|]; split; [done|simpl; lia]].
  destruct rewrite as [rs rt| |n cones];
    [|done|apply isValidRewrite_N in Hr; simpl in Hd; lia].
  destruct source as [gs|? ? ?], target as [gt|? ? ?]; cbn;
    repeat case_bool_decide; cbn; eexists; (split; [done|]); split; (done || simpl; lia).
Qed.

(** X26.  [applyCartesianRules] and [applyCocartesianRules] never
    report an error: the three rules are applied on a diagram of their
    polarity and none otherwise; consequently [validateCartesianStructure]
    and [validateCocartesianStructure] accept exactly the valid diagrams. *)
Theorem polarity_rules_report_nothing (d : Diagram) :
  Cartesian.applyCartesianRules d =
    Ok (Cartesian.mkRuleResult d
          (if Validation.isCartesianDiagram d
           then ["cartesian-product"; "cartesian-projection"; "cartesian-universal"]
           else [])
          []) /\
  Cocartesian.applyCocartesianRules d =
    Ok (Cocartesian.mkRuleResult d
          (if Validation.isCocartesianDiagram d
           then ["cocartesian-coproduct"; "cocartesian-injection"; "cocartesian-universal"]
           else [])
          []) /\
  Cartesian.validateCartesianStructure d =
    Ok (Cartesian.mkValidationResult (isValidDiagram d)
          (if isValidDiagram d then []
           else [mkValidationError "INVALID_DIAGRAM" "Diagram structure is invalid"
                   sev_error None])) /\
  Cocartesian.validateCocartesianStructure d =
    Ok (Cocartesian.mkValidationResult (isValidDiagram d)
          (if isValidDiagram d then []
           else [mkValidationError "INVALID_DIAGRAM" "Diagram structure is invalid"
                   sev_error None])).
Proof.
  split_and!; [apply applyCartesianRules_outcome|apply applyCocartesianRules_outcome|..];
    unfold Cartesian.validateCartesianStructure, Cocartesian.validateCocartesianStructure;
    rewrite ?applyCartesianRules_outcome, ?applyCocartesianRules_outcome;
    (destruct (isValidDiagram d); [|done]); cbn [negb];
    by destruct (Validation.isCartesianDiagram d), (Validation.isCocartesianDiagram d).
Qed.

(** X27.  [cartesianCoherence] and [cocartesianCoherence] always
    return; the verdict [isCoherent] says exactly that the two diagrams and
    the rewrite are valid, and at most one violation is reported. *)
Theorem coherence_is_validity (source target : Diagram) (rewrite : Rewrite) :
  (exists outcome,
     Cartesian.cartesianCoherence source target rewrite = Ok outcome /\
     Cartesian.isCoherent outcome =
       isValidDiagram source && isValidDiagram target && isValidRewrite rewrite /\
     (length (Cartesian.violations outcome) <= 1)%nat) /\
  (exists outcome,
     Cocartesian.cocartesianCoherence source target rewrite = Ok outcome /\
     Cocartesian.isCoherent outcome =
       isValidDiagram source && isValidDiagram target && isValidRewrite rewrite /\
     (length (Cocartesian.violations outcome) <= 1)%nat).
Proof. split; [apply cartesianCoherence_outcome|apply cocartesianCoherence_outcome]. Qed.

(** *** The engine's validation *)

Lemma checkValidationCycles_valid d depth path :
  isValidDiagram d = true -> 0 <= depth ->
  EngineValidation.checkValidationCycles d depth path = [] <->
  depth + sourceDepth d <= 100.
Proof.
  revert depth path. induction d as [g|n s IH cs]; intros depth path Hv Hd.
  - simpl. unfold EngineValidation.MAX_DEPTH. zbool; split; (done || lia).
  - apply isValidDiagram_N in Hv as Hv'. destruct Hv' as [Hn Hs].
    cbn [EngineValidation.checkValidationCycles sourceDepth].
    unfold EngineValidation.MAX_DEPTH.
    pose proof (sourceDepth_nonneg s).
    rewrite Z.gtb_ltb. destruct (Z.ltb_spec 100 depth); [split; (done || lia)|].
    rewrite Z.gtb_ltb. destruct (Z.ltb_spec 0 n); [|lia].
    rewrite IH by (done || lia). lia.
Qed.

Lemma checkValidationCycles_nonempty d depth path :
  EngineValidation.checkValidationCycles d depth path = [] \/
  (Z.of_nat (length (EngineValidation.checkValidationCycles d depth path)) >? 0) = true.
Proof. destruct (EngineValidation.checkValidationCycles d depth path); [by left|by right]. Qed.

Lemma coneErrors_valid i cones :
  forallb isValidCone cones = true -> EngineValidation.coneErrors i cones = [].
Proof.
  revert i. induction cones as [|c cones IH]; intros i H; [done|].
  simpl in *. apply andb_true_iff in H as [-> H]. simpl. by apply IH.
Qed.

Lemma validateRewrite_valid r :
  isValidRewrite r = true ->
  EngineValidation.validateRewrite r = EngineValidation.mkResult true [] [].
Proof.
  intros Hv. unfold EngineValidation.validateRewrite. rewrite Hv. cbn [negb].
  destruct r as [s t| |n cones]; [| done |].
  - simpl in Hv. apply andb_true_iff in Hv as [-> ->]. done.
  - apply isValidRewrite_N in Hv as [Hn Hc]. rewrite coneErrors_valid by done. zbool.
Qed.

Lemma validateCospan_outcome c path :
  EngineValidation.validateCospan c path =
  if isValidCospan c then EngineValidation.mkResult true [] []
  else EngineValidation.mkResult false
         [mkValidationError "INVALID_COSPAN" ("Invalid cospan at " +:+ path)
            sev_error (Some path)] [].
Proof.
  unfold EngineValidation.validateCospan.
  destruct (isValidCospan c) eqn:Hv; [|done]. cbn [negb].
  destruct c as [f b]. apply isValidCospan_inv in Hv as [Hf Hb]. cbn [forward backward].
  by rewrite !validateRewrite_valid.
Qed.

Lemma cospanFindings_outcome i cospans :
  (EngineValidation.cospanFindings i cospans).2 = [] /\
  ((EngineValidation.cospanFindings i cospans).1 = [] <->
   forallb isValidCospan cospans = true) /\
  Forall (fun e => code e = "INVALID_COSPAN")
         (EngineValidation.cospanFindings i cospans).1.
Proof.
  revert i. induction cospans as [|c cospans IH]; intros i; [by split_and!|].
  cbn [EngineValidation.cospanFindings forallb]. rewrite validateCospan_outcome.
  destruct (IH (S i)) as (Hw & He & Hc).
  destruct (EngineValidation.cospanFindings (S i) cospans) as [restErrors restWarnings].
  simpl in *. destruct (isValidCospan c); simpl; split_and!; try done.
  by constructor.
Qed.

Lemma validateDiagramGenerators_valid d path :
  isValidDiagram d = true -> EngineValidation.validateDiagramGenerators d path = [].
Proof.
  revert path. induction d as [g|n s IH cs]; intros path Hv.
  - simpl in *. by rewrite Hv.
  - apply isValidDiagram_N in Hv as Hv'. destruct Hv' as [Hn Hs].
    cbn [EngineValidation.validateDiagramGenerators]. zbool. by apply IH.
Qed.

(** X28.  [validateDiagram] accepts exactly the valid diagrams of at
    most 100 levels whose top-level cospans are all well-formed; on a valid
    diagram within the bound it gives no warning and only [INVALID_COSPAN]
    errors. *)
Theorem validateDiagram_verdict (d : Diagram) :
  EngineValidation.isValid (EngineValidation.validateDiagram d) =
    isValidDiagram d && (sourceDepth d <=? 100) && forallb isValidCospan (d_cospans d) /\
  (isValidDiagram d = true -> sourceDepth d <= 100 ->
   EngineValidation.warnings (EngineValidation.validateDiagram d) = [] /\
   Forall (fun e => code e = "INVALID_COSPAN")
          (EngineValidation.errors (EngineValidation.validateDiagram d))).
Proof.
  unfold EngineValidation.validateDiagram.
  destruct (isValidDiagram d) eqn:Hv.
  - pose proof (checkValidationCycles_valid d 0 "root" Hv ltac:(lia)) as Hcycles.
    destruct (checkValidationCycles_nonempty d 0 "root") as [Hnil|Hsome].
    + rewrite Hnil. cbn [length Z.of_nat Z.gtb Z.compare negb app].
      destruct (validateNPRAspects_valid d Hv) as (aspects & -> & _ & -> & ->).
      rewrite validateDiagramGenerators_valid by done. cbn [app].
      assert (sourceDepth d <= 100) as Hd by (apply Hcycles in Hnil; lia).
      destruct (Z.leb_spec (sourceDepth d) 100); [|lia]. cbn [andb].
      destruct d as [g|n s cs]; [by split_and!|].
      apply isValidDiagram_N in Hv as [Hn Hs]. cbn [d_dimension d_cospans].
      rewrite Z.gtb_ltb. destruct (Z.ltb_spec 0 n); [|lia].
      unfold EngineValidation.validateDiagramCospans.
      rewrite Z.gtb_ltb. destruct (Z.ltb_spec 0 n); [|lia].
      destruct (cospanFindings_outcome 0 cs) as (Hw & He & Hc).
      destruct (EngineValidation.cospanFindings 0 cs) as [cospanErrors cospanWarnings].
      simpl in *. rewrite !app_nil_r. subst cospanWarnings. split; [|done].
      destruct cospanErrors as [|e es]; simpl.
      * symmetry. by apply He.
      * destruct (forallb isValidCospan cs); [|done]. by destruct He as [_ He]; discriminate He.
    + rewrite Hsome. cbn [EngineValidation.isValid].
      assert (100 < sourceDepth d) as Hd.
      { destruct (Z.le_gt_cases (sourceDepth d) 100) as [Hle|]; [|done].
        apply Hcycles in Hle. rewrite Hle in Hsome. done. }
      destruct (Z.leb_spec (sourceDepth d) 100); [lia|]. split; [done|]. lia.
  - split; [|done]. cbn [andb]. destruct (_ >? 0); [done|].
    cbn [negb app]. destruct (d_dimension d >? 0); [|done].
    by destruct (EngineValidation.validateDiagramCospans d).
Qed.

Lemma validateDiagram_verdict_witness :
  EngineValidation.isValid (EngineValidation.validateDiagram sampleDiagram) =
    isValidDiagram sampleDiagram && (sourceDepth sampleDiagram <=? 100) &&
    forallb isValidCospan (d_cospans sampleDiagram) /\
  EngineValidation.warnings (EngineValidation.validateDiagram sampleDiagram) = [] /\
  Forall (fun e => code e = "INVALID_COSPAN")
         (EngineValidation.errors (EngineValidation.validateDiagram sampleDiagram)).
Proof.
  split.
  - apply (validateDiagram_verdict sampleDiagram).
  - apply (validateDiagram_verdict sampleDiagram); [reflexivity|]. vm_compute. discriminate.
Defined.



